(** * export_ios_sms: a shallow embedding of [samples/ios_sms_export/export_ios_sms.py]

    The development follows the order of the Python module: the values a
    [sqlite3.Row] can hold, the few library operations the script calls
    ([int], [datetime], [pathlib], [shutil], [re]), then the script's own
    functions under their own names, and finally the properties.

    Conventions.
    - A Python [str] is a Rocq [string]; one [ascii] stands for one character
      of the Latin-1 range (code points 0 to 255), where the Unicode character
      classes used by [\w] and [str.strip] are given by explicit tables.
    - A Python [float] is a [spec_float] read at binary64; only exact
      operations and the correctly rounded product and quotient are used.
    - Paths are [PurePosixPath] values.  The file system is a finite map from
      paths to entries: every path names its own entry (no symbolic links,
      no [..] aliasing, names are case sensitive).
    - Exceptions are values of [exn]; a computation that touches the file
      system returns its outcome together with the file system it leaves.
    - The interpreter is CPython 3.11 on Linux with the GNU C library: text
      handed to [int] may hold at most 4300 digits, [strftime] writes the
      year without padding, and a path handed to the operating system must
      stay within [Fs.NAME_MAX] and [Fs.PATH_MAX] (see [Fs.within_limits]). *)

From Stdlib Require Import ZArith QArith Qabs Floats.SpecFloat Ascii List Sorted Permutation Lia.
From stdpp Require Import base option list sorting gmap strings pretty.

Local Open Scope Z_scope.

(** ** Exceptions and outcomes *)

Inductive exn :=
  | TypeError | ValueError | OverflowError
  | FileExistsError | FileNotFoundError | NotADirectoryError
  | IsADirectoryError | SameFileError | ZeroDivisionError
  | OutOfFuel.

Inductive outcome (A : Type) :=
  | Ok (a : A)
  | Raise (e : exn).
Arguments Ok {A} a.
Arguments Raise {A} e.

#[global] Instance outcome_ret : MRet outcome := λ A a, Ok a.
#[global] Instance outcome_bind : MBind outcome := λ A B k x,
  match x with Ok a => k a | Raise e => Raise e end.
#[global] Instance outcome_fmap : FMap outcome := λ A B g x,
  match x with Ok a => Ok (g a) | Raise e => Raise e end.

(** ** Values of a row column, as [sqlite3] hands them to Python *)

Inductive value :=
  | VNone
  | VInt (z : Z)
  | VFloat (f : spec_float)
  | VStr (s : string)
  | VBytes (b : string).

Module Py.

(** Character classes.  [isspace] is [str.isspace] and [isalnum] is
    [str.isalnum], both on code points below 256. *)
Definition code (c : ascii) : Z := Z.of_nat (nat_of_ascii c).

Definition within (lo hi : Z) (c : ascii) : bool :=
  (lo <=? code c) && (code c <=? hi).

Definition isdigit_ascii (c : ascii) : bool := within 48 57 c.

Definition isspace_ascii (c : ascii) : bool :=
  within 9 13 c || (code c =? 32).

Definition isspace (c : ascii) : bool :=
  within 9 13 c || within 28 32 c || (code c =? 133) || (code c =? 160).

(** The whitespace [int(text)] skips around a [str] literal. *)
Definition isspace_int (c : ascii) : bool :=
  isspace_ascii c || (code c =? 133) || (code c =? 160).

Definition isalnum (c : ascii) : bool :=
  within 48 57 c || within 65 90 c || within 97 122 c
  || (code c =? 170) || (code c =? 178) || (code c =? 179)
  || (code c =? 181) || (code c =? 185) || (code c =? 186)
  || within 188 190 c || within 192 214 c || within 216 246 c
  || within 248 255 c.

(** [s.strip()] with a given whitespace class. *)
Fixpoint lstrip (sp : ascii → bool) (s : string) : string :=
  match s with
  | String c s' => if sp c then lstrip sp s' else s
  | EmptyString => EmptyString
  end.

Fixpoint rstrip (sp : ascii → bool) (s : string) : string :=
  match s with
  | String c s' =>
      match rstrip sp s' with
      | EmptyString => if sp c then EmptyString else String c EmptyString
      | r => String c r
      end
  | EmptyString => EmptyString
  end.

Definition strip (sp : ascii → bool) (s : string) : string :=
  rstrip sp (lstrip sp s).

(** The integer literal grammar of [int(text)], base 10: decimal digits,
    single underscores between digits, an optional sign, surrounding
    whitespace ignored. *)
Fixpoint digits (acc : Z) (after_digit : bool) (s : string) : option Z :=
  match s with
  | EmptyString => if after_digit then Some acc else None
  | String c s' =>
      if isdigit_ascii c then digits (10 * acc + (code c - 48)) true s'
      else if (code c =? 95) && after_digit then digits acc false s'
      else None
  end.

Definition literal (sp : ascii → bool) (s : string) : option Z :=
  match strip sp s with
  | String "-" s' => Z.opp <$> digits 0 false s'
  | String "+" s' => digits 0 false s'
  | s' => digits 0 false s'
  end.

(** The number of decimal digits of a literal, leading zeros included, and
    the most that [int(text)] converts ([sys.get_int_max_str_digits()]):
    beyond it [ValueError] is raised. *)
Fixpoint count_digits (s : string) : nat :=
  match s with
  | String c s' => ((if isdigit_ascii c then 1 else 0) + count_digits s')%nat
  | EmptyString => 0%nat
  end.

Definition MAX_STR_DIGITS : nat := 4300.

Definition of_literal (sp : ascii → bool) (s : string) : outcome Z :=
  match literal sp s with
  | Some z => if (MAX_STR_DIGITS <? count_digits s)%nat then Raise ValueError else Ok z
  | None => Raise ValueError
  end.

(** The exact value of the finite float with sign [s], mantissa [m] and
    exponent [e]. *)
Definition exact (s : bool) (m : positive) (e : Z) : Q :=
  let n := if s then Zneg m else Zpos m in
  match e with
  | Zneg k => Qmake n (2 ^ k)
  | _ => Qmake (Z.shiftl n e) 1
  end.

(** [int(f)] on a finite float: truncation towards zero. *)
Definition trunc_finite (s : bool) (m : positive) (e : Z) : Z :=
  let a := match e with
           | Zneg k => Z.shiftr (Zpos m) (Zpos k)
           | _ => Z.shiftl (Zpos m) e
           end in
  if s then - a else a.

(** [int(value)]. *)
Definition int (v : value) : outcome Z :=
  match v with
  | VNone => Raise TypeError
  | VInt z => Ok z
  | VFloat (S754_zero _) => Ok 0
  | VFloat (S754_finite s m e) => Ok (trunc_finite s m e)
  | VFloat (S754_infinity _) => Raise OverflowError
  | VFloat S754_nan => Raise ValueError
  | VStr s => of_literal isspace_int s
  | VBytes s => of_literal isspace_ascii s
  end.

(** Truth value of a column in a condition. *)
Definition truthy (v : value) : bool :=
  match v with
  | VNone => false
  | VInt z => negb (z =? 0)
  | VFloat (S754_zero _) => false
  | VFloat _ => true
  | VStr s | VBytes s => negb (String.eqb s EmptyString)
  end.

(** [a / b] on integers: the quotient correctly rounded to binary64. *)
Definition float_of_Z (z : Z) : spec_float :=
  match z with
  | Z0 => S754_zero false
  | Zpos p => S754_finite false p 0
  | Zneg p => S754_finite true p 0
  end.

Definition truediv (a b : Z) : outcome spec_float :=
  if b =? 0 then Raise ZeroDivisionError
  else match SFdiv 53 1024 (float_of_Z a) (float_of_Z b) with
       | S754_infinity _ | S754_nan => Raise OverflowError
       | q => Ok q
       end.

(** The fractional part of a finite float, itself a float (exact). *)
Definition frac_finite (s : bool) (m : positive) (e : Z) : spec_float :=
  match e with
  | Zneg k =>
      match Z.land (Zpos m) (Z.ones (Zpos k)) with
      | Zpos r => S754_finite s r e
      | _ => S754_zero s
      end
  | _ => S754_zero s
  end.

(** [round(f)] on a float: the nearest integer, ties to even. *)
Definition round_half_even (f : spec_float) : Z :=
  match f with
  | S754_finite s m (Zneg k) =>
      let q := Z.shiftr (Zpos m) (Zpos k) in
      let r := Z.land (Zpos m) (Z.ones (Zpos k)) in
      let half := Z.shiftl 1 (Zpos k - 1) in
      let a := match r ?= half with
               | Lt => q
               | Gt => q + 1
               | Eq => if Z.even q then q else q + 1
               end in
      if s then - a else a
  | S754_finite s m e => trunc_finite s m e
  | _ => 0
  end.

End Py.

(** ** The [datetime] module *)

Module Datetime.

(** A naive [datetime] is a point of the proleptic Gregorian time line,
    counted in microseconds from 0001-01-01T00:00:00; a [timedelta] is a
    signed number of microseconds. *)
Record datetime := mk_datetime { micros : Z }.
Record timedelta := mk_timedelta { span : Z }.

Definition DAY : Z := 86400 * 1000000.
Definition MAXORDINAL : Z := 3652059.

Definition is_leap (year : Z) : bool :=
  (year mod 4 =? 0) && (negb (year mod 100 =? 0) || (year mod 400 =? 0)).

Definition DAYS_IN_MONTH : list Z := [0; 31; 28; 31; 30; 31; 30; 31; 31; 30; 31; 30; 31].
Definition DAYS_BEFORE_MONTH : list Z :=
  [0; 0; 31; 59; 90; 120; 151; 181; 212; 243; 273; 304; 334].

Definition days_before_year (year : Z) : Z :=
  let y := year - 1 in y * 365 + y / 4 - y / 100 + y / 400.

Definition days_before_month (year month : Z) : Z :=
  nth (Z.to_nat month) DAYS_BEFORE_MONTH 0
  + (if (2 <? month) && is_leap year then 1 else 0).

Definition ymd2ord (year month day : Z) : Z :=
  days_before_year year + days_before_month year month + day.

(** [datetime(year, month, day)], midnight. *)
Definition ymd (year month day : Z) : datetime :=
  mk_datetime ((ymd2ord year month day - 1) * DAY).

(** [timedelta] keeps its days within nine decimal digits. *)
Definition normalized (us : Z) : outcome timedelta :=
  if Z.abs (us / DAY) >? 999999999 then Raise OverflowError
  else Ok (mk_timedelta us).

(** [timedelta(seconds=s)] for an integer and for a float argument; the
    fractional second of a float is scaled to microseconds in binary64 and
    rounded to the nearest microsecond, ties to even. *)
Definition of_seconds (s : Z) : outcome timedelta := normalized (s * 1000000).

Definition of_float_seconds (f : spec_float) : outcome timedelta :=
  match f with
  | S754_nan => Raise ValueError
  | S754_infinity _ => Raise OverflowError
  | S754_zero _ => Ok (mk_timedelta 0)
  | S754_finite s m e =>
      let whole := Py.trunc_finite s m e in
      let us := SFmul 53 1024 (Py.float_of_Z 1000000) (Py.frac_finite s m e) in
      normalized (whole * 1000000 + Py.round_half_even us)
  end.

(** [d + t]. *)
Definition add (d : datetime) (t : timedelta) : outcome datetime :=
  let r := micros d + span t in
  if (0 <=? r) && (r <? MAXORDINAL * DAY) then Ok (mk_datetime r)
  else Raise OverflowError.

(** Calendar fields. *)
Definition ord2ymd (ordinal : Z) : Z * Z * Z :=
  let n := ordinal - 1 in
  let n400 := n / 146097 in let n := n mod 146097 in
  let n100 := n / 36524 in let n := n mod 36524 in
  let n4 := n / 1461 in let n := n mod 1461 in
  let n1 := n / 365 in let n := n mod 365 in
  let year := n400 * 400 + 1 + n100 * 100 + n4 * 4 + n1 in
  if (n1 =? 4) || (n100 =? 4) then (year - 1, 12, 31)
  else
    let leapyear := (n1 =? 3) && (negb (n4 =? 24) || (n100 =? 3)) in
    let month := Z.shiftr (n + 50) 5 in
    let preceding := nth (Z.to_nat month) DAYS_BEFORE_MONTH 0
                     + (if (2 <? month) && leapyear then 1 else 0) in
    if n <? preceding then
      let month := month - 1 in
      let preceding := preceding
                       - (nth (Z.to_nat month) DAYS_IN_MONTH 0
                          + (if (month =? 2) && leapyear then 1 else 0)) in
      (year, month, n - preceding + 1)
    else (year, month, n - preceding + 1).

Definition zero_pad (width : nat) (n : Z) : string :=
  let s := pretty n in
  String.concat "" (replicate (width - String.length s) "0"%string) +:+ s.

(** [d.strftime("%Y-%m-%d %H:%M:%S")].  The C library writes the year as it
    is, without padding (a year below 1000 has fewer than four digits); the
    other fields have two digits. *)
Definition strftime_Ymd_HMS (d : datetime) : string :=
  let '(year, month, day) := ord2ymd (micros d / DAY + 1) in
  let secs := (micros d mod DAY) / 1000000 in
  pretty year +:+ "-" +:+ zero_pad 2 month +:+ "-" +:+ zero_pad 2 day
  +:+ " " +:+ zero_pad 2 (secs / 3600) +:+ ":" +:+ zero_pad 2 (secs / 60 mod 60)
  +:+ ":" +:+ zero_pad 2 (secs mod 60).

End Datetime.
Export Datetime.

(** ** Text operations of [str] and [re] used by the script *)

Module Text.

Definition is_sep (c : ascii) : bool := Py.code c =? 47.

Fixpoint has_sep (s : string) : bool :=
  match s with
  | String c s' => is_sep c || has_sep s'
  | EmptyString => false
  end.

(** [s.split("/")]. *)
Fixpoint split_sep (s : string) : list string :=
  match s with
  | String c s' =>
      if is_sep c then EmptyString :: split_sep s'
      else match split_sep s' with
           | h :: t => String c h :: t
           | [] => [String c EmptyString]
           end
  | EmptyString => [EmptyString]
  end.

(** [s.rfind(".")]. *)
Fixpoint rfind_dot (s : string) : option nat :=
  match s with
  | String c s' =>
      match rfind_dot s' with
      | Some i => Some (S i)
      | None => if Py.code c =? 46 then Some O else None
      end
  | EmptyString => None
  end.

(** [s] with a leading [p] removed, when [s] starts with [p]. *)
Fixpoint strip_prefix (p s : string) : option string :=
  match p, s with
  | EmptyString, _ => Some s
  | String a p', String b s' => if Ascii.eqb a b then strip_prefix p' s' else None
  | String _ _, EmptyString => None
  end.

(** The longest prefix without a line feed: what the group of the anchor
    pattern matches, since the dot matches any character but a line feed. *)
Fixpoint dot_star (s : string) : string :=
  match s with
  | String c s' => if Py.code c =? 10 then EmptyString else String c (dot_star s')
  | EmptyString => EmptyString
  end.

(** The two [str.replace] calls on the body: CR LF becomes LF, then every
    remaining CR becomes LF. *)
Fixpoint replace_crlf (s : string) : string :=
  match s with
  | String c s' =>
      match s' with
      | String d s'' =>
          if (Py.code c =? 13) && (Py.code d =? 10)
          then String d (replace_crlf s'')
          else String c (replace_crlf s')
      | EmptyString => s
      end
  | EmptyString => EmptyString
  end.

Fixpoint replace_cr (s : string) : string :=
  match s with
  | String c s' =>
      String (if Py.code c =? 13 then "010"%char else c) (replace_cr s')
  | EmptyString => EmptyString
  end.

(** [sep.join(items)]. *)
Fixpoint join (sep : string) (items : list string) : string :=
  match items with
  | [] => ""
  | [x] => x
  | x :: rest => x +:+ sep +:+ join sep rest
  end.

(** Truth value of an optional text column: [NULL] and [""] are false. *)
Definition nonempty (s : option string) : bool :=
  match s with
  | Some (String _ _) => true
  | _ => false
  end.

End Text.

(** ** [pathlib]: pure POSIX paths *)

Inductive anchor := Relative | Root | DoubleRoot.

Record Path := mk_path { root : anchor; parts : list string }.

#[global] Instance anchor_eq_dec : EqDecision anchor.
Proof. solve_decision. Defined.
#[global] Instance Path_eq_dec : EqDecision Path.
Proof. solve_decision. Defined.
#[global] Instance anchor_countable : Countable anchor :=
  inj_countable'
    (λ a, match a with Relative => 0%nat | Root => 1%nat | DoubleRoot => 2%nat end)
    (λ n, match n with O => Relative | S O => Root | _ => DoubleRoot end)
    (λ a, match a with Relative | Root | DoubleRoot => eq_refl end).
#[global] Instance Path_countable : Countable Path :=
  inj_countable' (λ p, (root p, parts p)) (λ x, mk_path x.1 x.2)
    (λ p, match p with mk_path _ _ => eq_refl end).

Module Pathlib.

(** [Path(s)]: exactly two leading slashes are kept apart from one; empty
    components and [.] components are dropped. *)
Definition parse_root (s : string) : anchor :=
  match s with
  | String a (String b rest) =>
      if Text.is_sep a then
        if Text.is_sep b then
          match rest with
          | String c _ => if Text.is_sep c then Root else DoubleRoot
          | EmptyString => DoubleRoot
          end
        else Root
      else Relative
  | String a EmptyString => if Text.is_sep a then Root else Relative
  | EmptyString => Relative
  end.

Definition kept (x : string) : bool :=
  negb (String.eqb x "") && negb (String.eqb x ".").

Definition parse (s : string) : Path :=
  mk_path (parse_root s) (List.filter kept (Text.split_sep s)).

(** [p / q]: an anchored right operand replaces the left one. *)
Definition join (p q : Path) : Path :=
  match root q with
  | Relative => mk_path (root p) (parts p ++ parts q)
  | _ => q
  end.

Definition name (p : Path) : string := List.last (parts p) "".

Definition has_suffix (name : string) (i : nat) : bool :=
  (0 <? i)%nat && (i <? String.length name - 1)%nat.

Definition suffix (p : Path) : string :=
  let name := name p in
  match Text.rfind_dot name with
  | Some i =>
      if has_suffix name i
      then String.substring i (String.length name - i) name
      else ""
  | None => ""
  end.

Definition stem (p : Path) : string :=
  let name := name p in
  match Text.rfind_dot name with
  | Some i => if has_suffix name i then String.substring 0 i name else name
  | None => name
  end.

Definition parent (p : Path) : Path :=
  mk_path (root p) (List.removelast (parts p)).

(** [str(p)]. *)
Definition str (p : Path) : string :=
  match root p, parts p with
  | Relative, [] => "."
  | Relative, l => Text.join "/" l
  | Root, l => "/" +:+ Text.join "/" l
  | DoubleRoot, l => "//" +:+ Text.join "/" l
  end.

End Pathlib.

Notation "p // s" := (Pathlib.join p (Pathlib.parse s))
  (at level 40, left associativity).

(** ** The file system, [Path] methods that touch it, and [shutil] *)

Inductive entry :=
  | File (content : string)
  | Dir.

Abbreviation filesystem := (gmap Path entry).

(** A computation over the file system: it may raise, and the file system it
    has reached by then stays. *)
Definition io (A : Type) : Type := filesystem → outcome A * filesystem.

#[global] Instance io_ret : MRet io := λ A a fs, (Ok a, fs).
#[global] Instance io_bind : MBind io := λ A B k c fs,
  match c fs with
  | (Ok a, fs') => k a fs'
  | (Raise e, fs') => (Raise e, fs')
  end.

Definition raise {A} (e : exn) : io A := λ fs, (Raise e, fs).
Definition lift {A} (x : outcome A) : io A := λ fs, (x, fs).

Module Fs.

(** The limits of the operating system on a path handed to it: no component
    longer than [NAME_MAX] bytes, and the text of the path, with its final
    zero byte, no longer than [PATH_MAX] bytes.  The text is encoded in
    UTF-8, where a character above 127 takes two bytes. *)
Definition NAME_MAX : nat := 255.
Definition PATH_MAX : nat := 4096.

Fixpoint encoded_length (s : string) : nat :=
  match s with
  | String c s' => ((if (Py.code c <? 128)%Z then 1 else 2) + encoded_length s')%nat
  | EmptyString => 0%nat
  end.

Definition within_limits (p : Path) : bool :=
  forallb (λ x, encoded_length x <=? NAME_MAX)%nat (parts p)
  && (encoded_length (Pathlib.str p) <? PATH_MAX)%nat.

Definition present (fs : filesystem) (p : Path) : bool :=
  match fs !! p with Some _ => true | None => false end.

(** [p.exists()], for a path within the limits.  (Beyond them no entry can
    exist and the call raises [OSError], which is not modelled: a property
    that fixes the outcome of a test on a path that may be absent assumes
    [within_limits].) *)
Definition exists_ (p : Path) : io bool := λ fs, (Ok (present fs p), fs).

(** [os.mkdir] of a missing [root/rev(up_to)], creating missing parents
    first, as [Path.mkdir(parents=True)] does on [FileNotFoundError]. *)
Fixpoint make_dirs (fs : filesystem) (r : anchor) (rev_parts : list string)
  : outcome filesystem :=
  match rev_parts with
  | [] => Raise FileNotFoundError
  | _ :: up =>
      match fs !! mk_path r (rev up) with
      | Some Dir => Ok (<[mk_path r (rev rev_parts) := Dir]> fs)
      | Some (File _) => Raise NotADirectoryError
      | None =>
          fs' ← make_dirs fs r up;
          Ok (<[mk_path r (rev rev_parts) := Dir]> fs')
      end
  end.

(** [p.mkdir(parents=True, exist_ok=True)]. *)
Definition mkdir_parents (p : Path) : io unit := λ fs,
  match fs !! p with
  | Some Dir => (Ok (), fs)
  | Some (File _) => (Raise FileExistsError, fs)
  | None =>
      match make_dirs fs (root p) (rev (parts p)) with
      | Ok fs' => (Ok (), fs')
      | Raise e => (Raise e, fs)
      end
  end.

(** [d] itself or an entry below it. *)
Definition under (d p : Path) : Prop :=
  root d = root p ∧ parts d `prefix_of` parts p.

#[global] Instance under_dec d p : Decision (under d p).
Proof. unfold under. apply _. Defined.

(** The file system without [d] and everything below it. *)
Definition cleared (d : Path) (fs : filesystem) : filesystem :=
  filter (λ kv, ¬ under d kv.1) fs.

(** [shutil.rmtree(d)]. *)
Definition rmtree (d : Path) : io unit := λ fs,
  match fs !! d with
  | Some Dir => (Ok (), cleared d fs)
  | Some (File _) => (Raise NotADirectoryError, fs)
  | None => (Raise FileNotFoundError, fs)
  end.

(** Opening [p] for writing: the parent must be a directory and [p] must
    not be one. *)
Definition writable (fs : filesystem) (p : Path) : outcome unit :=
  match fs !! Pathlib.parent p with
  | Some Dir =>
      match fs !! p with
      | Some Dir => Raise IsADirectoryError
      | _ => Ok ()
      end
  | Some (File _) => Raise NotADirectoryError
  | None => Raise FileNotFoundError
  end.

(** [shutil.copy2(src, dst)]: contents only. *)
Definition copy2 (src dst : Path) : io unit := λ fs,
  let dst := match fs !! dst with
             | Some Dir => dst // Pathlib.name src
             | _ => dst
             end in
  if decide (src = dst) then (Raise SameFileError, fs)
  else match fs !! src with
       | None => (Raise FileNotFoundError, fs)
       | Some Dir => (Raise IsADirectoryError, fs)
       | Some (File content) =>
           match writable fs dst with
           | Ok _ => (Ok (), <[dst := File content]> fs)
           | Raise e => (Raise e, fs)
           end
       end.

(** [p.open("w")]: the file is created or emptied. *)
Definition open_w (p : Path) : io unit := λ fs,
  match writable fs p with
  | Ok _ => (Ok (), <[p := File ""]> fs)
  | Raise e => (Raise e, fs)
  end.

(** [fh.write(data)] on the file opened at [p]. *)
Definition write (p : Path) (data : string) : io unit := λ fs,
  match fs !! p with
  | Some (File content) => (Ok (), <[p := File (content +:+ data)]> fs)
  | _ => (Ok (), fs)
  end.

End Fs.

(** ** The message store *)

Record message_row := {
  m_ROWID : Z;
  m_handle_id : option Z;
  m_date : value;
  m_is_from_me : value;
  m_text : option string;
  m_cache_roomnames : option string }.

Record handle_row := { h_ROWID : Z; h_id : option string }.

Record message_attachment_join_row := {
  maj_message_id : option Z;
  maj_attachment_id : option Z }.

Record attachment_row := {
  a_ROWID : Z;
  a_filename : option string;
  a_transfer_name : option string;
  a_mime_type : option string }.

Record connection := {
  message : list message_row;
  handle : list handle_row;
  message_attachment_join : list message_attachment_join_row;
  attachment : list attachment_row }.

(** One row of the query of [fetch_messages]. *)
Record Row := {
  message_id : Z;
  handle_id : option Z;
  date : value;
  is_from_me : value;
  text : option string;
  cache_roomnames : option string;
  filename : option string;
  transfer_name : option string;
  mime_type : option string }.

Module Sql.

(** [x = y] of SQL on a nullable integer against a row id. *)
Definition eq_id (x : option Z) (y : Z) : bool :=
  match x with Some a => a =? y | None => false end.

Definition eq_text (x : option string) (y : string) : bool :=
  match x with Some a => String.eqb a y | None => false end.

(** [LEFT JOIN]: every matching right row, or one row without a match. *)
Definition left_join {B} (on : B → bool) (right : list B) : list (option B) :=
  match List.filter on right with
  | [] => [None]
  | matches => Some <$> matches
  end.

(** Lexicographic composition of two orders given as boolean tests. *)
Definition lex {A B} (leA : A → A → bool) (leB : B → B → bool)
    (x y : A * B) : bool :=
  leA x.1 y.1 && (negb (leA y.1 x.1) || leB x.2 y.2).

(** The sort key of a value: storage class (NULL, then numbers, then text,
    then blobs), then the number (with the infinities at the ends), then
    the bytes. *)
Definition sort_key (v : value) : Z * (Z * Q * string) :=
  match v with
  | VNone | VFloat S754_nan => (0, (0, 0%Q, ""))
  | VInt z => (1, (0, Qmake z 1, ""))
  | VFloat (S754_zero _) => (1, (0, 0%Q, ""))
  | VFloat (S754_infinity s) => (1, (if s then -1 else 1, 0%Q, ""))
  | VFloat (S754_finite s m e) => (1, (0, Py.exact s m e, ""))
  | VStr s => (2, (0, 0%Q, s))
  | VBytes s => (3, (0, 0%Q, s))
  end.

(** [x <= y] in the order of [ORDER BY]. *)
Definition leb (x y : value) : bool :=
  lex Z.leb (lex (lex Z.leb Qle_bool) String.leb) (sort_key x) (sort_key y).

End Sql.

(** ** The script *)

Definition APPLE_EPOCH : datetime := Datetime.ymd 2001 1 1.

(** [seconds] is an [int] on one branch and a [float] on the other. *)
Inductive number :=
  | NInt (z : Z)
  | NFloat (f : spec_float).

Definition timedelta_seconds (seconds : number) : outcome timedelta :=
  match seconds with
  | NInt z => Datetime.of_seconds z
  | NFloat f => Datetime.of_float_seconds f
  end.

(** [apple_timestamp_to_datetime]: [None] is the unknown marker. *)
Definition apple_timestamp_to_datetime (value : value) : outcome (option datetime) :=
  match value with
  | VNone => Ok None
  | _ =>
      match Py.int value with
      | Raise TypeError | Raise ValueError => Ok None
      | Raise e => Raise e
      | Ok value =>
          if value =? 0 then Ok None
          else
            seconds ← (if value >? 10 ^ 12
                       then NFloat <$> Py.truediv value 1000000000
                       else Ok (NInt value));
            delta ← timedelta_seconds seconds;
            Some <$> Datetime.add APPLE_EPOCH delta
      end
  end.

(** The class [\w.-]: the characters [sanitize_filename] replaces are those outside
    this class. *)
Definition word_char (c : ascii) : bool := Py.isalnum c || (Py.code c =? 95).

Definition allowed (c : ascii) : bool :=
  word_char c || (Py.code c =? 46) || (Py.code c =? 45).

(** [re.sub(r"[^\w.-]+", "_", s)]: every maximal run of characters outside
    the class becomes one underscore.  [in_run] tells that the previous
    character was already replaced. *)
Fixpoint sub_runs (in_run : bool) (s : string) : string :=
  match s with
  | String c s' =>
      if allowed c then String c (sub_runs false s')
      else if in_run then sub_runs true s'
      else String "_" (sub_runs true s')
  | EmptyString => EmptyString
  end.

Definition sanitize_filename (handle : string) : string :=
  let sanitized := sub_runs false (Py.strip Py.isspace handle) in
  match sanitized with
  | EmptyString => "contact"
  | _ => sanitized
  end.

Definition ensure_output_path (path : Path) (overwrite : bool) : io unit :=
  present ← Fs.exists_ path;
  if present && negb overwrite then raise FileExistsError
  else Fs.mkdir_parents (Pathlib.parent path).

(** [ATTACHMENT_ANCHOR.search(s)]: group 1 of the leftmost match. *)
Fixpoint ATTACHMENT_ANCHOR_search (s : string) : option string :=
  match Text.strip_prefix "Library/SMS/Attachments/" s with
  | Some rest => Some (Text.dot_star rest)
  | None =>
      match s with
      | String _ s' => ATTACHMENT_ANCHOR_search s'
      | EmptyString => None
      end
  end.

Definition resolve_attachment_path (raw_path : option string) (attachments_root : Path)
  : io (option Path) :=
  if negb (Text.nonempty raw_path) then mret None
  else
    match ATTACHMENT_ANCHOR_search (default "" raw_path) with
    | None => mret None
    | Some group1 =>
        let relative := Pathlib.parse group1 in
        let candidate :=
          Pathlib.join (attachments_root // "Library" // "SMS" // "Attachments") relative in
        found ← Fs.exists_ candidate;
        if found : bool then mret (Some candidate)
        else
          let candidate := Pathlib.join attachments_root relative in
          found ← Fs.exists_ candidate;
          mret (if found : bool then Some candidate else None)
    end.

(** The rows of the query before [ORDER BY]: the joins as nested loops, then
    the [WHERE] clause. *)
Definition joined_rows (connection : connection) (handle_identifier : string) : list Row :=
  m ← message connection;
  h ← List.filter (λ h, Sql.eq_id (m_handle_id m) (h_ROWID h)) (handle connection);
  maj ← Sql.left_join (λ maj, Sql.eq_id (maj_message_id maj) (m_ROWID m))
        (message_attachment_join connection);
  a ← Sql.left_join
        (λ a, match maj with
              | Some maj => Sql.eq_id (maj_attachment_id maj) (a_ROWID a)
              | None => false
              end)
        (attachment connection);
  if Sql.eq_text (h_id h) handle_identifier then
    [ {| message_id := m_ROWID m;
         handle_id := m_handle_id m;
         date := m_date m;
         is_from_me := m_is_from_me m;
         text := m_text m;
         cache_roomnames := m_cache_roomnames m;
         filename := a ≫= a_filename;
         transfer_name := a ≫= a_transfer_name;
         mime_type := a ≫= a_mime_type |} ]
  else [].

(** [ORDER BY m.date, m.ROWID]. *)
Definition row_leb (r1 r2 : Row) : bool :=
  Sql.lex Sql.leb Z.leb (date r1, message_id r1) (date r2, message_id r2).

Definition row_le (r1 r2 : Row) : Prop := row_leb r1 r2.

Definition fetch_messages (connection : connection) (handle_identifier : string) : list Row :=
  merge_sort row_le (joined_rows connection handle_identifier).

(** The [while destination.exists()] loop of [format_message].  The file
    system does not change while it runs; [fuel] bounds the iterations. *)
Fixpoint next_free (fuel : nat) (fs : filesystem) (attachments_dir : Path)
    (base_name suffix_str : string) (destination : Path) (suffix : nat) : option Path :=
  match fuel with
  | O => None
  | S fuel =>
      if Fs.present fs destination then
        next_free fuel fs attachments_dir base_name suffix_str
          (attachments_dir // (base_name +:+ "_" +:+ pretty suffix +:+ suffix_str))
          (suffix + 1)
      else Some destination
  end.

Definition free_destination (attachments_dir destination : Path) : io Path := λ fs,
  match next_free (2 + size fs) fs attachments_dir
          (Pathlib.stem destination) (Pathlib.suffix destination) destination 1 with
  | Some destination => (Ok destination, fs)
  | None => (Raise OutOfFuel, fs)
  end.

Definition NOT_FOUND : string := "(Anhang nicht gefunden im Backup)".

Definition format_message (row : Row) (handle_identifier : string)
    (attachments_dir attachments_root : option Path) (include_media : bool)
  : io (string * list string) :=
  timestamp ← lift (apple_timestamp_to_datetime (date row));
  let timestamp_text :=
    match timestamp with
    | None => "Unbekannte Zeit"
    | Some timestamp => Datetime.strftime_Ymd_HMS timestamp
    end in
  let sender := if Py.truthy (is_from_me row) then "Ich" else handle_identifier in
  let body := Text.replace_cr (Text.replace_crlf (default "" (text row))) in
  let body := match body with EmptyString => "(kein Text)" | _ => body end in
  found ←
    match include_media, attachments_dir, attachments_root with
    | true, Some attachments_dir, Some attachments_root =>
        attachment_path ← resolve_attachment_path (filename row) attachments_root;
        match attachment_path with
        | Some attachment_path =>
            Fs.mkdir_parents attachments_dir;;
            let destination_name :=
              if Text.nonempty (transfer_name row)
              then default "" (transfer_name row)
              else Pathlib.name attachment_path in
            let destination := attachments_dir // destination_name in
            destination ← free_destination attachments_dir destination;
            Fs.copy2 attachment_path destination;;
            mret (Some attachment_path, [Pathlib.name destination])
        | None => mret (None, [])
        end
    | _, _, _ => mret (None, [])
    end;
  let '(attachment_path, attachments) := found : option Path * list string in
  let attachments :=
    if Text.nonempty (filename row) && include_media && negb (bool_decide (is_Some attachment_path))
    then attachments ++ [NOT_FOUND]
    else attachments in
  let attachment_note :=
    match attachments with
    | [] => ""
    | _ => " " +:+ Text.join ", " ((λ name, "[Anhang: " +:+ name +:+ "]") <$> attachments)
    end in
  mret ("[" +:+ timestamp_text +:+ "] " +:+ sender +:+ ": " +:+ body +:+ attachment_note,
        attachments).

Definition LF : string := String "010" "".

(** The body of the [with] block of [export_for_contact]. *)
Fixpoint write_rows (text_path : Path) (rows : list Row) (handle_identifier : string)
    (attachments_dir attachments_root : option Path) (include_media : bool) : io unit :=
  match rows with
  | [] => mret ()
  | row :: rows =>
      formatted ← format_message row handle_identifier attachments_dir attachments_root
                    include_media;
      Fs.write text_path (formatted.1 +:+ LF);;
      write_rows text_path rows handle_identifier attachments_dir attachments_root
        include_media
  end.

Definition export_for_contact (connection : connection) (handle_identifier : string)
    (output_dir : Path) (attachments_root : option Path) (include_media overwrite : bool)
  : io Path :=
  let sanitized := sanitize_filename handle_identifier in
  let text_path := output_dir // (sanitized +:+ ".txt") in
  ensure_output_path text_path overwrite;;
  attachments_dir ←
    (if include_media then
       let attachments_dir := output_dir // (sanitized +:+ "_attachments") in
       present ← Fs.exists_ attachments_dir;
       if present && negb overwrite then raise FileExistsError
       else
         present ← Fs.exists_ attachments_dir;
         (if present && overwrite then Fs.rmtree attachments_dir else mret ());;
         mret (Some attachments_dir)
     else mret None);
  let rows := fetch_messages connection handle_identifier in
  match rows with
  | [] => raise ValueError
  | _ =>
      Fs.open_w text_path;;
      write_rows text_path rows handle_identifier attachments_dir attachments_root
        include_media;;
      mret text_path
  end.

(** [export_chats], from the opened connection on. *)
Fixpoint export_chats_from (exported : list Path) (connection : connection)
    (attachments_root : option Path) (contacts : list string) (output_dir : Path)
    (include_media overwrite : bool) : io (list Path) :=
  match contacts with
  | [] => mret exported
  | handle_identifier :: contacts =>
      exported_path ← export_for_contact connection handle_identifier output_dir
                        attachments_root include_media overwrite;
      export_chats_from (exported ++ [exported_path]) connection attachments_root
        contacts output_dir include_media overwrite
  end.

Definition export_chats (connection : connection) (attachments_root : option Path)
    (contacts : list string) (output_dir : Path) (include_media overwrite : bool)
  : io (list Path) :=
  export_chats_from [] connection attachments_root contacts output_dir include_media
    overwrite.

(** ** Definitions used to state the properties *)

(** Every character of [s] satisfies [P]. *)
Fixpoint all_chars (P : ascii → bool) (s : string) : bool :=
  match s with
  | String c s' => P c && all_chars P s'
  | EmptyString => true
  end.

(** [s] does not begin with a character satisfying [P]. *)
Definition not_starting (P : ascii → bool) (s : string) : bool :=
  match s with
  | String c _ => negb (P c)
  | EmptyString => true
  end.

(** Sanitization as the specification words it: each character outside the
    class is replaced by an underscore, one for one. *)
Fixpoint replace_each (s : string) : string :=
  match s with
  | String c s' => String (if allowed c then c else "_"%char) (replace_each s')
  | EmptyString => EmptyString
  end.

Definition sanitize_as_specified (handle : string) : string :=
  match replace_each handle with
  | EmptyString => "contact"
  | sanitized => sanitized
  end.

(** The candidate paths of [resolve_attachment_path], in the order tried. *)
Definition candidates (raw_path : option string) (attachments_root : Path) : list Path :=
  match raw_path ≫= ATTACHMENT_ANCHOR_search with
  | Some group1 =>
      [ Pathlib.join (attachments_root // "Library" // "SMS" // "Attachments")
          (Pathlib.parse group1);
        Pathlib.join attachments_root (Pathlib.parse group1) ]
  | None => []
  end.

(** The candidates as the specification words them: without the marker the
    fallback is still tried, with nothing as the remainder. *)
Definition candidates_as_specified (raw_path : option string) (attachments_root : Path)
  : list Path :=
  match raw_path ≫= ATTACHMENT_ANCHOR_search with
  | Some group1 =>
      [ Pathlib.join (attachments_root // "Library" // "SMS" // "Attachments")
          (Pathlib.parse group1);
        Pathlib.join attachments_root (Pathlib.parse group1) ]
  | None => [ Pathlib.join attachments_root (Pathlib.parse "") ]
  end.


(** The name tried by the collision loop at step [k]. *)
Definition numbered (attachments_dir destination : Path) (k : nat) : Path :=
  attachments_dir //
    (Pathlib.stem destination +:+ "_" +:+ pretty k +:+ Pathlib.suffix destination).

(** The transcript line of a row without its attachment note. *)
Definition transcript_text (timestamp : option datetime) (row : Row)
    (handle_identifier : string) : string :=
  let timestamp_text :=
    match timestamp with
    | None => "Unbekannte Zeit"
    | Some timestamp => Datetime.strftime_Ymd_HMS timestamp
    end in
  let sender := if Py.truthy (is_from_me row) then "Ich" else handle_identifier in
  let body := Text.replace_cr (Text.replace_crlf (default "" (text row))) in
  let body := match body with EmptyString => "(kein Text)" | _ => body end in
  "[" +:+ timestamp_text +:+ "] " +:+ sender +:+ ": " +:+ body.

(** The note appended for one attachment name. *)
Definition annotation (name : string) : string := " [Anhang: " +:+ name +:+ "]".

(** The source file [format_message] resolves for a row, when it tries. *)
Definition attempted (fs : filesystem) (row : Row)
    (attachments_dir attachments_root : option Path) (include_media : bool) : option Path :=
  match include_media, attachments_dir, attachments_root with
  | true, Some _, Some attachments_root =>
      List.find (Fs.present fs) (candidates (filename row) attachments_root)
  | _, _, _ => None
  end.

(** The first destination [format_message] tries for a resolved source. *)
Definition first_destination (attachments_dir : Path) (row : Row) (source : Path) : Path :=
  attachments_dir //
    (if Text.nonempty (transfer_name row)
     then default "" (transfer_name row)
     else Pathlib.name source).

(** A boolean test that is a total preorder. *)
Definition total_preorder {A} (le : A → A → bool) : Prop :=
  (∀ x y, le x y = true ∨ le y x = true)
  ∧ (∀ x y z, le x y = true → le y z = true → le x z = true).

(** The row the query builds from a message and the attachment joined to it. *)
Definition row_of (m : message_row) (a : option attachment_row) : Row :=
  {| message_id := m_ROWID m;
     handle_id := m_handle_id m;
     date := m_date m;
     is_from_me := m_is_from_me m;
     text := m_text m;
     cache_roomnames := m_cache_roomnames m;
     filename := a ≫= a_filename;
     transfer_name := a ≫= a_transfer_name;
     mime_type := a ≫= a_mime_type |}.

(** A message of the contact: its handle is a handle row with that id. *)
Definition of_contact (connection : connection) (handle_identifier : string)
    (m : message_row) : Prop :=
  ∃ h, h ∈ handle connection
       ∧ m_handle_id m = Some (h_ROWID h) ∧ h_id h = Some handle_identifier.

(** A character other than the carriage return. *)
Definition not_cr (c : ascii) : bool := negb (Py.code c =? 13).

(** The computation [c] leaves every existing entry as it is, except perhaps
    where [touched] holds: it neither changes nor removes one, whatever its
    outcome. *)
Definition keeps_outside {A} (touched : Path → Prop) (c : io A) : Prop :=
  ∀ fs o fs' q x,
    c fs = (o, fs') → ¬ touched q → fs !! q = Some x → fs' !! q = Some x.

(** The content of a text file made of these entries, each ended by a line
    feed.  (An entry may itself hold line feeds, those of the message.) *)
Fixpoint entries_text (entries : list string) : string :=
  match entries with
  | [] => ""
  | entry :: entries => entry +:+ LF +:+ entries_text entries
  end.

(** The transcript written without media export: the lines up to the first
    row whose date cannot be converted, and the exception raised there. *)
Fixpoint plain_transcript (handle_identifier : string) (rows : list Row)
  : string * option exn :=
  match rows with
  | [] => ("", None)
  | row :: rows =>
      match apple_timestamp_to_datetime (date row) with
      | Ok timestamp =>
          let rest := plain_transcript handle_identifier rows in
          (transcript_text timestamp row handle_identifier +:+ LF +:+ rest.1, rest.2)
      | Raise e => ("", Some e)
      end
  end.

(** The last character of a string. *)
Fixpoint last_char (s : string) : option ascii :=
  match s with
  | EmptyString => None
  | String c s' =>
      match last_char s' with
      | Some d => Some d
      | None => Some c
      end
  end.

(** The transcript and the attachments directory of a contact. *)
Definition text_path_of (output_dir : Path) (handle_identifier : string) : Path :=
  output_dir // (sanitize_filename handle_identifier +:+ ".txt").

Definition attachments_dir_of (output_dir : Path) (handle_identifier : string) : Path :=
  output_dir // (sanitize_filename handle_identifier +:+ "_attachments").

(** A regular file stands at [p]. *)
Definition is_file (fs : filesystem) (p : Path) : Prop :=
  ∃ content, fs !! p = Some (File content).

(** What a run did for the attachment of a row is written [made]:
    [Some (source, destination)] when it copied the resolved [source] to
    [destination], [None] when it made no copy. *)

(** The attachment note of an entry: the name of the copy; without a copy,
    the not-found note when the row records a file name and media export is
    on, and nothing otherwise. *)
Definition note_of (include_media : bool) (row : Row) (made : option (Path * Path))
  : string :=
  match made with
  | Some (_, destination) => annotation (Pathlib.name destination)
  | None =>
      if Text.nonempty (filename row) && include_media then annotation NOT_FOUND else ""
  end.

(** The entry of a row in the transcript: the text of the row, then its
    note. *)
Definition entry_of (handle_identifier : string) (include_media : bool) (row : Row)
    (made : option (Path * Path)) (entry : string) : Prop :=
  ∃ timestamp,
    apple_timestamp_to_datetime (date row) = Ok timestamp
    ∧ entry = transcript_text timestamp row handle_identifier
              +:+ note_of include_media row made.

(** What [made] says of a run over the rows that ended in [fs'], where
    [vacant q] tells that nothing stood at [q] when the rows were begun.
    A copy was made only with media export on and an attachments root given;
    its source is a candidate of the row; its destination is the first
    destination of the row or a numbered variant of it, and was vacant; at
    the end the destination is a file in a directory, and it holds what the
    source holds (unless the source is the transcript itself, which has
    grown since).  Where resolution was attempted and no copy was made, every
    candidate of the row was vacant. *)
Definition attachment_of (vacant : Path → Prop) (fs' : filesystem)
    (text_path attachments_dir : Path) (attachments_root : option Path)
    (include_media : bool) (row : Row) (made : option (Path * Path)) : Prop :=
  match made with
  | Some (source, destination) =>
      include_media = true
      ∧ ∃ r content,
          attachments_root = Some r
          ∧ source ∈ candidates (filename row) r
          ∧ (destination = first_destination attachments_dir row source
             ∨ ∃ k, (1 ≤ k)%nat
                    ∧ destination
                      = numbered attachments_dir
                          (first_destination attachments_dir row source) k)
          ∧ vacant destination
          ∧ fs' !! destination = Some (File content)
          ∧ fs' !! Pathlib.parent destination = Some Dir
          ∧ (source ≠ text_path → fs' !! source = Some (File content))
  | None =>
      ∀ r c, include_media = true → attachments_root = Some r →
             c ∈ candidates (filename row) r → vacant c
  end.

(** Any two copies of a run go to different paths; when a later row starts
    from the first destination of an earlier one, it gets a numbered name. *)
Definition distinct_copies (attachments_dir : Path) (rows : list Row)
    (made : list (option (Path * Path))) : Prop :=
  ∀ i j row1 row2 source1 destination1 source2 destination2,
    (i < j)%nat →
    rows !! i = Some row1 → rows !! j = Some row2 →
    made !! i = Some (Some (source1, destination1)) →
    made !! j = Some (Some (source2, destination2)) →
    destination1 ≠ destination2
    ∧ (first_destination attachments_dir row1 source1
       = first_destination attachments_dir row2 source2 →
       ∃ k, (1 ≤ k)%nat
            ∧ destination2
              = numbered attachments_dir
                  (first_destination attachments_dir row2 source2) k).

(** Nothing stood at [q] when the rows of an export were begun: nothing was
    there before the export, or overwriting was on and [q] lay in the
    attachments directory, which was removed first. *)
Definition vacant (fs : filesystem) (overwrite : bool) (attachments_dir q : Path) : Prop :=
  fs !! q = None ∨ (overwrite = true ∧ Fs.under attachments_dir q).

(** ** Sample data: a small backup, a store and two rows with one name *)

Definition sample_root : Path := Pathlib.parse "/backup".
Definition sample_output_dir : Path := Pathlib.parse "/out".
Definition sample_attachments_dir : Path := Pathlib.parse "/out/_491701234567_attachments".

Definition sample_fs : filesystem :=
  list_to_map
    [ (Pathlib.parse "/", Dir);
      (Pathlib.parse "/backup", Dir);
      (Pathlib.parse "/out", Dir);
      (Pathlib.parse "/backup/Library", Dir);
      (Pathlib.parse "/backup/Library/SMS", Dir);
      (Pathlib.parse "/backup/Library/SMS/Attachments", Dir);
      (Pathlib.parse "/backup/Library/SMS/Attachments/ab", Dir);
      (Pathlib.parse "/backup/Library/SMS/Attachments/ab/photo.jpg", File "JPEG-1");
      (Pathlib.parse "/backup/cd", Dir);
      (Pathlib.parse "/backup/cd/photo.jpg", File "JPEG-2") ].

(** The same with output of an earlier run. *)
Definition sample_fs_exported : filesystem :=
  <[Pathlib.parse "/out/_491701234567_attachments/old.jpg" := File "OLD"]>
    (<[Pathlib.parse "/out/_491701234567_attachments" := Dir]>
       (<[Pathlib.parse "/out/_491701234567.txt" := File "earlier transcript"]> sample_fs)).

Definition sample_connection : connection :=
  {| message :=
       [ Build_message_row 3 (Some 1) (VInt 700000000000000000) (VInt 0) (Some "third") None;
         Build_message_row 1 (Some 1) (VInt 700000000000000000) (VInt 1) (Some "hi") None;
         Build_message_row 2 (Some 1) (VInt 0) (VInt 0) None None;
         Build_message_row 4 (Some 2) (VInt 5) (VInt 0) (Some "other") None ];
     handle :=
       [ Build_handle_row 1 (Some "+491701234567"); Build_handle_row 2 (Some "bob") ];
     message_attachment_join :=
       [ Build_message_attachment_join_row (Some 2) (Some 10);
         Build_message_attachment_join_row (Some 3) (Some 11);
         Build_message_attachment_join_row (Some 3) (Some 12) ];
     attachment :=
       [ Build_attachment_row 10 (Some "~/Library/SMS/Attachments/ab/photo.jpg")
           (Some "photo.jpg") None;
         Build_attachment_row 11 (Some "~/Library/SMS/Attachments/cd/photo.jpg") None None;
         Build_attachment_row 12 (Some "~/Library/SMS/Attachments/zz/gone.jpg") None None ] |}.

Definition sample_row_1 : Row :=
  {| message_id := 2; handle_id := Some 1; date := VInt 0; is_from_me := VInt 0;
     text := None; cache_roomnames := None;
     filename := Some "~/Library/SMS/Attachments/ab/photo.jpg";
     transfer_name := Some "photo.jpg"; mime_type := None |}.


Definition sample_step_1 : outcome (string * list string) * filesystem :=
  format_message sample_row_1 "+491701234567" (Some sample_attachments_dir)
    (Some sample_root) true sample_fs.


(** * Properties *)

(** A computation is known by its outcome once the state is named after it. *)
Lemma outcome_with_state {A S} (run : A * S) (a : A) : run.1 = a → run = (a, run.2).
Proof. intros <-. by destruct run. Qed.

(** ** Timestamps *)

Lemma APPLE_EPOCH_micros : micros APPLE_EPOCH = 63113904000000000.
Proof. reflexivity. Qed.

Lemma of_seconds_in_range (t : Z) :
  -86399999913600 <= t <= 86399999999999 →
  Datetime.of_seconds t = Ok (mk_timedelta (t * 1000000)).
Proof.
  intros Ht. unfold Datetime.of_seconds, Datetime.normalized, Datetime.DAY.
  assert (-999999999 <= t * 1000000 / (86400 * 1000000) <= 999999999) as Hd.
  { split.
    - apply Z.div_le_lower_bound; lia.
    - apply Z.lt_succ_r, Z.div_lt_upper_bound; lia. }
  destruct (Z.gtb_spec (Z.abs (t * 1000000 / (86400 * 1000000))) 999999999); [lia | done].
Qed.

Lemma add_epoch (us : Z) :
  Datetime.add APPLE_EPOCH (mk_timedelta us) =
  if (-63113904000000000 <=? us) && (us <? 252423993600000000)
  then Ok (mk_datetime (micros APPLE_EPOCH + us)) else Raise OverflowError.
Proof.
  unfold Datetime.add. rewrite APPLE_EPOCH_micros. cbn [span].
  unfold Datetime.MAXORDINAL, Datetime.DAY.
  repeat match goal with |- context [Z.leb ?a ?b] => destruct (Z.leb_spec a b) end;
  repeat match goal with |- context [Z.ltb ?a ?b] => destruct (Z.ltb_spec a b) end;
  cbn; try reflexivity; lia.
Qed.

(** The integer branch, for every integer at most 10^12 and not zero. *)
Lemma apple_timestamp_seconds (t : Z) :
  t ≠ 0 → t <= 10 ^ 12 →
  apple_timestamp_to_datetime (VInt t) =
  delta ← Datetime.of_seconds t; Some <$> Datetime.add APPLE_EPOCH delta.
Proof.
  intros H0 Hle. unfold apple_timestamp_to_datetime. cbn [Py.int].
  destruct (Z.eqb_spec t 0); [done|].
  destruct (Z.gtb_spec t (10 ^ 12)); [lia|]. reflexivity.
Qed.

Lemma apple_timestamp_seconds_ok (t : Z) :
  t ≠ 0 → -63113904000 <= t <= 252423993599 →
  apple_timestamp_to_datetime (VInt t) =
  Ok (Some (mk_datetime (micros APPLE_EPOCH + t * 1000000))).
Proof.
  intros H0 Ht. rewrite apple_timestamp_seconds by lia.
  rewrite of_seconds_in_range by lia. cbn. rewrite add_epoch.
  destruct (Z.leb_spec (-63113904000000000) (t * 1000000)); [|lia].
  destruct (Z.ltb_spec (t * 1000000) 252423993600000000); [|lia]. reflexivity.
Qed.

Lemma apple_timestamp_seconds_overflow (t : Z) :
  t < -63113904000 ∨ 252423993599 < t <= 10 ^ 12 →
  apple_timestamp_to_datetime (VInt t) = Raise OverflowError.
Proof.
  intros Ht. rewrite apple_timestamp_seconds by lia.
  unfold Datetime.of_seconds, Datetime.normalized.
  destruct (Z.gtb_spec (Z.abs (t * 1000000 / Datetime.DAY)) 999999999); [done|].
  cbn. rewrite add_epoch.
  destruct (Z.leb_spec (-63113904000000000) (t * 1000000));
    destruct (Z.ltb_spec (t * 1000000) 252423993600000000); cbn; try reflexivity; lia.
Qed.

Lemma apple_timestamp_nanoseconds (t : Z) :
  10 ^ 12 < t →
  apple_timestamp_to_datetime (VInt t) =
  q ← Py.truediv t 1000000000;
  delta ← Datetime.of_float_seconds q;
  Some <$> Datetime.add APPLE_EPOCH delta.
Proof.
  intros Ht. unfold apple_timestamp_to_datetime. cbn [Py.int].
  destruct (Z.eqb_spec t 0); [lia|].
  destruct (Z.gtb_spec t (10 ^ 12)); [|lia].
  destruct (Py.truediv t 1000000000); reflexivity.
Qed.

Lemma apple_timestamp_via_int (v : value) (z : Z) :
  Py.int v = Ok z →
  apple_timestamp_to_datetime v = apple_timestamp_to_datetime (VInt z).
Proof.
  intros Hz. unfold apple_timestamp_to_datetime at 1.
  destruct v; try discriminate Hz; rewrite Hz; reflexivity.
Qed.

Lemma apple_timestamp_zero (v : value) :
  Py.int v = Ok 0 → apple_timestamp_to_datetime v = Ok None.
Proof. intros Hz. rewrite (apple_timestamp_via_int v 0 Hz). reflexivity. Qed.

Lemma apple_timestamp_malformed (v : value) :
  Py.int v = Raise TypeError ∨ Py.int v = Raise ValueError →
  apple_timestamp_to_datetime v = Ok None.
Proof.
  intros [H|H]; unfold apple_timestamp_to_datetime; destruct v; try reflexivity;
    rewrite H; reflexivity.
Qed.

Lemma int_of_fraction (s : bool) (m : positive) (e : Z) :
  (Qabs (Py.exact s m e) < 1)%Q →
  Py.int (VFloat (S754_finite s m e)) = Ok 0.
Proof.
  unfold Py.exact, Qlt. cbn [Py.int]. intros H.
  assert (1 <= Z.abs (if s then Z.neg m else Z.pos m)) as Hn by (destruct s; cbn; lia).
  unfold Py.trunc_finite. destruct e as [|k|k]; cbn [Qabs Qnum Qden] in H.
  - exfalso. rewrite Z.shiftl_0_r in H. lia.
  - exfalso. rewrite Z.shiftl_mul_pow2 in H by lia.
    assert (0 < 2 ^ Z.pos k) by (apply Z.pow_pos_nonneg; lia).
    rewrite Z.abs_mul, (Z.abs_eq (2 ^ Z.pos k)) in H by lia. nia.
  - rewrite Z.shiftr_div_pow2 by lia.
    rewrite Pos2Z.inj_pow in H.
    assert (Z.pos m < 2 ^ Z.pos k) as Hm by (destruct s; cbn in H; lia).
    rewrite Z.div_small by lia. destruct s; reflexivity.
Qed.

(** C1 as stated fails at 10^12 seconds, some 31688 years after the epoch;
    and a count of nanoseconds far enough above what a 64-bit integer holds
    leaves the range of [datetime] as well. *)
Lemma apple_timestamp_beyond_datetime :
  apple_timestamp_to_datetime (VInt (10 ^ 12)) = Raise OverflowError
  ∧ ¬ (∀ t, 0 < t <= 10 ^ 12 →
            apple_timestamp_to_datetime (VInt t)
            = Ok (Some (mk_datetime (micros APPLE_EPOCH + t * 1000000))))
  ∧ apple_timestamp_to_datetime (VInt (10 ^ 21)) = Raise OverflowError.
Proof.
  split; [vm_compute; reflexivity|]. split; [|vm_compute; reflexivity].
  intros H. specialize (H (10 ^ 12) ltac:(lia)). vm_compute in H. discriminate H.
Qed.

(** C10, as the code has it.  The input is classified after [int]: whenever
    [int] gives an integer, the result is the result on that integer.  A
    float strictly between -1 and 1 and not zero truncates to zero and gives
    the unknown marker.  A negative integer down to -63113904000 gives the
    epoch plus that many seconds, a time before the epoch and never the
    unknown marker; below that the sum lies before the year 1 and
    [OverflowError] is raised. *)
Theorem apple_timestamp_truncates :
  (∀ v z, Py.int v = Ok z →
          apple_timestamp_to_datetime v = apple_timestamp_to_datetime (VInt z))
  ∧ (∀ s m e, (0 < Qabs (Py.exact s m e))%Q → (Qabs (Py.exact s m e) < 1)%Q →
              Py.int (VFloat (S754_finite s m e)) = Ok 0
              ∧ apple_timestamp_to_datetime (VFloat (S754_finite s m e)) = Ok None)
  ∧ (∀ v, -63113904000 <= v < 0 →
          apple_timestamp_to_datetime (VInt v)
          = Ok (Some (mk_datetime (micros APPLE_EPOCH + v * 1000000)))
          ∧ micros APPLE_EPOCH + v * 1000000 < micros APPLE_EPOCH)
  ∧ (∀ v, v < -63113904000 →
          apple_timestamp_to_datetime (VInt v) = Raise OverflowError).
Proof.
  split; [apply apple_timestamp_via_int|].
  split; [|split].
  - intros s m e _ Hlt. pose proof (int_of_fraction s m e Hlt) as Hz.
    split; [done|]. by apply apple_timestamp_zero.
  - intros v Hv. split; [apply apple_timestamp_seconds_ok; lia | lia].
  - intros v Hv. apply apple_timestamp_seconds_overflow. lia.
Qed.

Lemma apple_timestamp_truncates_witness :
  apple_timestamp_to_datetime (VFloat (S754_finite false 1 (-1))) = Ok None
  ∧ apple_timestamp_to_datetime (VInt (-1))
    = Ok (Some (mk_datetime (micros APPLE_EPOCH + -1 * 1000000))).
Proof.
  split.
  - apply (proj1 (proj2 apple_timestamp_truncates) false 1%positive (-1));
      reflexivity.
  - apply (proj1 (proj2 (proj2 apple_timestamp_truncates)) (-1)). lia.
Defined.

(** C10 as stated fails for an integer far enough below zero. *)
Lemma apple_timestamp_before_datetime :
  apple_timestamp_to_datetime (VInt (- 10 ^ 11)) = Raise OverflowError
  ∧ ¬ (∀ v, v < 0 →
            apple_timestamp_to_datetime (VInt v)
            = Ok (Some (mk_datetime (micros APPLE_EPOCH + v * 1000000)))).
Proof.
  split; [vm_compute; reflexivity|].
  intros H. specialize (H (- 10 ^ 11) ltac:(lia)). vm_compute in H. discriminate H.
Qed.

Example apple_timestamp_nanoseconds_2023 :
  apple_timestamp_to_datetime (VInt 700000000123456789)
  = Ok (Some (mk_datetime (micros APPLE_EPOCH + 700000000123457))).
Proof. vm_compute. reflexivity. Qed.

Example apple_timestamp_text_2023 :
  Datetime.strftime_Ymd_HMS (mk_datetime (micros APPLE_EPOCH + 700000000123457))
  = "2023-03-08 20:26:40".
Proof. vm_compute. reflexivity. Qed.

Example apple_timestamp_float_seconds :
  apple_timestamp_to_datetime (VFloat (S754_finite false 3 (-1)))
  = Ok (Some (mk_datetime (micros APPLE_EPOCH + 1000000))).
Proof. vm_compute. reflexivity. Qed.

Example apple_timestamp_infinity :
  apple_timestamp_to_datetime (VFloat (S754_infinity false)) = Raise OverflowError.
Proof. reflexivity. Qed.

(** ** File names *)

Lemma app_cons (c : ascii) (s t : string) : String c s +:+ t = String c (s +:+ t).
Proof. reflexivity. Qed.

Lemma app_empty (t : string) : "" +:+ t = t.
Proof. reflexivity. Qed.

Ltac step_text :=
  rewrite ?app_cons, ?app_empty in *;
  cbn [sub_runs all_chars not_starting] in *.

Lemma allowed_underscore : allowed "_" = true.
Proof. reflexivity. Qed.

Lemma sub_runs_allowed (in_run : bool) (s : string) :
  all_chars allowed (sub_runs in_run s) = true.
Proof.
  revert in_run. induction s as [|c s IH]; intros in_run; step_text; [done|].
  destruct (allowed c) eqn:Hc; step_text.
  - by rewrite Hc, IH.
  - destruct in_run; step_text; by rewrite ?IH.
Qed.

Lemma sub_runs_empty (s : string) : sub_runs false s = "" → s = "".
Proof. destruct s as [|c s]; step_text; [done|]. by destruct (allowed c). Qed.

(** Inside a run nothing more is written until an allowed character. *)
Lemma sub_runs_skip (run rest : string) :
  all_chars (λ c, negb (allowed c)) run = true →
  sub_runs true (run +:+ rest) = sub_runs true rest.
Proof.
  induction run as [|c run IH]; step_text; [done|].
  intros [Hc Hrun]%andb_prop. apply negb_true_iff in Hc. rewrite Hc. auto.
Qed.

Lemma sub_runs_after_run (rest : string) :
  not_starting (λ c, negb (allowed c)) rest = true →
  sub_runs true rest = sub_runs false rest.
Proof.
  destruct rest as [|c rest]; step_text; [done|].
  intros Hc. apply negb_true_iff, negb_false_iff in Hc. by rewrite Hc.
Qed.

(** A maximal run of characters outside the class becomes one underscore. *)
Lemma sub_runs_run (kept run rest : string) :
  all_chars allowed kept = true →
  run ≠ "" → all_chars (λ c, negb (allowed c)) run = true →
  not_starting (λ c, negb (allowed c)) rest = true →
  sub_runs false (kept +:+ run +:+ rest) = kept +:+ "_" +:+ sub_runs false rest.
Proof.
  intros Hkept Hne Hrun Hrest.
  induction kept as [|c kept IH]; step_text.
  - destruct run as [|c run]; [done|]. step_text.
    apply andb_prop in Hrun as [Hc Hrun]. apply negb_true_iff in Hc. rewrite Hc.
    f_equal. by rewrite sub_runs_skip, sub_runs_after_run.
  - apply andb_prop in Hkept as [Hc Hkept]. rewrite Hc.
    f_equal. auto.
Qed.

Lemma sub_runs_kept (s : string) :
  all_chars allowed s = true → sub_runs false s = s.
Proof.
  induction s as [|c s IH]; step_text; [done|].
  intros [Hc Hs]%andb_prop. rewrite Hc. f_equal. auto.
Qed.

Lemma all_chars_weaken (P Q : ascii → bool) (s : string) :
  (∀ c, P c = true → Q c = true) → all_chars P s = true → all_chars Q s = true.
Proof.
  intros HPQ. induction s as [|c s IH]; step_text; [done|].
  intros [Hc Hs]%andb_prop. by rewrite (HPQ c Hc), IH.
Qed.

Lemma sanitize_filename_allowed (handle : string) :
  all_chars allowed (sanitize_filename handle) = true.
Proof.
  unfold sanitize_filename.
  pose proof (sub_runs_allowed false (Py.strip Py.isspace handle)) as H.
  destruct (sub_runs false (Py.strip Py.isspace handle)); [reflexivity | exact H].
Qed.

Lemma sanitize_filename_nonempty (handle : string) : sanitize_filename handle ≠ "".
Proof.
  unfold sanitize_filename.
  destruct (sub_runs false (Py.strip Py.isspace handle)); done.
Qed.

Lemma allowed_no_sep (s : string) : all_chars allowed s = true → Text.has_sep s = false.
Proof.
  induction s as [|c s IH]; cbn [all_chars Text.has_sep]; [done|].
  intros [Hc Hs]%andb_prop. rewrite IH by done.
  unfold Text.is_sep. destruct (Z.eqb_spec (Py.code c) 47) as [E|]; [|done].
  exfalso. unfold allowed, word_char, Py.isalnum, Py.within in Hc. rewrite E in Hc.
  discriminate Hc.
Qed.

(** C4, as the code has it: leading and trailing whitespace is dropped, every
    maximal run of characters outside letters, digits, underscore, period and
    hyphen becomes a single underscore while the other characters are kept,
    the result holds only characters of that set and is never empty, and
    ["contact"] is returned when nothing is left to sanitize. *)
Theorem sanitize_filename_runs (handle : string) :
  all_chars allowed (sanitize_filename handle) = true
  ∧ sanitize_filename handle ≠ ""
  ∧ (Py.strip Py.isspace handle = "" → sanitize_filename handle = "contact")
  ∧ (all_chars allowed (Py.strip Py.isspace handle) = true →
     Py.strip Py.isspace handle ≠ "" →
     sanitize_filename handle = Py.strip Py.isspace handle)
  ∧ (∀ kept run rest : string,
       Py.strip Py.isspace handle = kept +:+ run +:+ rest →
       all_chars allowed kept = true →
       run ≠ "" → all_chars (λ c, negb (allowed c)) run = true →
       not_starting (λ c, negb (allowed c)) rest = true →
       sanitize_filename handle = kept +:+ "_" +:+ sub_runs false rest).
Proof.
  split; [apply sanitize_filename_allowed|].
  split; [apply sanitize_filename_nonempty|].
  split; [|split].
  - unfold sanitize_filename. by intros ->.
  - intros Hall Hne. unfold sanitize_filename. rewrite sub_runs_kept by done.
    by destruct (Py.strip Py.isspace handle).
  - intros kept run rest Heq Hkept Hne Hrun Hrest. unfold sanitize_filename.
    rewrite Heq, sub_runs_run by done.
    destruct kept; reflexivity.
Qed.

Lemma sanitize_filename_runs_witness :
  sanitize_filename "  Max  Mustermann " = "Max_Mustermann".
Proof.
  exact (proj2 (proj2 (proj2 (proj2 (sanitize_filename_runs "  Max  Mustermann "))))
           "Max" "  " "Mustermann" eq_refl eq_refl ltac:(discriminate) eq_refl eq_refl).
Defined.

(** C4 as stated fails: two adjacent characters outside the class yield one
    underscore, not two, and surrounding blanks yield none. *)
Lemma sanitize_filename_not_one_for_one :
  sanitize_filename "a  b" = "a_b"
  ∧ sanitize_as_specified "a  b" = "a__b"
  ∧ ¬ (∀ handle, sanitize_filename handle = sanitize_as_specified handle).
Proof.
  split; [reflexivity|]. split; [reflexivity|].
  intros H. specialize (H "a  b"). discriminate H.
Qed.

(** ** Attachment paths *)

Lemma strip_prefix_Some (p s r : string) :
  Text.strip_prefix p s = Some r ↔ s = p +:+ r.
Proof.
  revert s. induction p as [|a p IH]; intros s; cbn [Text.strip_prefix].
  - rewrite app_empty. split; congruence.
  - destruct s as [|b s]; rewrite app_cons; [split; discriminate|].
    destruct (Ascii.eqb_spec a b) as [->|Hab].
    + rewrite IH. split; congruence.
    + split; [discriminate | congruence].
Qed.

(** The search finds the marker exactly when it occurs; the group is the
    rest of the line after its leftmost occurrence. *)
Lemma ATTACHMENT_ANCHOR_search_Some (s group1 : string) :
  ATTACHMENT_ANCHOR_search s = Some group1 →
  ∃ before rest,
    s = before +:+ "Library/SMS/Attachments/" +:+ rest
    ∧ group1 = Text.dot_star rest
    ∧ ∀ b r, s = b +:+ "Library/SMS/Attachments/" +:+ r →
             (String.length before ≤ String.length b)%nat.
Proof.
  revert group1. induction s as [|c s IH]; intros group1; cbn [ATTACHMENT_ANCHOR_search].
  - destruct (Text.strip_prefix _ EmptyString) eqn:E; [|discriminate].
    apply strip_prefix_Some in E. discriminate E.
  - destruct (Text.strip_prefix _ (String c s)) as [rest|] eqn:E.
    + intros [= <-]. apply strip_prefix_Some in E. exists EmptyString, rest.
      rewrite app_empty. split; [done|]. split; [done|]. intros b r _. cbn. lia.
    + intros (before & rest & -> & -> & Hleft)%IH. exists (String c before), rest.
      rewrite (app_cons c before). split; [done|]. split; [done|].
      intros [|c' b] r.
      * rewrite app_empty. intros Heq.
        apply (proj2 (strip_prefix_Some "Library/SMS/Attachments/" _ r)) in Heq.
        congruence.
      * rewrite (app_cons c' b). intros [= -> Hs]. cbn [String.length].
        apply le_n_S. by apply (Hleft b r).
Qed.

Lemma ATTACHMENT_ANCHOR_search_None (s : string) :
  ATTACHMENT_ANCHOR_search s = None →
  ∀ before rest, s ≠ before +:+ "Library/SMS/Attachments/" +:+ rest.
Proof.
  induction s as [|c s IH]; cbn [ATTACHMENT_ANCHOR_search].
  - intros _ [|b before] rest; [rewrite app_empty | rewrite (app_cons b before)];
      discriminate.
  - destruct (Text.strip_prefix _ (String c s)) as [r|] eqn:E; [discriminate|].
    intros Hs [|b before] rest.
    + rewrite app_empty. intros Heq.
      apply (proj2 (strip_prefix_Some "Library/SMS/Attachments/" _ rest)) in Heq.
      congruence.
    + rewrite (app_cons b before). intros [= -> ->]. by apply (IH Hs before rest).
Qed.

Lemma resolve_attachment_path_find (raw_path : option string) (attachments_root : Path)
    (fs : filesystem) :
  resolve_attachment_path raw_path attachments_root fs =
  (Ok (List.find (Fs.present fs) (candidates raw_path attachments_root)), fs).
Proof.
  unfold resolve_attachment_path, candidates.
  destruct raw_path as [[|c s]|]; try reflexivity.
  cbn -[ATTACHMENT_ANCHOR_search Pathlib.join Pathlib.parse].
  destruct (ATTACHMENT_ANCHOR_search (String c s)) as [group1|]; [|reflexivity].
  cbn [List.find]. unfold mbind, io_bind, Fs.exists_, mret, io_ret.
  destruct (Fs.present fs _); [reflexivity|].
  destruct (Fs.present fs _); reflexivity.
Qed.

(** C2, as the code has it.  Whenever the resolver returns, it has left the
    file system alone and its result is the first existing path of
    [candidates]; and it does return that when the candidates are paths the
    operating system accepts.  Without a recorded fragment, or when the
    fragment does not contain [Library/SMS/Attachments/], there is no
    candidate at all and the result is not-found.  Otherwise the group is the
    rest of the line after the leftmost marker, and the candidates are
    root/Library/SMS/Attachments/group and then root/group. *)
Theorem resolve_attachment_path_first_existing (raw_path : option string)
    (attachments_root : Path) (fs : filesystem) :
  (∀ result fs',
     resolve_attachment_path raw_path attachments_root fs = (Ok result, fs') →
     fs' = fs
     ∧ result = List.find (Fs.present fs) (candidates raw_path attachments_root))
  ∧ (forallb Fs.within_limits (candidates raw_path attachments_root) = true →
     resolve_attachment_path raw_path attachments_root fs
     = (Ok (List.find (Fs.present fs) (candidates raw_path attachments_root)), fs))
  ∧ (raw_path = None → candidates raw_path attachments_root = [])
  ∧ (∀ s, raw_path = Some s →
          (∀ before rest, s ≠ before +:+ "Library/SMS/Attachments/" +:+ rest) →
          candidates raw_path attachments_root = [])
  ∧ (∀ s before rest,
       raw_path = Some s → s = before +:+ "Library/SMS/Attachments/" +:+ rest →
       ∃ before' rest',
         s = before' +:+ "Library/SMS/Attachments/" +:+ rest'
         ∧ (String.length before' ≤ String.length before)%nat
         ∧ candidates raw_path attachments_root
           = [ Pathlib.join (attachments_root // "Library" // "SMS" // "Attachments")
                 (Pathlib.parse (Text.dot_star rest'));
               Pathlib.join attachments_root (Pathlib.parse (Text.dot_star rest')) ]).
Proof.
  split; [intros result fs'; rewrite resolve_attachment_path_find; by intros [= <- <-]|].
  split; [intros _; apply resolve_attachment_path_find|].
  split; [by intros ->|]. split.
  - intros s -> Hno. unfold candidates. cbn [mbind option_bind].
    destruct (ATTACHMENT_ANCHOR_search s) as [group1|] eqn:E; [|done].
    apply ATTACHMENT_ANCHOR_search_Some in E as (before & rest & -> & _).
    by destruct (Hno before rest).
  - intros s before rest -> Hs. unfold candidates. cbn [mbind option_bind].
    destruct (ATTACHMENT_ANCHOR_search s) as [group1|] eqn:E.
    + apply ATTACHMENT_ANCHOR_search_Some in E as (before' & rest' & Hs' & -> & Hleft).
      exists before', rest'. split; [done|]. split; [|done].
      by apply (Hleft before rest).
    + by destruct (ATTACHMENT_ANCHOR_search_None _ E before rest).
Qed.

Lemma resolve_attachment_path_first_existing_witness :
  resolve_attachment_path (Some "~/Library/SMS/Attachments/cd/photo.jpg") sample_root
    sample_fs
  = (Ok (Some (Pathlib.parse "/backup/cd/photo.jpg")), sample_fs).
Proof.
  etrans;
    [apply (proj1 (proj2 (resolve_attachment_path_first_existing
                            (Some "~/Library/SMS/Attachments/cd/photo.jpg") sample_root
                            sample_fs)))|].
  - vm_compute. reflexivity.
  - do 2 f_equal; try (vm_compute; reflexivity).
Defined.

(** C2 as stated fails on a fragment without the marker: the fallback the
    specification describes, with nothing as the remainder, is the root
    itself, which exists, and yet the resolver answers not-found. *)
Lemma resolve_attachment_path_no_fallback_without_marker :
  resolve_attachment_path (Some "IMG_0001.jpg") sample_root sample_fs = (Ok None, sample_fs)
  ∧ List.find (Fs.present sample_fs)
      (candidates_as_specified (Some "IMG_0001.jpg") sample_root)
    = Some sample_root
  ∧ ¬ (∀ raw_path attachments_root fs,
         resolve_attachment_path raw_path attachments_root fs
         = (Ok (List.find (Fs.present fs)
                  (candidates_as_specified raw_path attachments_root)), fs)).
Proof.
  split; [|split].
  - rewrite resolve_attachment_path_find. do 2 f_equal; try (vm_compute; reflexivity).
  - vm_compute. reflexivity.
  - intros H. specialize (H (Some "IMG_0001.jpg") sample_root sample_fs).
    apply (f_equal fst) in H. vm_compute in H. discriminate H.
Qed.

(** ** Paths *)

Lemma has_sep_app (a b : string) :
  Text.has_sep (a +:+ b) = Text.has_sep a || Text.has_sep b.
Proof.
  induction a as [|c a IH]; [done|].
  rewrite app_cons. cbn [Text.has_sep]. by rewrite IH, orb_assoc.
Qed.

Lemma split_sep_single (s : string) :
  Text.has_sep s = false → Text.split_sep s = [s].
Proof.
  induction s as [|c s IH]; cbn [Text.has_sep Text.split_sep]; [done|].
  intros [Hc Hs]%orb_false_elim. by rewrite Hc, IH.
Qed.




Lemma parse_root_relative (s : string) :
  Text.has_sep s = false → Pathlib.parse_root s = Relative.
Proof.
  destruct s as [|a [|b s]]; cbn [Text.has_sep Pathlib.parse_root]; [done|..].
  - by intros [-> _]%orb_false_elim.
  - by intros [-> _]%orb_false_elim.
Qed.

(** A plain file name parses to itself. *)
Lemma parse_single (s : string) :
  Text.has_sep s = false → Pathlib.kept s = true →
  Pathlib.parse s = mk_path Relative [s].
Proof.
  intros Hs Hk. unfold Pathlib.parse.
  rewrite parse_root_relative, split_sep_single by done.
  cbn [List.filter]. by rewrite Hk.
Qed.

Lemma join_single (p : Path) (s : string) :
  Text.has_sep s = false → Pathlib.kept s = true →
  p // s = mk_path (root p) (parts p ++ [s]).
Proof. intros Hs Hk. by rewrite parse_single. Qed.








Lemma kept_marked (base rest : string) :
  Pathlib.kept (base +:+ String "_" rest) = true.
Proof.
  destruct base as [|c [|d base]]; rewrite ?app_cons, ?app_empty;
    unfold Pathlib.kept; cbn [String.eqb negb andb];
    [reflexivity | by destruct (Ascii.eqb c ".")..].
Qed.

Lemma app_length (a b : string) :
  String.length (a +:+ b) = (String.length a + String.length b)%nat.
Proof. induction a as [|c a IH]; [done|]. rewrite app_cons. cbn. by rewrite IH. Qed.

Lemma app_inj_r (a b c : string) : a +:+ c = b +:+ c → a = b.
Proof.
  intros H. assert (String.length a = String.length b) as Hlen.
  { apply (f_equal String.length) in H. rewrite !app_length in H. lia. }
  revert b H Hlen. induction a as [|x a IH]; intros [|y b]; try done.
  rewrite !app_cons. intros [= -> H] [= Hlen]. f_equal. auto.
Qed.



(** ** The collision loop *)

Lemma next_free_S (fuel : nat) (fs : filesystem) (attachments_dir : Path)
    (base_name suffix_str : string) (destination : Path) (suffix : nat) :
  next_free (S fuel) fs attachments_dir base_name suffix_str destination suffix =
  if Fs.present fs destination then
    next_free fuel fs attachments_dir base_name suffix_str
      (attachments_dir // (base_name +:+ "_" +:+ pretty suffix +:+ suffix_str))
      (suffix + 1)
  else Some destination.
Proof. reflexivity. Qed.

Lemma next_free_sound (fuel : nat) (fs : filesystem) (attachments_dir d0 d r : Path)
    (k : nat) :
  next_free fuel fs attachments_dir (Pathlib.stem d0) (Pathlib.suffix d0) d k = Some r →
  Fs.present fs r = false
  ∧ (r = d
     ∨ Fs.present fs d = true
       ∧ ∃ j, (k ≤ j)%nat ∧ r = numbered attachments_dir d0 j
              ∧ ∀ i, (k ≤ i < j)%nat → Fs.present fs (numbered attachments_dir d0 i) = true).
Proof.
  revert d k. induction fuel as [|fuel IH]; intros d k; [done|].
  rewrite next_free_S. destruct (Fs.present fs d) eqn:Hd.
  - intros [Hr Hcase]%IH. split; [done|]. right. split; [done|].
    destruct Hcase as [->|[Hk (j & Hj & -> & Hbelow)]].
    + exists k. split; [lia|]. split; [done|]. intros i Hi. lia.
    + exists j. split; [lia|]. split; [done|]. intros i Hi.
      destruct (decide (i = k)) as [->|]; [exact Hk|]. apply Hbelow. lia.
  - intros [= <-]. auto.
Qed.




Lemma free_destination_inv (attachments_dir destination r : Path) (fs fs' : filesystem) :
  free_destination attachments_dir destination fs = (Ok r, fs') →
  fs' = fs ∧ Fs.present fs r = false
  ∧ (r = destination
     ∨ Fs.present fs destination = true
       ∧ ∃ j, (1 ≤ j)%nat ∧ r = numbered attachments_dir destination j).
Proof.
  unfold free_destination.
  destruct (next_free _ _ _ _ _ _ _) as [r'|] eqn:Hr; [|done].
  intros [= -> <-]. split; [done|].
  apply next_free_sound in Hr as [Hnew [Hsame|[Hold (j & Hj & Hr & _)]]].
  - split; [done|]. by left.
  - split; [done|]. right. split; [done|]. by exists j.
Qed.

(** ** The file system *)

Lemma make_dirs_frame (fs fs' : filesystem) (r : anchor) (rev_parts : list string) (q : Path) :
  Fs.make_dirs fs r rev_parts = Ok fs' →
  fs !! mk_path r (rev rev_parts) = None →
  fs' !! q = fs !! q
  ∨ (fs !! q = None ∧ fs' !! q = Some Dir ∧ Fs.under q (mk_path r (rev rev_parts))).
Proof.
  revert fs'. induction rev_parts as [|x up IH]; intros fs'; cbn [Fs.make_dirs]; [done|].
  assert (Fs.under (mk_path r (rev up)) (mk_path r (rev (x :: up)))) as Hup.
  { split; [done|]. cbn [parts rev]. by apply prefix_app_r. }
  destruct (fs !! mk_path r (rev up)) as [[c|]|] eqn:Hparent; [done|..].
  - intros [= <-] Hnone. destruct (decide (q = mk_path r (rev (x :: up)))) as [->|Hq].
    + right. rewrite lookup_insert_eq. by repeat split.
    + left. by rewrite lookup_insert_ne.
  - destruct (Fs.make_dirs fs r up) as [fs1|e] eqn:Hrec; cbn; [|done].
    intros [= <-] Hnone. destruct (decide (q = mk_path r (rev (x :: up)))) as [->|Hq].
    + right. rewrite lookup_insert_eq. by repeat split.
    + rewrite lookup_insert_ne by done.
      destruct (IH fs1 eq_refl eq_refl) as [?|(?&?&[Hr Hpre])]; [by left|right].
      repeat split; [done..|]. destruct Hup as [_ Hup]. by etrans.
Qed.

Lemma mkdir_parents_frame (p q : Path) (fs fs' : filesystem) (o : outcome unit) :
  Fs.mkdir_parents p fs = (o, fs') →
  fs' !! q = fs !! q
  ∨ (o = Ok () ∧ fs !! q = None ∧ fs' !! q = Some Dir ∧ Fs.under q p).
Proof.
  unfold Fs.mkdir_parents. destruct (fs !! p) as [[c|]|] eqn:Hp; try (intros [= <- <-]; by left).
  destruct (Fs.make_dirs fs (root p) (rev (parts p))) as [fs1|e] eqn:Hmk;
    intros [= <- <-]; [|by left].
  assert (mk_path (root p) (rev (rev (parts p))) = p) as Hpp.
  { rewrite rev_involutive. by destruct p. }
  destruct (make_dirs_frame fs fs1 (root p) (rev (parts p)) q Hmk) as [?|(?&?&?)].
  - by rewrite Hpp.
  - by left.
  - right. rewrite Hpp in *. done.
Qed.

Lemma mkdir_parents_failure (p : Path) (fs fs' : filesystem) (e : exn) :
  Fs.mkdir_parents p fs = (Raise e, fs') → fs' = fs.
Proof.
  unfold Fs.mkdir_parents. destruct (fs !! p) as [[c|]|]; try by intros [= <-].
  destruct (Fs.make_dirs _ _ _); by intros [= <-].
Qed.

Lemma mkdir_parents_existing (p : Path) (fs : filesystem) :
  fs !! p = Some Dir → Fs.mkdir_parents p fs = (Ok (), fs).
Proof. unfold Fs.mkdir_parents. by intros ->. Qed.

(** What exists stays, unchanged. *)
Lemma mkdir_parents_keeps (p q : Path) (fs fs' : filesystem) (o : outcome unit) (x : entry) :
  Fs.mkdir_parents p fs = (o, fs') → fs !! q = Some x → fs' !! q = Some x.
Proof.
  intros H Hq. destruct (mkdir_parents_frame p q fs fs' o H) as [->|(?&?&?)]; congruence.
Qed.

Lemma cleared_lookup (d q : Path) (fs : filesystem) :
  Fs.cleared d fs !! q = if decide (Fs.under d q) then None else fs !! q.
Proof.
  unfold Fs.cleared. destruct (decide (Fs.under d q)) as [Hu|Hu].
  - apply map_lookup_filter_None. right. intros x _. cbn. auto.
  - destruct (fs !! q) as [x|] eqn:Hq.
    + apply map_lookup_filter_Some. by split.
    + apply map_lookup_filter_None. by left.
Qed.

Lemma rmtree_removes (d q : Path) (fs fs' : filesystem) :
  Fs.rmtree d fs = (Ok (), fs') →
  fs !! d = Some Dir
  ∧ fs' !! q = if decide (Fs.under d q) then None else fs !! q.
Proof.
  unfold Fs.rmtree. destruct (fs !! d) as [[c|]|] eqn:Hd; try done.
  intros [= <-]. split; [done|]. apply cleared_lookup.
Qed.

Lemma rmtree_cleared (d : Path) (fs : filesystem) :
  fs !! d = Some Dir → Fs.rmtree d fs = (Ok (), Fs.cleared d fs).
Proof. unfold Fs.rmtree. by intros ->. Qed.

Lemma copy2_fresh (src dst : Path) (fs fs' : filesystem) :
  Fs.present fs dst = false →
  Fs.copy2 src dst fs = (Ok (), fs') →
  ∃ content, fs !! src = Some (File content) ∧ fs' = <[dst := File content]> fs.
Proof.
  unfold Fs.present, Fs.copy2. destruct (fs !! dst) eqn:Hdst; [done|]. intros _.
  case_decide; [done|].
  destruct (fs !! src) as [[content|]|]; try done.
  destruct (Fs.writable fs dst); [|done]. intros [= <-]. eauto.
Qed.

Lemma copy2_failure (src dst : Path) (fs fs' : filesystem) (e : exn) :
  Fs.copy2 src dst fs = (Raise e, fs') → fs' = fs.
Proof.
  unfold Fs.copy2. case_decide; [by intros [= <-]|].
  destruct (fs !! src) as [[content|]|]; try by intros [= <-].
  destruct (Fs.writable _ _); by intros [= <-].
Qed.

(** ** Formatting one row *)

Lemma app_assoc_text (a b c : string) : (a +:+ b) +:+ c = a +:+ b +:+ c.
Proof. induction a as [|x a IH]; [done|]. rewrite !app_cons. by rewrite IH. Qed.

Lemma app_empty_r (a : string) : a +:+ "" = a.
Proof. induction a as [|x a IH]; [done|]. rewrite app_cons. by rewrite IH. Qed.

Ltac finish_line :=
  unfold transcript_text, annotation; cbv zeta;
  cbn [Text.join fmap list_fmap];
  rewrite ?app_assoc_text, ?app_empty_r; reflexivity.

Lemma candidates_recorded (raw_path : option string) (attachments_root p : Path) :
  p ∈ candidates raw_path attachments_root → Text.nonempty raw_path = true.
Proof.
  unfold candidates. destruct raw_path as [[|c s]|]; cbn; try done.
  - intros H. by apply not_elem_of_nil in H.
  - intros H. by apply not_elem_of_nil in H.
Qed.

Lemma attempted_recorded (fs : filesystem) (row : Row) (dir root : option Path)
    (media : bool) (src : Path) :
  attempted fs row dir root media = Some src →
  Text.nonempty (filename row) = true ∧ media = true ∧ Fs.present fs src = true
  ∧ ∃ d r, dir = Some d ∧ root = Some r ∧ src ∈ candidates (filename row) r.
Proof.
  unfold attempted. destruct media, dir as [d|], root as [r|]; try done.
  intros [Hin Hp]%List.find_some. apply list_elem_of_In in Hin.
  split; [by eapply candidates_recorded|]. split; [done|]. split; [done|].
  by exists d, r.
Qed.

Lemma format_message_inv (row : Row) (h : string) (dir root : option Path) (media : bool)
    (fs fs' : filesystem) (line : string) (atts : list string) :
  format_message row h dir root media fs = (Ok (line, atts), fs') →
  ∃ timestamp,
    apple_timestamp_to_datetime (date row) = Ok timestamp
    ∧ match attempted fs row dir root media with
      | Some src =>
          ∃ d fs1 destination content,
            dir = Some d
            ∧ Fs.mkdir_parents d fs = (Ok (), fs1)
            ∧ free_destination d (first_destination d row src) fs1 = (Ok destination, fs1)
            ∧ fs1 !! destination = None
            ∧ fs1 !! src = Some (File content)
            ∧ fs' = <[destination := File content]> fs1
            ∧ atts = [Pathlib.name destination]
            ∧ line = transcript_text timestamp row h +:+ annotation (Pathlib.name destination)
      | None =>
          fs' = fs
          ∧ if Text.nonempty (filename row) && media
            then atts = [NOT_FOUND]
                 ∧ line = transcript_text timestamp row h +:+ annotation NOT_FOUND
            else atts = [] ∧ line = transcript_text timestamp row h
      end.
Proof.
  unfold format_message, attempted.
  unfold mbind at 1, io_bind at 1, lift.
  destruct (apple_timestamp_to_datetime (date row)) as [timestamp|e]; [|done].
  intros H. exists timestamp. split; [done|]. revert H.
  assert (match media, dir, root with
          | true, Some _, Some r => False
          | _, _, _ => True
          end ∨ ∃ d r, media = true ∧ dir = Some d ∧ root = Some r) as [Hskip|(d&r&->&->&->)].
  { destruct media, dir as [d|], root as [r|]; try (left; exact I).
    right. by exists d, r. }
  - unfold mbind, io_bind.
    destruct media, dir as [d|], root as [r|]; try done;
      cbn -[transcript_text Text.join String.append];
      rewrite ?andb_true_r, ?andb_false_r;
      destruct (Text.nonempty (filename row));
      cbn -[transcript_text Text.join String.append];
      intros [= <- <- <-]; (split; [done|]); split; try done; finish_line.
  - unfold mbind at 1, io_bind at 1. unfold mbind at 1, io_bind at 1.
    rewrite resolve_attachment_path_find.
    destruct (List.find (Fs.present fs) (candidates (filename row) r)) as [src|] eqn:Hfind.
    + unfold mbind at 1, io_bind at 1.
      destruct (Fs.mkdir_parents d fs) as [[[]|e] fs1] eqn:Hmk; [|done].
      unfold mbind at 1, io_bind at 1.
      change (d // (if Text.nonempty (transfer_name row)
                    then default "" (transfer_name row)
                    else Pathlib.name src)) with (first_destination d row src).
      destruct (free_destination d (first_destination d row src) fs1)
        as [[destination|e] fs2] eqn:Hfree; [|done].
      apply free_destination_inv in Hfree as Hinv. destruct Hinv as (-> & Hfresh & _).
      unfold mbind at 1, io_bind at 1.
      destruct (Fs.copy2 src destination fs1) as [[[]|e] fs3] eqn:Hcopy; [|done].
      apply copy2_fresh in Hcopy as (content & Hsrc & ->); [|done].
      cbn -[transcript_text Text.join String.append].
      assert (Text.nonempty (filename row) = true) as ->.
      { apply List.find_some in Hfind as [Hin _]. apply list_elem_of_In in Hin.
        by eapply candidates_recorded. }
      cbn -[transcript_text Text.join String.append].
      intros [= <- <- <-]. exists d, fs1, destination, content.
      repeat split; try done.
      * unfold Fs.present in Hfresh. by destruct (fs1 !! destination).
      * finish_line.
    + cbn -[transcript_text Text.join String.append].
      rewrite andb_true_r. destruct (Text.nonempty (filename row));
        cbn -[transcript_text Text.join String.append];
        intros [= <- <- <-]; (split; [done|]); split; try done; finish_line.
Qed.





(** ** Numbered names *)








(** ** The order of the fetched rows *)

Lemma lex_total_preorder {A B} (leA : A → A → bool) (leB : B → B → bool) :
  total_preorder leA → total_preorder leB → total_preorder (Sql.lex leA leB).
Proof.
  intros [HtA HrA] [HtB HrB]. split.
  - intros [a1 b1] [a2 b2]. unfold Sql.lex. cbn [fst snd].
    destruct (leA a1 a2) eqn:H12, (leA a2 a1) eqn:H21; cbn; auto.
    destruct (HtA a1 a2); congruence.
  - intros [a1 b1] [a2 b2] [a3 b3]. unfold Sql.lex. cbn [fst snd].
    intros [H12 H12']%andb_prop [H23 H23']%andb_prop.
    rewrite (HrA _ _ _ H12 H23). cbn [andb].
    destruct (leA a3 a1) eqn:H31; [|done]. cbn [negb orb].
    rewrite (HrA _ _ _ H23 H31) in H12'. rewrite (HrA _ _ _ H31 H12) in H23'.
    cbn in H12', H23'. eauto.
Qed.

Lemma Z_leb_total_preorder : total_preorder Z.leb.
Proof. split; intros; rewrite ?Z.leb_le in *; lia. Qed.

Lemma Qle_bool_total_preorder : total_preorder Qle_bool.
Proof.
  split.
  - intros x y. rewrite !Qle_bool_iff. destruct (Qlt_le_dec x y); auto using Qlt_le_weak.
  - intros x y z. rewrite !Qle_bool_iff. apply Qle_trans.
Qed.

Lemma String_leb_total_preorder : total_preorder String.leb.
Proof.
  split.
  - apply String.leb_total.
  - intros x y z Hxy%Is_true_true Hyz%Is_true_true. apply Is_true_true.
    by trans y.
Qed.

Lemma Sql_leb_total_preorder : total_preorder Sql.leb.
Proof.
  pose proof (lex_total_preorder _ _ Z_leb_total_preorder
                (lex_total_preorder _ _
                   (lex_total_preorder _ _ Z_leb_total_preorder Qle_bool_total_preorder)
                   String_leb_total_preorder)) as [Ht Hr].
  split.
  - intros x y. apply Ht.
  - intros x y z. apply Hr.
Qed.

Lemma row_leb_total_preorder : total_preorder row_leb.
Proof.
  pose proof (lex_total_preorder _ _ Sql_leb_total_preorder Z_leb_total_preorder)
    as [Ht Hr].
  split.
  - intros x y. apply Ht.
  - intros x y z. apply Hr.
Qed.

#[local] Instance row_le_total : Total row_le.
Proof.
  intros x y. unfold row_le.
  destruct (proj1 row_leb_total_preorder x y) as [->| ->]; auto.
Qed.

#[local] Instance row_le_transitive : Transitive row_le.
Proof.
  intros x y z Hxy%Is_true_true Hyz%Is_true_true. apply Is_true_true.
  by apply (proj2 row_leb_total_preorder x y z).
Qed.

Lemma StronglySorted_lookup_lt {A} (R : relation A) (l : list A) (i j : nat) (x y : A) :
  StronglySorted R l → (i < j)%nat → l !! i = Some x → l !! j = Some y → R x y.
Proof.
  intros Hl. revert i j. induction Hl as [|a l Hl IH Ha]; intros i j Hij Hi Hj; [done|].
  destruct j as [|j]; [lia|]. cbn in Hj. destruct i as [|i].
  - injection Hi as <-. apply (proj1 (List.Forall_forall _ _) Ha).
    apply list_elem_of_In. by eapply list_elem_of_lookup_2.
  - cbn in Hi. apply (IH i j); [lia|done..].
Qed.

Lemma Sql_leb_int (a b : Z) : Sql.leb (VInt a) (VInt b) = true ↔ a <= b.
Proof.
  unfold Sql.leb, Sql.lex. cbn [Sql.sort_key fst snd].
  rewrite !Z.leb_refl. cbn [andb negb orb].
  change (String.leb "" "") with true. rewrite !orb_true_r, !andb_true_r.
  rewrite Qle_bool_iff. unfold Qle. cbn [Qnum Qden]. lia.
Qed.

(** C8: the rows come back ordered by [date] and then by [ROWID], in the
    order of [ORDER BY] (NULL first, then numbers by value, then text): the
    list is sorted, it holds exactly the rows of the join, a row never stands
    before one with a smaller timestamp, rows whose timestamps tie (also at
    zero or NULL) stand in ascending message id, and on integer timestamps
    the order is the order of the integers. *)
Theorem fetch_messages_ordered (connection : connection) (handle_identifier : string) :
  StronglySorted row_le (fetch_messages connection handle_identifier)
  ∧ fetch_messages connection handle_identifier ≡ₚ joined_rows connection handle_identifier
  ∧ ∀ (i j : nat) (r1 r2 : Row),
      (i < j)%nat →
      fetch_messages connection handle_identifier !! i = Some r1 →
      fetch_messages connection handle_identifier !! j = Some r2 →
      Sql.leb (date r1) (date r2) = true
      ∧ (Sql.leb (date r2) (date r1) = true → message_id r1 <= message_id r2)
      ∧ (∀ a b, date r1 = VInt a → date r2 = VInt b → a <= b).
Proof.
  assert (StronglySorted row_le (fetch_messages connection handle_identifier)) as Hs.
  { unfold fetch_messages. apply (StronglySorted_merge_sort row_le). }
  split; [exact Hs|]. split; [apply merge_sort_Permutation|].
  intros i j r1 r2 Hij H1 H2.
  pose proof (StronglySorted_lookup_lt _ _ i j r1 r2 Hs Hij H1 H2) as Hle.
  apply Is_true_true in Hle. unfold row_leb, Sql.lex in Hle. cbn [fst snd] in Hle.
  apply andb_prop in Hle as [Hd Htie]. split; [done|]. split.
  - intros Hback. rewrite Hback in Htie. by apply Z.leb_le.
  - intros a b Ha Hb. rewrite Ha, Hb in Hd. by apply Sql_leb_int.
Qed.

Lemma fetch_messages_ordered_witness :
  Sql.leb (VInt 0) (VInt 700000000000000000) = true
  ∧ (Sql.leb (VInt 700000000000000000) (VInt 0) = true → 2 <= 1)
  ∧ (∀ a b, VInt 0 = VInt a → VInt 700000000000000000 = VInt b → a <= b).
Proof.
  exact (proj2 (proj2 (fetch_messages_ordered sample_connection "+491701234567"))
           0%nat 1%nat
           {| message_id := 2; handle_id := Some 1; date := VInt 0; is_from_me := VInt 0;
              text := None; cache_roomnames := None;
              filename := Some "~/Library/SMS/Attachments/ab/photo.jpg";
              transfer_name := Some "photo.jpg"; mime_type := None |}
           {| message_id := 1; handle_id := Some 1; date := VInt 700000000000000000;
              is_from_me := VInt 1; text := Some "hi"; cache_roomnames := None;
              filename := None; transfer_name := None; mime_type := None |}
           ltac:(lia) ltac:(vm_compute; reflexivity) ltac:(vm_compute; reflexivity)).
Defined.

Example fetch_messages_sample :
  (λ r, (message_id r, date r)) <$> fetch_messages sample_connection "+491701234567"
  = [ (2, VInt 0); (1, VInt 700000000000000000); (3, VInt 700000000000000000);
      (3, VInt 700000000000000000) ].
Proof. vm_compute. reflexivity. Qed.

(** ** Exporting one contact *)

Lemma kept_long (c : ascii) (s : string) : s ≠ "" → Pathlib.kept (String c s) = true.
Proof.
  intros Hs. unfold Pathlib.kept. cbn [String.eqb negb andb].
  destruct (Ascii.eqb c "."); [|done]. destruct s; done.
Qed.

Lemma text_path_parts (output_dir : Path) (handle_identifier : string) :
  output_dir // (sanitize_filename handle_identifier +:+ ".txt")
  = mk_path (root output_dir)
      (parts output_dir ++ [sanitize_filename handle_identifier +:+ ".txt"]).
Proof.
  apply join_single.
  - rewrite has_sep_app, allowed_no_sep by apply sanitize_filename_allowed. done.
  - pose proof (sanitize_filename_nonempty handle_identifier) as Hne.
    destruct (sanitize_filename handle_identifier) as [|c s]; [done|].
    rewrite app_cons. apply kept_long. by destruct s.
Qed.

Lemma attachments_dir_parts (output_dir : Path) (handle_identifier : string) :
  output_dir // (sanitize_filename handle_identifier +:+ "_attachments")
  = mk_path (root output_dir)
      (parts output_dir ++ [sanitize_filename handle_identifier +:+ "_attachments"]).
Proof.
  apply join_single.
  - rewrite has_sep_app, allowed_no_sep by apply sanitize_filename_allowed. done.
  - apply kept_marked.
Qed.

Lemma text_path_parent (output_dir : Path) (handle_identifier : string) :
  Pathlib.parent (output_dir // (sanitize_filename handle_identifier +:+ ".txt"))
  = output_dir.
Proof.
  rewrite text_path_parts. unfold Pathlib.parent. cbn [root parts].
  rewrite List.removelast_last. by destruct output_dir.
Qed.

(** The transcript is neither the output directory, nor above it, nor inside
    the attachments directory. *)
Lemma text_path_not_above (output_dir : Path) (handle_identifier : string) :
  ¬ Fs.under (output_dir // (sanitize_filename handle_identifier +:+ ".txt")) output_dir.
Proof.
  rewrite text_path_parts. intros [_ Hpre]. cbn [parts] in Hpre.
  apply prefix_length in Hpre. rewrite length_app in Hpre. cbn in Hpre. lia.
Qed.

Lemma text_path_not_attachment (output_dir : Path) (handle_identifier : string) :
  ¬ Fs.under (output_dir // (sanitize_filename handle_identifier +:+ "_attachments"))
      (output_dir // (sanitize_filename handle_identifier +:+ ".txt")).
Proof.
  rewrite text_path_parts, attachments_dir_parts. intros [_ Hpre]. cbn [parts] in Hpre.
  apply prefix_app_inv in Hpre. destruct Hpre as [k Hk]. injection Hk as Hk _.
  apply String.app_inj in Hk. discriminate Hk.
Qed.

Lemma ensure_output_path_existing (path : Path) (fs : filesystem) :
  Fs.present fs path = true →
  ensure_output_path path false fs = (Raise FileExistsError, fs).
Proof.
  intros Hp. unfold ensure_output_path, mbind, io_bind, Fs.exists_. by rewrite Hp.
Qed.

Lemma ensure_output_path_frame (path q : Path) (overwrite : bool) (fs fs' : filesystem)
    (o : outcome unit) :
  ensure_output_path path overwrite fs = (o, fs') →
  ¬ Fs.under q (Pathlib.parent path) → fs' !! q = fs !! q.
Proof.
  unfold ensure_output_path, mbind, io_bind, Fs.exists_.
  destruct (Fs.present fs path && negb overwrite); [by intros [= <- <-]|].
  intros Hmk Hq. destruct (mkdir_parents_frame _ q _ _ _ Hmk) as [?|(?&?&?&?)]; done.
Qed.

Lemma ensure_output_path_ready (path : Path) (fs : filesystem) :
  fs !! Pathlib.parent path = Some Dir →
  ensure_output_path path true fs = (Ok (), fs).
Proof.
  intros Hd. unfold ensure_output_path, mbind, io_bind, Fs.exists_.
  rewrite andb_false_r. by apply mkdir_parents_existing.
Qed.

Lemma make_dirs_errors (fs : filesystem) (r : anchor) (rev_parts : list string) (e : exn) :
  Fs.make_dirs fs r rev_parts = Raise e → e = FileNotFoundError ∨ e = NotADirectoryError.
Proof.
  induction rev_parts as [|x up IH]; cbn [Fs.make_dirs]; [intros [= <-]; by left|].
  destruct (fs !! mk_path r (rev up)) as [[c|]|]; [intros [= <-]; by right|done|].
  destruct (Fs.make_dirs fs r up); cbn; [done|]. intros [= <-]. auto.
Qed.

Lemma ensure_output_path_errors (path : Path) (overwrite : bool) (fs fs' : filesystem)
    (e : exn) :
  ensure_output_path path overwrite fs = (Raise e, fs') →
  fs' = fs
  ∧ (e = FileExistsError ∨ e = FileNotFoundError ∨ e = NotADirectoryError)
  ∧ (fs !! Pathlib.parent path = Some Dir → Fs.present fs path = true ∧ overwrite = false).
Proof.
  unfold ensure_output_path, mbind, io_bind, Fs.exists_.
  destruct (Fs.present fs path && negb overwrite) eqn:Hc.
  - intros [= <- <-]. apply andb_prop in Hc as [? ?%negb_true_iff]. auto.
  - unfold Fs.mkdir_parents.
    destruct (fs !! Pathlib.parent path) as [[c|]|] eqn:E; [|done|].
    + intros [= <- <-]. split; [done|]. split; [auto|]. intros; congruence.
    + destruct (Fs.make_dirs _ _ _) eqn:Hmk; [done|]. intros [= <- <-].
      apply make_dirs_errors in Hmk. split; [done|].
      split; [destruct Hmk; auto|].
      intros; congruence.
Qed.

(** C6: with the transcript of the contact already there and no overwrite,
    [ensure_output_path] raises [FileExistsError]; [export_for_contact] ends
    with that error before anything is opened, created or removed, and so
    does the run, whatever it has exported so far: the file system, and with
    it the content of the existing file, is the one it was. *)
Theorem existing_transcript_untouched (connection : connection) (handle_identifier : string)
    (output_dir : Path) (attachments_root : option Path) (include_media : bool)
    (fs : filesystem) :
  Fs.present fs (output_dir // (sanitize_filename handle_identifier +:+ ".txt")) = true →
  ensure_output_path (output_dir // (sanitize_filename handle_identifier +:+ ".txt")) false fs
  = (Raise FileExistsError, fs)
  ∧ export_for_contact connection handle_identifier output_dir attachments_root
      include_media false fs
    = (Raise FileExistsError, fs)
  ∧ ∀ exported contacts,
      export_chats_from exported connection attachments_root
        (handle_identifier :: contacts) output_dir include_media false fs
      = (Raise FileExistsError, fs).
Proof.
  intros Hp. split; [by apply ensure_output_path_existing|].
  assert (export_for_contact connection handle_identifier output_dir attachments_root
            include_media false fs = (Raise FileExistsError, fs)) as He.
  { unfold export_for_contact. unfold mbind at 1, io_bind at 1.
    by rewrite ensure_output_path_existing. }
  split; [done|]. intros exported contacts. cbn [export_chats_from].
  unfold mbind, io_bind. by rewrite He.
Qed.

(** C5: a contact without rows makes [export_for_contact] raise, and the
    path of its transcript holds afterwards what it held before: no
    transcript is created, an existing one is not emptied.  The error is
    [ValueError] unless preparing the output already failed; with the output
    directory in place and nothing of the contact in it, it is [ValueError]
    and nothing at all has changed. *)
Theorem no_rows_no_transcript (connection : connection) (handle_identifier : string)
    (output_dir : Path) (attachments_root : option Path) (include_media overwrite : bool)
    (fs : filesystem) :
  fetch_messages connection handle_identifier = [] →
  ∃ e fs',
    export_for_contact connection handle_identifier output_dir attachments_root
      include_media overwrite fs = (Raise e, fs')
    ∧ fs' !! (output_dir // (sanitize_filename handle_identifier +:+ ".txt"))
      = fs !! (output_dir // (sanitize_filename handle_identifier +:+ ".txt"))
    ∧ (e = ValueError ∨ e = FileExistsError ∨ e = FileNotFoundError
       ∨ e = NotADirectoryError)
    ∧ (fs !! output_dir = Some Dir →
       fs !! (output_dir // (sanitize_filename handle_identifier +:+ ".txt")) = None →
       fs !! (output_dir // (sanitize_filename handle_identifier +:+ "_attachments")) = None →
       e = ValueError ∧ fs' = fs).
Proof.
  intros Hrows. unfold export_for_contact. rewrite Hrows.
  set (text_path := output_dir // (sanitize_filename handle_identifier +:+ ".txt")).
  set (attachments_dir := output_dir // (sanitize_filename handle_identifier +:+ "_attachments")).
  assert (Pathlib.parent text_path = output_dir) as Hparent by apply text_path_parent.
  unfold mbind at 1, io_bind at 1.
  destruct (ensure_output_path text_path overwrite fs) as [[[]|e] fs1] eqn:Hens.
  2:{ apply ensure_output_path_errors in Hens as (-> & He & Hout).
      exists e, fs. split; [done|]. split; [done|].
      split; [destruct He as [?|[?|?]]; auto|].
      intros Hdir Hnone _. rewrite Hparent in Hout. destruct (Hout Hdir) as [Hp _].
      unfold Fs.present in Hp. by rewrite Hnone in Hp. }
  assert (fs1 !! text_path = fs !! text_path) as Htext.
  { eapply ensure_output_path_frame; [exact Hens|].
    rewrite Hparent. apply text_path_not_above. }
  assert (fs !! output_dir = Some Dir → fs1 = fs) as Hsame.
  { intros Hout. unfold ensure_output_path, mbind, io_bind, Fs.exists_ in Hens.
    destruct (Fs.present fs text_path && negb overwrite); [done|].
    rewrite Hparent, (mkdir_parents_existing _ _ Hout) in Hens. congruence. }
  assert (fs !! output_dir = Some Dir → fs !! attachments_dir = None →
          Fs.present fs1 attachments_dir = false) as Hfree.
  { intros Hout Hnone. rewrite (Hsame Hout). unfold Fs.present. by rewrite Hnone. }
  unfold mbind at 1, io_bind at 1.
  destruct include_media.
  - unfold mbind at 1, io_bind at 1, Fs.exists_ at 1.
    destruct (Fs.present fs1 attachments_dir) eqn:Hatt; cbn [andb].
    + destruct overwrite; cbn [negb].
      * unfold mbind at 1, io_bind at 1, Fs.exists_ at 1. rewrite Hatt. cbn [andb].
        unfold mbind at 1, io_bind at 1.
        destruct (Fs.rmtree attachments_dir fs1) as [[[]|e] fs2] eqn:Hrm.
        -- cbn. exists ValueError, fs2. split; [done|].
           apply (rmtree_removes _ text_path) in Hrm as [_ Hrm].
           rewrite decide_False in Hrm by apply text_path_not_attachment.
           split; [congruence|]. split; [auto|]. intros Hout _ Hnone.
           discriminate (Hfree Hout Hnone).
        -- exists e, fs2. split; [done|]. unfold Fs.rmtree in Hrm.
           destruct (fs1 !! attachments_dir) as [[c|]|] eqn:E; [|done|];
             injection Hrm as <- <-; (split; [done|]); (split; [auto|]);
             intros Hout _ Hnone; discriminate (Hfree Hout Hnone).
      * cbn. exists FileExistsError, fs1. split; [done|]. split; [done|]. split; [auto|].
        intros Hout _ Hnone. discriminate (Hfree Hout Hnone).
    + unfold mbind at 1, io_bind at 1, Fs.exists_ at 1. rewrite Hatt. cbn.
      exists ValueError, fs1. split; [done|]. split; [done|]. split; [auto|]. auto.
  - cbn. exists ValueError, fs1. split; [done|]. split; [done|]. split; [auto|]. auto.
Qed.

Lemma under_refl (d : Path) : Fs.under d d.
Proof. by split. Qed.

Lemma output_dir_not_attachment (output_dir : Path) (handle_identifier : string) :
  ¬ Fs.under (output_dir // (sanitize_filename handle_identifier +:+ "_attachments"))
      output_dir.
Proof.
  rewrite attachments_dir_parts. intros [_ Hpre]. cbn [parts] in Hpre.
  apply prefix_length in Hpre. rewrite length_app in Hpre. cbn in Hpre. lia.
Qed.

(** C9: with overwrite and media export on and the attachments directory of
    the contact in place, [export_for_contact] removes that directory with
    all it holds before it looks at any row: the run is the run on the file
    system without it.  So when the contact has no rows, [ValueError] comes
    with the directory already gone, and nothing else changed. *)
Theorem overwrite_clears_attachments_first (connection : connection)
    (handle_identifier : string) (output_dir : Path) (attachments_root : option Path)
    (fs : filesystem) :
  fs !! output_dir = Some Dir →
  fs !! (output_dir // (sanitize_filename handle_identifier +:+ "_attachments")) = Some Dir →
  export_for_contact connection handle_identifier output_dir attachments_root true true fs
  = export_for_contact connection handle_identifier output_dir attachments_root true true
      (Fs.cleared (output_dir // (sanitize_filename handle_identifier +:+ "_attachments")) fs)
  ∧ (fetch_messages connection handle_identifier = [] →
     export_for_contact connection handle_identifier output_dir attachments_root true true fs
     = (Raise ValueError,
        Fs.cleared (output_dir // (sanitize_filename handle_identifier +:+ "_attachments")) fs)
     ∧ ∀ q,
         Fs.cleared (output_dir // (sanitize_filename handle_identifier +:+ "_attachments")) fs !! q
         = if decide (Fs.under
                        (output_dir // (sanitize_filename handle_identifier +:+ "_attachments")) q)
           then None else fs !! q).
Proof.
  intros Hout Hatt.
  set (text_path := output_dir // (sanitize_filename handle_identifier +:+ ".txt")).
  set (attachments_dir := output_dir // (sanitize_filename handle_identifier +:+ "_attachments")) in *.
  assert (Pathlib.parent text_path = output_dir) as Hparent by apply text_path_parent.
  assert (∀ rest : option Path → io Path,
            (ensure_output_path text_path true;;
             attachments_dir ←
               (present ← Fs.exists_ attachments_dir;
                if present && negb true then raise FileExistsError
                else
                  present ← Fs.exists_ attachments_dir;
                  (if present && true then Fs.rmtree attachments_dir else mret ());;
                  mret (Some attachments_dir));
             rest attachments_dir) fs
            = rest (Some attachments_dir) (Fs.cleared attachments_dir fs)) as Hleft.
  { intros rest. unfold mbind at 1, io_bind at 1.
    rewrite ensure_output_path_ready by by rewrite Hparent.
    unfold mbind, io_bind, Fs.exists_, Fs.present. rewrite Hatt. cbn [andb negb].
    rewrite Hatt. cbn [andb]. by rewrite (rmtree_cleared _ _ Hatt). }
  assert (∀ rest : option Path → io Path,
            (ensure_output_path text_path true;;
             attachments_dir ←
               (present ← Fs.exists_ attachments_dir;
                if present && negb true then raise FileExistsError
                else
                  present ← Fs.exists_ attachments_dir;
                  (if present && true then Fs.rmtree attachments_dir else mret ());;
                  mret (Some attachments_dir));
             rest attachments_dir) (Fs.cleared attachments_dir fs)
            = rest (Some attachments_dir) (Fs.cleared attachments_dir fs)) as Hright.
  { intros rest. unfold mbind at 1, io_bind at 1.
    rewrite ensure_output_path_ready.
    2:{ rewrite Hparent, cleared_lookup.
        by rewrite decide_False by apply output_dir_not_attachment. }
    unfold mbind, io_bind, Fs.exists_, Fs.present.
    rewrite cleared_lookup, decide_True by apply under_refl. cbn [andb negb].
    rewrite cleared_lookup, decide_True by apply under_refl. done. }
  split.
  - unfold export_for_contact. fold text_path. fold attachments_dir.
    etrans; [apply (Hleft (λ attachments_dir,
      match fetch_messages connection handle_identifier with
      | [] => raise ValueError
      | _ :: _ =>
          Fs.open_w text_path;;
          write_rows text_path (fetch_messages connection handle_identifier)
            handle_identifier attachments_dir attachments_root true;;
          mret text_path
      end))|].
    symmetry. apply (Hright (λ attachments_dir,
      match fetch_messages connection handle_identifier with
      | [] => raise ValueError
      | _ :: _ =>
          Fs.open_w text_path;;
          write_rows text_path (fetch_messages connection handle_identifier)
            handle_identifier attachments_dir attachments_root true;;
          mret text_path
      end)).
  - intros Hrows. split; [|intros q; apply cleared_lookup].
    unfold export_for_contact. fold text_path. fold attachments_dir. rewrite Hrows.
    apply (Hleft (λ _, raise ValueError)).
Qed.

Lemma existing_transcript_untouched_witness :
  export_for_contact sample_connection "+491701234567" sample_output_dir
    (Some sample_root) true false sample_fs_exported
  = (Raise FileExistsError, sample_fs_exported).
Proof.
  apply (existing_transcript_untouched sample_connection "+491701234567" sample_output_dir
           (Some sample_root) true sample_fs_exported).
  vm_compute. reflexivity.
Defined.

Lemma no_rows_no_transcript_witness :
  ∃ e fs',
    export_for_contact sample_connection "nobody" sample_output_dir (Some sample_root)
      true true sample_fs = (Raise e, fs')
    ∧ fs' !! (sample_output_dir // (sanitize_filename "nobody" +:+ ".txt"))
      = sample_fs !! (sample_output_dir // (sanitize_filename "nobody" +:+ ".txt")).
Proof.
  destruct (no_rows_no_transcript sample_connection "nobody" sample_output_dir
              (Some sample_root) true true sample_fs) as (e & fs' & H1 & H2 & _).
  - vm_compute. reflexivity.
  - exists e, fs'. split; [exact H1 | exact H2].
Defined.

Lemma overwrite_clears_attachments_first_witness :
  (export_for_contact sample_connection "+491701234567" sample_output_dir
     (Some sample_root) true true sample_fs_exported).2
  !! Pathlib.parse "/out/_491701234567_attachments/old.jpg" = None.
Proof.
  rewrite (proj1 (overwrite_clears_attachments_first sample_connection "+491701234567"
                    sample_output_dir (Some sample_root) sample_fs_exported
                    ltac:(vm_compute; reflexivity) ltac:(vm_compute; reflexivity))).
  vm_compute. reflexivity.
Defined.

Example export_for_contact_sample :
  (export_for_contact sample_connection "+491701234567" sample_output_dir
     (Some sample_root) true false sample_fs).2
  !! Pathlib.parse "/out/_491701234567.txt"
  = Some (File ("[Unbekannte Zeit] +491701234567: (kein Text) [Anhang: photo.jpg]" +:+ LF
                +:+ "[2023-03-08 20:26:40] Ich: hi" +:+ LF
                +:+ "[2023-03-08 20:26:40] +491701234567: third [Anhang: photo_1.jpg]" +:+ LF
                +:+ "[2023-03-08 20:26:40] +491701234567: third [Anhang: (Anhang nicht gefunden im Backup)]"
                +:+ LF)).
Proof. vm_compute. reflexivity. Qed.

(** * Further properties of the script *)

(** ** Timestamps: every outcome *)

Lemma int_errors (v : value) (e : exn) :
  Py.int v = Raise e → e = TypeError ∨ e = ValueError ∨ e = OverflowError.
Proof.
  destruct v as [|z|[s|s| |s m x]|s|s]; cbn [Py.int]; try (intros [= <-]; auto).
  - unfold Py.of_literal. destruct (Py.literal _ _); [|intros [= <-]; auto].
    destruct (_ <? _)%nat; [intros [= <-]; auto|done].
  - unfold Py.of_literal. destruct (Py.literal _ _); [|intros [= <-]; auto].
    destruct (_ <? _)%nat; [intros [= <-]; auto|done].
Qed.

Lemma normalized_outcome (us : Z) :
  Datetime.normalized us = Ok (mk_timedelta us)
  ∨ Datetime.normalized us = Raise OverflowError.
Proof. unfold Datetime.normalized. destruct (_ >? _); auto. Qed.

Lemma add_outcome (d : datetime) (t : timedelta) :
  (∃ r, Datetime.add d t = Ok r) ∨ Datetime.add d t = Raise OverflowError.
Proof. unfold Datetime.add. destruct (_ && _); eauto. Qed.

Lemma delta_outcome (delta : outcome timedelta) :
  (∃ t, delta = Ok t) ∨ delta = Raise OverflowError →
  (∃ d, (delta ≫= λ delta, Some <$> Datetime.add APPLE_EPOCH delta) = Ok (Some d))
  ∨ (delta ≫= λ delta, Some <$> Datetime.add APPLE_EPOCH delta) = Raise OverflowError.
Proof.
  intros [[t ->]| ->]; [|by right]. cbn [mbind outcome_bind].
  destruct (add_outcome APPLE_EPOCH t) as [[r ->]| ->]; [left; by exists r | by right].
Qed.

Lemma apple_timestamp_int_outcome (z : Z) :
  z ≠ 0 →
  (∃ d, apple_timestamp_to_datetime (VInt z) = Ok (Some d))
  ∨ apple_timestamp_to_datetime (VInt z) = Raise OverflowError.
Proof.
  intros Hz. destruct (Z.gtb_spec z (10 ^ 12)) as [Hbig|Hsmall].
  - rewrite apple_timestamp_nanoseconds by lia. unfold Py.truediv.
    change (1000000000 =? 0) with false. cbv iota.
    destruct (SFdiv 53 1024 (Py.float_of_Z z) (Py.float_of_Z 1000000000))
      as [s|s| |s m x]; try by right.
    + cbn [mbind outcome_bind]. apply delta_outcome. cbn [Datetime.of_float_seconds]. eauto.
    + cbn [mbind outcome_bind]. apply delta_outcome. cbn [Datetime.of_float_seconds].
      destruct (normalized_outcome
                  (Py.trunc_finite s m x * 1000000
                   + Py.round_half_even
                       (SFmul 53 1024 (Py.float_of_Z 1000000) (Py.frac_finite s m x))))
        as [-> | ->]; eauto.
  - rewrite apple_timestamp_seconds by lia. apply delta_outcome.
    unfold Datetime.of_seconds.
    destruct (normalized_outcome (z * 1000000)) as [-> | ->]; eauto.
Qed.

(** X1: for every column value the conversion either returns or raises
    [OverflowError]; [TypeError] and [ValueError] never escape.  The unknown
    marker is returned exactly when [int] fails with one of these two or
    gives zero; in every other case that returns, a time is returned. *)
Theorem apple_timestamp_outcomes (v : value) :
  (apple_timestamp_to_datetime v = Ok None
   ↔ Py.int v = Ok 0 ∨ Py.int v = Raise TypeError ∨ Py.int v = Raise ValueError)
  ∧ (apple_timestamp_to_datetime v = Ok None
     ∨ (∃ d, apple_timestamp_to_datetime v = Ok (Some d))
     ∨ apple_timestamp_to_datetime v = Raise OverflowError).
Proof.
  destruct (Py.int v) as [z|e] eqn:Hint.
  - rewrite (apple_timestamp_via_int v z Hint).
    destruct (decide (z = 0)) as [->|Hz].
    + split; [|by left]. split; auto.
    + destruct (apple_timestamp_int_outcome z Hz) as [[d Hd]|Hd]; rewrite Hd.
      * split; [|right; left; by exists d].
        split; [done|]. intros [[= ?]|[?|?]]; done.
      * split; [|by right; right].
        split; [done|]. intros [[= ?]|[?|?]]; done.
  - destruct (int_errors v e Hint) as [->|[->| ->]].
    + rewrite apple_timestamp_malformed by auto. split; [|by left]. split; auto.
    + rewrite apple_timestamp_malformed by auto. split; [|by left]. split; auto.
    + assert (apple_timestamp_to_datetime v = Raise OverflowError) as ->.
      { unfold apple_timestamp_to_datetime. destruct v; try discriminate Hint;
          by rewrite Hint. }
      split; [|by right; right]. split; [done|]. intros [?|[?|?]]; done.
Qed.

(** ** File names: sanitizing twice *)

Lemma allowed_not_space (c : ascii) : allowed c = true → Py.isspace c = false.
Proof.
  destruct c as [[] [] [] [] [] [] [] []]; intros H; vm_compute in H |- *;
    first [reflexivity | discriminate H].
Qed.

Lemma lstrip_allowed (s : string) :
  all_chars allowed s = true → Py.lstrip Py.isspace s = s.
Proof.
  destruct s as [|c s]; cbn [all_chars Py.lstrip]; [done|].
  intros [Hc _]%andb_prop. by rewrite (allowed_not_space c Hc).
Qed.

Lemma rstrip_allowed (s : string) :
  all_chars allowed s = true → Py.rstrip Py.isspace s = s.
Proof.
  induction s as [|c s IH]; cbn [all_chars Py.rstrip]; [done|].
  intros [Hc Hs]%andb_prop. rewrite (IH Hs), (allowed_not_space c Hc).
  by destruct s.
Qed.

Lemma strip_allowed (s : string) :
  all_chars allowed s = true → Py.strip Py.isspace s = s.
Proof. intros H. unfold Py.strip. by rewrite lstrip_allowed, rstrip_allowed. Qed.

(** X2: sanitizing is idempotent: a sanitized name is its own sanitized
    name, so the name of a transcript can be given back as the contact. *)
Theorem sanitize_filename_idempotent (handle : string) :
  sanitize_filename (sanitize_filename handle) = sanitize_filename handle.
Proof.
  pose proof (sanitize_filename_allowed handle) as Hall.
  pose proof (sanitize_filename_nonempty handle) as Hne.
  unfold sanitize_filename at 1.
  rewrite strip_allowed, sub_runs_kept by done.
  by destruct (sanitize_filename handle).
Qed.

(** ** Where the output of a contact goes *)

Lemma attachments_dir_parent (output_dir : Path) (handle_identifier : string) :
  Pathlib.parent (output_dir // (sanitize_filename handle_identifier +:+ "_attachments"))
  = output_dir.
Proof.
  rewrite attachments_dir_parts. unfold Pathlib.parent. cbn [root parts].
  rewrite List.removelast_last. by destruct output_dir.
Qed.

(** X3: whatever the contact identifier holds (separators, [..], nothing at
    all), the transcript and the attachments directory are direct children of
    the output directory, named after the sanitized identifier; they are two
    different paths and the transcript does not lie in the attachments
    directory. *)
Theorem output_paths_in_output_dir (output_dir : Path) (handle_identifier : string) :
  Pathlib.parent (output_dir // (sanitize_filename handle_identifier +:+ ".txt")) = output_dir
  ∧ Pathlib.name (output_dir // (sanitize_filename handle_identifier +:+ ".txt"))
    = sanitize_filename handle_identifier +:+ ".txt"
  ∧ Pathlib.parent (output_dir // (sanitize_filename handle_identifier +:+ "_attachments"))
    = output_dir
  ∧ Pathlib.name (output_dir // (sanitize_filename handle_identifier +:+ "_attachments"))
    = sanitize_filename handle_identifier +:+ "_attachments"
  ∧ ¬ Fs.under (output_dir // (sanitize_filename handle_identifier +:+ "_attachments"))
        (output_dir // (sanitize_filename handle_identifier +:+ ".txt")).
Proof.
  split; [apply text_path_parent|].
  split; [rewrite text_path_parts; apply List.last_last|].
  split; [apply attachments_dir_parent|].
  split; [rewrite attachments_dir_parts; apply List.last_last|].
  apply text_path_not_attachment.
Qed.

(** ** Preparing the output path *)

Lemma make_dirs_made (fs fs' : filesystem) (r : anchor) (rev_parts : list string) :
  Fs.make_dirs fs r rev_parts = Ok fs' → fs' !! mk_path r (rev rev_parts) = Some Dir.
Proof.
  destruct rev_parts as [|x up]; cbn [Fs.make_dirs]; [done|].
  destruct (fs !! mk_path r (rev up)) as [[c|]|]; [done|..].
  - intros [= <-]. apply lookup_insert_eq.
  - destruct (Fs.make_dirs fs r up); cbn; [|done]. intros [= <-]. apply lookup_insert_eq.
Qed.

Lemma mkdir_parents_made (p : Path) (fs fs' : filesystem) :
  Fs.mkdir_parents p fs = (Ok (), fs') → fs' !! p = Some Dir.
Proof.
  unfold Fs.mkdir_parents. destruct (fs !! p) as [[c|]|] eqn:Hp; [done|by intros [= <-]|].
  destruct (Fs.make_dirs fs (root p) (rev (parts p))) as [fs1|e] eqn:Hmk; [|done].
  intros [= <-]. apply make_dirs_made in Hmk. rewrite rev_involutive in Hmk.
  by destruct p.
Qed.


Lemma parent_not_under (path : Path) :
  parts path ≠ [] → ¬ Fs.under path (Pathlib.parent path).
Proof.
  intros Hne [_ Hpre]. unfold Pathlib.parent in Hpre. cbn [parts] in Hpre.
  apply prefix_length in Hpre.
  destruct (parts path) as [|x l] using rev_ind; [done|].
  rewrite List.removelast_last, length_app in Hpre. cbn in Hpre. lia.
Qed.

(** X4: when [ensure_output_path] returns, the parent of the path is a
    directory; the path existed only if overwriting was asked for; every
    entry that was there is still there, unchanged; what was added are
    directories, each the parent or above it; and the path itself was
    neither created nor touched. *)
Theorem ensure_output_path_prepares (path : Path) (overwrite : bool) (fs fs' : filesystem) :
  ensure_output_path path overwrite fs = (Ok (), fs') →
  fs' !! Pathlib.parent path = Some Dir
  ∧ (Fs.present fs path = true → overwrite = true)
  ∧ (∀ q x, fs !! q = Some x → fs' !! q = Some x)
  ∧ (∀ q, fs !! q = None →
          fs' !! q = None ∨ (fs' !! q = Some Dir ∧ Fs.under q (Pathlib.parent path)))
  ∧ (parts path ≠ [] → fs' !! path = fs !! path).
Proof.
  intros H. pose proof H as Hens.
  unfold ensure_output_path, mbind, io_bind, Fs.exists_ in H.
  destruct (Fs.present fs path) eqn:Hp, overwrite; cbn [andb negb] in H; try done.
  all: split; [by eapply mkdir_parents_made|].
  all: split; [done|].
  all: split; [intros q x Hq; by eapply mkdir_parents_keeps|].
  all: split;
    [ intros q Hq; destruct (mkdir_parents_frame _ q _ _ _ H) as [->|(_&_&?&?)]; auto
    | intros Hne; eapply ensure_output_path_frame; [exact Hens|by apply parent_not_under] ].
Qed.

Lemma ensure_output_path_prepares_witness :
  (ensure_output_path (Pathlib.parse "/new/dir/chat.txt") false sample_fs).2
  !! Pathlib.parse "/new/dir" = Some Dir.
Proof.
  refine (proj1 (ensure_output_path_prepares (Pathlib.parse "/new/dir/chat.txt") false
                   sample_fs
                   (ensure_output_path (Pathlib.parse "/new/dir/chat.txt") false sample_fs).2
                   _)).
  apply outcome_with_state. vm_compute. reflexivity.
Defined.



(** ** Where a resolved attachment lies *)

Lemma join_under (p q : Path) : root q = Relative → Fs.under p (Pathlib.join p q).
Proof.
  intros Hq. unfold Pathlib.join. rewrite Hq. split; [done|]. cbn [parts].
  by apply prefix_app_r.
Qed.

Lemma under_trans (a b c : Path) : Fs.under a b → Fs.under b c → Fs.under a c.
Proof. intros [? ?] [? ?]. split; [congruence|by etrans]. Qed.

(** X6: a path the resolver returns exists, and the file system is as it
    was.  The path is one of the two candidates built from the remainder
    after the marker; the second one is returned only when the first does
    not exist.  When the remainder is a relative path, the result lies below
    the backup root, component by component. *)
Theorem resolve_attachment_path_found (raw_path : option string) (attachments_root p : Path)
    (fs fs' : filesystem) :
  resolve_attachment_path raw_path attachments_root fs = (Ok (Some p), fs') →
  fs' = fs ∧ Fs.present fs p = true
  ∧ ∃ s group1,
      raw_path = Some s ∧ ATTACHMENT_ANCHOR_search s = Some group1
      ∧ (p = Pathlib.join (attachments_root // "Library" // "SMS" // "Attachments")
               (Pathlib.parse group1)
         ∨ (p = Pathlib.join attachments_root (Pathlib.parse group1)
            ∧ Fs.present fs
                (Pathlib.join (attachments_root // "Library" // "SMS" // "Attachments")
                   (Pathlib.parse group1)) = false))
      ∧ (Pathlib.parse_root group1 = Relative → Fs.under attachments_root p).
Proof.
  rewrite resolve_attachment_path_find. intros [= Hfind <-]. split; [done|].
  unfold candidates in Hfind. destruct raw_path as [s|]; [|done].
  cbn [mbind option_bind] in Hfind.
  destruct (ATTACHMENT_ANCHOR_search s) as [group1|] eqn:Hs; [|done].
  cbn [List.find] in Hfind.
  destruct (Fs.present fs (Pathlib.join (attachments_root // "Library" // "SMS" // "Attachments")
                             (Pathlib.parse group1))) eqn:H1.
  - injection Hfind as <-. split; [done|]. exists s, group1.
    split; [done|]. split; [done|]. split; [by left|]. intros Hrel.
    eapply under_trans; [|by apply join_under].
    eapply under_trans; [|by apply join_under].
    eapply under_trans; [|by apply join_under]. by apply join_under.
  - destruct (Fs.present fs (Pathlib.join attachments_root (Pathlib.parse group1))) eqn:H2;
      [|done].
    injection Hfind as <-. split; [done|]. exists s, group1.
    split; [done|]. split; [done|]. split; [by right|]. intros Hrel. by apply join_under.
Qed.

Lemma resolve_attachment_path_found_witness :
  Fs.present sample_fs (Pathlib.parse "/backup/cd/photo.jpg") = true.
Proof.
  refine (proj1 (proj2 (resolve_attachment_path_found
                          (Some "~/Library/SMS/Attachments/cd/photo.jpg")
                          sample_root (Pathlib.parse "/backup/cd/photo.jpg") sample_fs sample_fs
                          _))).
  rewrite resolve_attachment_path_find. do 2 f_equal; vm_compute; reflexivity.
Defined.

(** X7: when the remainder after the marker is itself an absolute path (the
    marker is followed by a slash), both candidates are that absolute path:
    the backup root plays no part, and the resolver answers with the path
    whenever it exists, wherever it lies. *)
Theorem resolve_attachment_path_absolute (s group1 : string) (attachments_root : Path)
    (fs : filesystem) :
  ATTACHMENT_ANCHOR_search s = Some group1 →
  Pathlib.parse_root group1 ≠ Relative →
  resolve_attachment_path (Some s) attachments_root fs
  = (Ok (if Fs.present fs (Pathlib.parse group1) then Some (Pathlib.parse group1) else None),
     fs).
Proof.
  intros Hs Habs. rewrite resolve_attachment_path_find. unfold candidates.
  cbn [mbind option_bind]. rewrite Hs.
  assert (∀ p, Pathlib.join p (Pathlib.parse group1) = Pathlib.parse group1) as Hjoin.
  { intros p. unfold Pathlib.join. cbn [Pathlib.parse root] in *.
    by destruct (Pathlib.parse_root group1). }
  rewrite !Hjoin. cbn [List.find].
  by destruct (Fs.present fs (Pathlib.parse group1)).
Qed.

Lemma resolve_attachment_path_absolute_witness :
  resolve_attachment_path (Some "~/Library/SMS/Attachments//backup/cd/photo.jpg")
    (Pathlib.parse "/elsewhere") sample_fs
  = (Ok (if Fs.present sample_fs (Pathlib.parse "/backup/cd/photo.jpg")
         then Some (Pathlib.parse "/backup/cd/photo.jpg") else None), sample_fs).
Proof.
  apply (resolve_attachment_path_absolute "~/Library/SMS/Attachments//backup/cd/photo.jpg"
           "/backup/cd/photo.jpg" (Pathlib.parse "/elsewhere") sample_fs).
  - vm_compute. reflexivity.
  - vm_compute. discriminate.
Defined.

(** ** The rows of a contact *)

Lemma eq_id_true (x : option Z) (y : Z) : Sql.eq_id x y = true ↔ x = Some y.
Proof.
  unfold Sql.eq_id. destruct x as [a|]; [|done].
  rewrite Z.eqb_eq. split; congruence.
Qed.

Lemma eq_text_true (x : option string) (y : string) : Sql.eq_text x y = true ↔ x = Some y.
Proof.
  unfold Sql.eq_text. destruct x as [a|]; [|done].
  rewrite String.eqb_eq. split; congruence.
Qed.

Lemma filter_elem {B} (on : B → bool) (l : list B) (b : B) :
  b ∈ List.filter on l ↔ b ∈ l ∧ on b = true.
Proof. by rewrite !list_elem_of_In, List.filter_In. Qed.

Lemma left_join_Some {B} (on : B → bool) (right : list B) (b : B) :
  Some b ∈ Sql.left_join on right ↔ b ∈ right ∧ on b = true.
Proof.
  rewrite <-filter_elem. unfold Sql.left_join.
  destruct (List.filter on right) as [|b0 l].
  - split; [|by intros ?%not_elem_of_nil].
    intros [[=]|?%not_elem_of_nil]%elem_of_cons. done.
  - rewrite list_elem_of_fmap. split.
    + by intros (x & [= <-] & Hx).
    + intros Hb. by exists b.
Qed.

Lemma left_join_None {B} (on : B → bool) (right : list B) :
  None ∈ Sql.left_join on right ↔ ∀ b, b ∈ right → on b = false.
Proof.
  unfold Sql.left_join. destruct (List.filter on right) as [|b0 l] eqn:E.
  - split; [|intros _; by left]. intros _ b Hb.
    destruct (on b) eqn:Hon; [|done].
    assert (b ∈ List.filter on right) as Hin by by apply filter_elem.
    rewrite E in Hin. by apply not_elem_of_nil in Hin.
  - split.
    + rewrite list_elem_of_fmap. by intros (x & [=] & _).
    + intros Hall. assert (b0 ∈ List.filter on right) as Hin by (rewrite E; by left).
      apply filter_elem in Hin as [Hin Hon]. rewrite (Hall b0 Hin) in Hon. done.
Qed.

Lemma left_join_inhabited {B} (on : B → bool) (right : list B) :
  ∃ x, x ∈ Sql.left_join on right.
Proof.
  unfold Sql.left_join. destruct (List.filter on right) as [|b0 l].
  - exists None. by left.
  - exists (Some b0). by left.
Qed.

(** The rows before sorting, spelled out. *)
Lemma joined_rows_elem (connection : connection) (handle_identifier : string) (r : Row) :
  r ∈ joined_rows connection handle_identifier ↔
  ∃ m h maj a,
    m ∈ message connection
    ∧ h ∈ handle connection
    ∧ m_handle_id m = Some (h_ROWID h)
    ∧ h_id h = Some handle_identifier
    ∧ maj ∈ Sql.left_join (λ maj, Sql.eq_id (maj_message_id maj) (m_ROWID m))
              (message_attachment_join connection)
    ∧ a ∈ Sql.left_join
            (λ a, match maj with
                  | Some maj => Sql.eq_id (maj_attachment_id maj) (a_ROWID a)
                  | None => false
                  end)
            (attachment connection)
    ∧ r = row_of m a.
Proof.
  unfold joined_rows. rewrite list_elem_of_bind. split.
  - intros (m & Hr & Hm).
    apply list_elem_of_bind in Hr as (h & Hr & [Hh Hid%eq_id_true]%filter_elem).
    apply list_elem_of_bind in Hr as (maj & Hr & Hmaj).
    apply list_elem_of_bind in Hr as (a & Hr & Ha).
    destruct (Sql.eq_text (h_id h) handle_identifier) eqn:Htext;
      [|by apply not_elem_of_nil in Hr].
    apply list_elem_of_singleton in Hr. apply eq_text_true in Htext.
    by exists m, h, maj, a.
  - intros (m & h & maj & a & Hm & Hh & Hid & Htext & Hmaj & Ha & ->).
    exists m. split; [|done].
    apply list_elem_of_bind. exists h. split; [|apply filter_elem; by rewrite eq_id_true].
    apply list_elem_of_bind. exists maj. split; [|done].
    apply list_elem_of_bind. exists a. split; [|done].
    apply eq_text_true in Htext. rewrite Htext. by left.
Qed.

Lemma fetch_messages_elem (connection : connection) (handle_identifier : string) (r : Row) :
  r ∈ fetch_messages connection handle_identifier
  ↔ r ∈ joined_rows connection handle_identifier.
Proof. unfold fetch_messages. by rewrite merge_sort_Permutation. Qed.

(** X8: the fetched rows are the messages of the contact and no others.
    Every row carries the id, date, direction and text of a message whose
    handle is a handle row with the given identifier; every such message has
    a row, whether or not an attachment is joined to it; and nothing is
    fetched exactly when no message has such a handle. *)
Theorem fetch_messages_of_contact (connection : connection) (handle_identifier : string) :
  (∀ r, r ∈ fetch_messages connection handle_identifier →
        ∃ m, m ∈ message connection
             ∧ of_contact connection handle_identifier m
             ∧ message_id r = m_ROWID m ∧ date r = m_date m
             ∧ is_from_me r = m_is_from_me m ∧ text r = m_text m)
  ∧ (∀ m, m ∈ message connection →
          of_contact connection handle_identifier m →
          ∃ r, r ∈ fetch_messages connection handle_identifier
               ∧ message_id r = m_ROWID m ∧ date r = m_date m
               ∧ is_from_me r = m_is_from_me m ∧ text r = m_text m)
  ∧ (fetch_messages connection handle_identifier = []
     ↔ ∀ m, m ∈ message connection → ¬ of_contact connection handle_identifier m).
Proof.
  assert (∀ r, r ∈ fetch_messages connection handle_identifier →
               ∃ m, m ∈ message connection
                    ∧ of_contact connection handle_identifier m
                    ∧ message_id r = m_ROWID m ∧ date r = m_date m
                    ∧ is_from_me r = m_is_from_me m ∧ text r = m_text m) as Hsound.
  { intros r (m & h & maj & a & Hm & Hh & Hid & Htext & _ & _ & ->)%fetch_messages_elem%joined_rows_elem.
    exists m. split; [done|]. split; [by exists h|]. done. }
  assert (∀ m, m ∈ message connection →
               of_contact connection handle_identifier m →
               ∃ r, r ∈ fetch_messages connection handle_identifier
                    ∧ message_id r = m_ROWID m ∧ date r = m_date m
                    ∧ is_from_me r = m_is_from_me m ∧ text r = m_text m) as Hcomplete.
  { intros m Hm (h & Hh & Hid & Htext).
    destruct (left_join_inhabited (λ maj, Sql.eq_id (maj_message_id maj) (m_ROWID m))
                (message_attachment_join connection)) as [maj Hmaj].
    destruct (left_join_inhabited
                (λ a, match maj with
                      | Some maj => Sql.eq_id (maj_attachment_id maj) (a_ROWID a)
                      | None => false
                      end) (attachment connection)) as [a Ha].
    exists (row_of m a). split; [|done].
    apply fetch_messages_elem, joined_rows_elem. by exists m, h, maj, a. }
  split; [exact Hsound|]. split; [exact Hcomplete|]. split.
  - intros Hnil m Hm Hc. destruct (Hcomplete m Hm Hc) as (r & Hr & _).
    rewrite Hnil in Hr. by apply not_elem_of_nil in Hr.
  - intros Hnone. destruct (fetch_messages connection handle_identifier) as [|r l] eqn:E;
      [done|].
    destruct (Hsound r) as (m & Hm & Hc & _); [by left|]. by destruct (Hnone m Hm).
Qed.

Lemma fetch_messages_of_contact_witness :
  ∃ r, r ∈ fetch_messages sample_connection "bob"
       ∧ message_id r = 4 ∧ date r = VInt 5 ∧ is_from_me r = VInt 0
       ∧ text r = Some "other".
Proof.
  apply (proj1 (proj2 (fetch_messages_of_contact sample_connection "bob"))
           (Build_message_row 4 (Some 2) (VInt 5) (VInt 0) (Some "other") None)).
  - cbn [message sample_connection]. do 3 right. left.
  - exists (Build_handle_row 2 (Some "bob")). split; [right; left|]. split; reflexivity.
Defined.

(** X9: a row carries a file name only through a link: it is the file name
    of an attachment that a row of the join table ties to the message.  Every
    such link of a message of the contact gives a row with the record of that
    attachment, so a message with several attachments is fetched once per
    attachment; a message without a link is fetched with no attachment
    fields. *)
Theorem fetch_messages_attachments (connection : connection) (handle_identifier : string) :
  (∀ r f, r ∈ fetch_messages connection handle_identifier → filename r = Some f →
          ∃ maj a, maj ∈ message_attachment_join connection ∧ a ∈ attachment connection
                   ∧ maj_message_id maj = Some (message_id r)
                   ∧ maj_attachment_id maj = Some (a_ROWID a)
                   ∧ a_filename a = Some f
                   ∧ transfer_name r = a_transfer_name a ∧ mime_type r = a_mime_type a)
  ∧ (∀ m maj a,
       m ∈ message connection → of_contact connection handle_identifier m →
       maj ∈ message_attachment_join connection → a ∈ attachment connection →
       maj_message_id maj = Some (m_ROWID m) →
       maj_attachment_id maj = Some (a_ROWID a) →
       row_of m (Some a) ∈ fetch_messages connection handle_identifier)
  ∧ (∀ m,
       m ∈ message connection → of_contact connection handle_identifier m →
       (∀ maj, maj ∈ message_attachment_join connection →
               maj_message_id maj ≠ Some (m_ROWID m)) →
       row_of m None ∈ fetch_messages connection handle_identifier).
Proof.
  split; [|split].
  - intros r f (m & h & maj & a & Hm & Hh & Hid & Htext & Hmaj & Ha & ->)%fetch_messages_elem%joined_rows_elem.
    cbn [filename transfer_name mime_type message_id row_of].
    destruct a as [a|]; [|done]. cbn [mbind option_bind]. intros Hf.
    destruct maj as [maj|].
    + apply left_join_Some in Hmaj as [Hmaj Hlink%eq_id_true].
      apply left_join_Some in Ha as [Ha Hatt%eq_id_true].
      by exists maj, a.
    + by apply left_join_Some in Ha as [_ ?].
  - intros m maj a Hm (h & Hh & Hid & Htext) Hmaj Ha Hlink Hatt.
    apply fetch_messages_elem, joined_rows_elem. exists m, h, (Some maj), (Some a).
    do 4 (split; [done|]).
    split; [apply left_join_Some; by rewrite eq_id_true|].
    split; [apply left_join_Some; by rewrite eq_id_true|]. done.
  - intros m Hm (h & Hh & Hid & Htext) Hnone.
    apply fetch_messages_elem, joined_rows_elem. exists m, h, None, None.
    do 4 (split; [done|]).
    split; [|split; [|done]].
    + apply left_join_None. intros maj Hmaj.
      destruct (Sql.eq_id (maj_message_id maj) (m_ROWID m)) eqn:E; [|done].
      apply eq_id_true in E. by destruct (Hnone maj Hmaj).
    + apply left_join_None. done.
Qed.

Lemma fetch_messages_attachments_witness :
  row_of (Build_message_row 3 (Some 1) (VInt 700000000000000000) (VInt 0) (Some "third") None)
    (Some (Build_attachment_row 12 (Some "~/Library/SMS/Attachments/zz/gone.jpg") None None))
  ∈ fetch_messages sample_connection "+491701234567".
Proof.
  apply (proj1 (proj2 (fetch_messages_attachments sample_connection "+491701234567"))
           (Build_message_row 3 (Some 1) (VInt 700000000000000000) (VInt 0) (Some "third") None)
           (Build_message_attachment_join_row (Some 3) (Some 12))
           (Build_attachment_row 12 (Some "~/Library/SMS/Attachments/zz/gone.jpg") None None)).
  - left.
  - exists (Build_handle_row 1 (Some "+491701234567")). split; [left|]. split; reflexivity.
  - do 2 right. left.
  - do 2 right. left.
  - reflexivity.
  - reflexivity.
Defined.

(** ** The body of a line *)

Lemma replace_cr_no_cr (s : string) : all_chars not_cr (Text.replace_cr s) = true.
Proof.
  induction s as [|c s IH]; cbn [Text.replace_cr all_chars]; [done|].
  rewrite IH, andb_true_r. unfold not_cr.
  destruct (Py.code c =? 13) eqn:Hc; [reflexivity | by rewrite Hc].
Qed.

Lemma replace_cr_same (s : string) : all_chars not_cr s = true → Text.replace_cr s = s.
Proof.
  induction s as [|c s IH]; cbn [Text.replace_cr all_chars]; [done|].
  intros [Hc Hs]%andb_prop. rewrite (IH Hs). unfold not_cr in Hc.
  apply negb_true_iff in Hc. by rewrite Hc.
Qed.

Lemma replace_crlf_same (s : string) : all_chars not_cr s = true → Text.replace_crlf s = s.
Proof.
  induction s as [|c s IH]; [done|]. cbn [all_chars].
  intros [Hc Hs]%andb_prop. unfold not_cr in Hc. apply negb_true_iff in Hc.
  specialize (IH Hs). destruct s as [|d s]; [done|].
  change (Text.replace_crlf (String c (String d s)))
    with (if (Py.code c =? 13) && (Py.code d =? 10)
          then String d (Text.replace_crlf s)
          else String c (Text.replace_crlf (String d s))).
  by rewrite Hc, IH.
Qed.

(** X10: the text of a message enters its entry with every line ending
    turned into a line feed, read from left to right: a carriage return
    followed by a line feed becomes one line feed, any other carriage return
    becomes a line feed, and every other character stays as it is, in its
    place.  So no carriage return is left, and a text without one enters
    unchanged. *)
Theorem body_has_no_carriage_return (s : string) :
  Text.replace_cr (Text.replace_crlf "") = ""
  ∧ Text.replace_cr (Text.replace_crlf (String "013" (String "010" s)))
    = String "010" (Text.replace_cr (Text.replace_crlf s))
  ∧ (not_starting (λ c, Py.code c =? 10) s = true →
     Text.replace_cr (Text.replace_crlf (String "013" s))
     = String "010" (Text.replace_cr (Text.replace_crlf s)))
  ∧ (∀ c, not_cr c = true →
          Text.replace_cr (Text.replace_crlf (String c s))
          = String c (Text.replace_cr (Text.replace_crlf s)))
  ∧ all_chars not_cr (Text.replace_cr (Text.replace_crlf s)) = true
  ∧ (all_chars not_cr s = true → Text.replace_cr (Text.replace_crlf s) = s).
Proof.
  split; [reflexivity|]. split; [reflexivity|]. split; [|split; [|split]].
  - destruct s as [|d s]; [reflexivity|]. cbn [not_starting]. intros Hd%negb_true_iff.
    change (Text.replace_crlf (String "013" (String d s)))
      with (if (Py.code "013" =? 13) && (Py.code d =? 10)
            then String d (Text.replace_crlf s)
            else String "013" (Text.replace_crlf (String d s))).
    rewrite Hd, andb_false_r. reflexivity.
  - intros c Hc. unfold not_cr in Hc. apply negb_true_iff in Hc.
    destruct s as [|d s]; [cbn [Text.replace_crlf Text.replace_cr]; by rewrite Hc|].
    change (Text.replace_crlf (String c (String d s)))
      with (if (Py.code c =? 13) && (Py.code d =? 10)
            then String d (Text.replace_crlf s)
            else String c (Text.replace_crlf (String d s))).
    rewrite Hc. cbn [andb Text.replace_cr]. by rewrite Hc.
  - apply replace_cr_no_cr.
  - intros Hs. by rewrite replace_crlf_same, replace_cr_same.
Qed.

Lemma body_has_no_carriage_return_witness :
  Text.replace_cr
    (Text.replace_crlf
       (String "013" ("two" +:+ String "013" (String "010" "three"))))
  = String "010" ("two" +:+ String "010" "three").
Proof.
  etrans;
    [apply (proj1 (proj2 (proj2 (body_has_no_carriage_return
                                   ("two" +:+ String "013" (String "010" "three"))))));
     reflexivity|].
  vm_compute. reflexivity.
Defined.

(** ** What a computation leaves alone *)

Lemma keeps_ret {A} (touched : Path → Prop) (a : A) : keeps_outside touched (mret a).
Proof. intros fs o fs' q x [= <- <-] _ Hq. exact Hq. Qed.

Lemma keeps_raise {A} (touched : Path → Prop) (e : exn) :
  keeps_outside touched (raise e : io A).
Proof. intros fs o fs' q x [= <- <-] _ Hq. exact Hq. Qed.

Lemma keeps_lift {A} (touched : Path → Prop) (a : outcome A) :
  keeps_outside touched (lift a).
Proof. intros fs o fs' q x [= <- <-] _ Hq. exact Hq. Qed.

Lemma keeps_exists (touched : Path → Prop) (p : Path) :
  keeps_outside touched (Fs.exists_ p).
Proof. intros fs o fs' q x [= <- <-] _ Hq. exact Hq. Qed.

Lemma keeps_bind {A B} (touched : Path → Prop) (c : io A) (k : A → io B) :
  keeps_outside touched c → (∀ a, keeps_outside touched (k a)) →
  keeps_outside touched (c ≫= k).
Proof.
  intros Hc Hk fs o fs' q x. unfold mbind, io_bind.
  destruct (c fs) as [[a|e] fs1] eqn:E.
  - intros Hrun Hq Hx. eapply Hk; [exact Hrun|exact Hq|]. by eapply Hc.
  - intros [= <- <-] Hq Hx. by eapply Hc.
Qed.

Lemma keeps_mkdir_parents (touched : Path → Prop) (p : Path) :
  keeps_outside touched (Fs.mkdir_parents p).
Proof. intros fs o fs' q x Hrun _ Hq. by eapply mkdir_parents_keeps. Qed.

Lemma keeps_resolve (touched : Path → Prop) (raw_path : option string) (r : Path) :
  keeps_outside touched (resolve_attachment_path raw_path r).
Proof.
  intros fs o fs' q x. rewrite resolve_attachment_path_find. by intros [= <- <-].
Qed.

Lemma free_destination_state (d d0 : Path) (fs fs' : filesystem) (o : outcome Path) :
  free_destination d d0 fs = (o, fs') → fs' = fs.
Proof. unfold free_destination. destruct (next_free _ _ _ _ _ _ _); by intros [= <- <-]. Qed.

(** Copying to the name the collision loop ends on overwrites nothing. *)
Lemma keeps_free_copy {B} (touched : Path → Prop) (d d0 src : Path) (k : Path → io B) :
  (∀ a, keeps_outside touched (k a)) →
  keeps_outside touched
    (destination ← free_destination d d0; Fs.copy2 src destination;; k destination).
Proof.
  intros Hk fs o fs' q x. unfold mbind at 1, io_bind at 1.
  destruct (free_destination d d0 fs) as [[dest|e] fs1] eqn:Hfree.
  - apply free_destination_inv in Hfree as (-> & Hfresh & _).
    unfold mbind at 1, io_bind at 1.
    destruct (Fs.copy2 src dest fs) as [[[]|e] fs2] eqn:Hcopy.
    + apply copy2_fresh in Hcopy as (content & _ & ->); [|done].
      intros Hrun Hq Hx. eapply Hk; [exact Hrun|exact Hq|].
      rewrite lookup_insert_ne; [done|]. intros <-.
      unfold Fs.present in Hfresh. by rewrite Hx in Hfresh.
    + apply copy2_failure in Hcopy as ->. by intros [= <- <-].
  - apply free_destination_state in Hfree as ->. by intros [= <- <-].
Qed.

Lemma keeps_format_message (touched : Path → Prop) (row : Row) (h : string)
    (dir root : option Path) (media : bool) :
  keeps_outside touched (format_message row h dir root media).
Proof.
  unfold format_message. apply keeps_bind; [apply keeps_lift|]. intros timestamp.
  cbv zeta. apply keeps_bind.
  - destruct media, dir as [d|], root as [r|]; try apply keeps_ret.
    apply keeps_bind; [apply keeps_resolve|]. intros [src|]; [|apply keeps_ret].
    apply keeps_bind; [apply keeps_mkdir_parents|]. intros [].
    apply (keeps_free_copy touched d _ src
             (λ destination, mret (Some src, [Pathlib.name destination]))).
    intros a. apply keeps_ret.
  - intros [attachment_path attachments]. apply keeps_ret.
Qed.

Lemma format_message_plain (row : Row) (h : string) (dir root : option Path)
    (fs : filesystem) :
  format_message row h dir root false fs
  = (match apple_timestamp_to_datetime (date row) with
     | Ok timestamp => Ok (transcript_text timestamp row h, [])
     | Raise e => Raise e
     end, fs).
Proof.
  unfold format_message. unfold mbind at 1, io_bind at 1, lift.
  destruct (apple_timestamp_to_datetime (date row)) as [timestamp|e]; [|done].
  unfold mbind, io_bind. cbn -[transcript_text Text.join String.append].
  rewrite andb_false_r. cbn -[transcript_text Text.join String.append].
  do 2 f_equal. f_equal. finish_line.
Qed.

(** Formatting a row whose attachment resolves, up to the copy. *)
Lemma format_message_copy (row : Row) (h : string) (d r source destination : Path)
    (timestamp : option datetime) (fs fs1 : filesystem) :
  apple_timestamp_to_datetime (date row) = Ok timestamp →
  attempted fs row (Some d) (Some r) true = Some source →
  Fs.mkdir_parents d fs = (Ok (), fs1) →
  free_destination d (first_destination d row source) fs1 = (Ok destination, fs1) →
  format_message row h (Some d) (Some r) true fs
  = match Fs.copy2 source destination fs1 with
    | (Ok _, fs2) =>
        (Ok (transcript_text timestamp row h +:+ annotation (Pathlib.name destination),
             [Pathlib.name destination]), fs2)
    | (Raise e, fs2) => (Raise e, fs2)
    end.
Proof.
  intros Hts Hatt Hmk Hfree.
  assert (Text.nonempty (filename row) = true) as Hrec
    by by apply attempted_recorded in Hatt as (? & _).
  unfold attempted in Hatt.
  unfold format_message. unfold mbind at 1, io_bind at 1, lift. rewrite Hts.
  unfold mbind at 1, io_bind at 1. unfold mbind at 1, io_bind at 1.
  rewrite resolve_attachment_path_find, Hatt.
  unfold mbind at 1, io_bind at 1. rewrite Hmk.
  unfold mbind at 1, io_bind at 1.
  change (d // (if Text.nonempty (transfer_name row)
                then default "" (transfer_name row)
                else Pathlib.name source))
    with (first_destination d row source).
  rewrite Hfree. unfold mbind at 1, io_bind at 1.
  destruct (Fs.copy2 source destination fs1) as [[[]|e] fs2]; [|done].
  cbn -[transcript_text Text.join String.append]. rewrite Hrec.
  cbn -[transcript_text Text.join String.append].
  do 2 f_equal. f_equal. finish_line.
Qed.

(** X11: formatting a row never changes or removes an entry that exists,
    whether it returns or raises: the copy goes to a name that was free.
    Without media export the file system is not touched at all.  At most one
    attachment name is returned with the line. *)
Theorem format_message_only_adds (row : Row) (handle_identifier : string)
    (attachments_dir attachments_root : option Path) (include_media : bool)
    (fs fs' : filesystem) (o : outcome (string * list string)) :
  format_message row handle_identifier attachments_dir attachments_root include_media fs
  = (o, fs') →
  (∀ q x, fs !! q = Some x → fs' !! q = Some x)
  ∧ (include_media = false → fs' = fs)
  ∧ (∀ line attachments, o = Ok (line, attachments) → (length attachments ≤ 1)%nat).
Proof.
  intros Hrun. split; [|split].
  - intros q x Hq.
    eapply (keeps_format_message (λ _, False)); [exact Hrun|tauto|exact Hq].
  - intros ->. rewrite format_message_plain in Hrun. congruence.
  - intros line attachments ->.
    apply format_message_inv in Hrun as (timestamp & _ & Hcase).
    destruct (attempted fs row attachments_dir attachments_root include_media).
    + destruct Hcase as (?&?&?&?&_&_&_&_&_&_&->&_). done.
    + destruct Hcase as [_ Hcase].
      destruct (Text.nonempty (filename row) && include_media);
        destruct Hcase as [-> _]; cbn; lia.
Qed.

Lemma format_message_only_adds_witness :
  sample_step_1.2 !! Pathlib.parse "/backup/cd/photo.jpg" = Some (File "JPEG-2").
Proof.
  refine (proj1 (format_message_only_adds sample_row_1 "+491701234567"
                   (Some sample_attachments_dir) (Some sample_root) true
                   sample_fs sample_step_1.2 sample_step_1.1 _)
            (Pathlib.parse "/backup/cd/photo.jpg") (File "JPEG-2") _).
  - unfold sample_step_1. by destruct (format_message _ _ _ _ _ _).
  - vm_compute. reflexivity.
Defined.

(** ** An attachment that is a directory *)



(** ** What the export of a contact leaves alone *)

Lemma keeps_open_w (touched : Path → Prop) (p : Path) :
  touched p → keeps_outside touched (Fs.open_w p).
Proof.
  intros Hp fs o fs' q x. unfold Fs.open_w.
  destruct (Fs.writable fs p); intros [= <- <-] Hq Hx; [|done].
  rewrite lookup_insert_ne; [done|]. by intros ->.
Qed.

Lemma keeps_write (touched : Path → Prop) (p : Path) (data : string) :
  touched p → keeps_outside touched (Fs.write p data).
Proof.
  intros Hp fs o fs' q x. unfold Fs.write.
  destruct (fs !! p) as [[content|]|]; intros [= <- <-] Hq Hx; try done.
  rewrite lookup_insert_ne; [done|]. by intros ->.
Qed.

Lemma keeps_rmtree (touched : Path → Prop) (d : Path) :
  (∀ q, Fs.under d q → touched q) → keeps_outside touched (Fs.rmtree d).
Proof.
  intros Hd fs o fs' q x. unfold Fs.rmtree.
  destruct (fs !! d) as [[content|]|]; intros [= <- <-] Hq Hx; try done.
  rewrite cleared_lookup, decide_False; [done|]. intros Hu. by apply Hq, Hd.
Qed.

Lemma keeps_ensure_output_path (touched : Path → Prop) (path : Path) (overwrite : bool) :
  keeps_outside touched (ensure_output_path path overwrite).
Proof.
  unfold ensure_output_path. apply keeps_bind; [apply keeps_exists|]. intros present.
  destruct (present && negb overwrite); [apply keeps_raise | apply keeps_mkdir_parents].
Qed.

Lemma keeps_write_rows (touched : Path → Prop) (text_path : Path) (rows : list Row)
    (h : string) (dir root : option Path) (media : bool) :
  touched text_path → keeps_outside touched (write_rows text_path rows h dir root media).
Proof.
  intros Hp. induction rows as [|row rows IH]; cbn [write_rows]; [apply keeps_ret|].
  apply keeps_bind; [apply keeps_format_message|]. intros formatted.
  apply keeps_bind; [by apply keeps_write|]. intros _. exact IH.
Qed.

Lemma keeps_export_for_contact (connection : connection) (h : string) (output_dir : Path)
    (root : option Path) (media overwrite : bool) :
  keeps_outside
    (λ q, q = output_dir // (sanitize_filename h +:+ ".txt")
          ∨ (overwrite = true ∧ media = true
             ∧ Fs.under (output_dir // (sanitize_filename h +:+ "_attachments")) q))
    (export_for_contact connection h output_dir root media overwrite).
Proof.
  unfold export_for_contact. cbv zeta.
  apply keeps_bind; [apply keeps_ensure_output_path|]. intros _.
  apply keeps_bind.
  - destruct media; [|apply keeps_ret].
    apply keeps_bind; [apply keeps_exists|]. intros present.
    destruct (present && negb overwrite); [apply keeps_raise|].
    apply keeps_bind; [apply keeps_exists|]. intros present'.
    apply keeps_bind; [|intros _; apply keeps_ret].
    destruct (present' && overwrite) eqn:E; [|apply keeps_ret].
    apply andb_prop in E as [_ ->]. apply keeps_rmtree. intros q Hq. by right.
  - intros dir. destruct (fetch_messages connection h); [apply keeps_raise|].
    apply keeps_bind; [apply keeps_open_w; by left|]. intros _.
    apply keeps_bind; [apply keeps_write_rows; by left|]. intros _. apply keeps_ret.
Qed.

Lemma export_for_contact_existing (connection : connection) (h : string)
    (output_dir : Path) (root : option Path) (media : bool) (fs : filesystem) :
  Fs.present fs (output_dir // (sanitize_filename h +:+ ".txt")) = true →
  export_for_contact connection h output_dir root media false fs
  = (Raise FileExistsError, fs).
Proof.
  intros Hp. unfold export_for_contact. unfold mbind at 1, io_bind at 1.
  by rewrite ensure_output_path_existing.
Qed.

(** Without overwriting, nothing that exists is touched. *)
Lemma keeps_export_for_contact_all (connection : connection) (h : string)
    (output_dir : Path) (root : option Path) (media : bool) :
  keeps_outside (λ _, False)
    (export_for_contact connection h output_dir root media false).
Proof.
  intros fs o fs' q x Hrun _ Hq.
  destruct (decide (q = output_dir // (sanitize_filename h +:+ ".txt"))) as [->|Hne].
  - rewrite export_for_contact_existing in Hrun; [congruence|].
    unfold Fs.present. by rewrite Hq.
  - eapply keeps_export_for_contact; [exact Hrun| |exact Hq].
    by intros [->|[? _]].
Qed.



(** ** The transcript that is written *)

Lemma write_present (p : Path) (data content : string) (fs : filesystem) :
  fs !! p = Some (File content) →
  Fs.write p data fs = (Ok (), <[p := File (content +:+ data)]> fs).
Proof. unfold Fs.write. by intros ->. Qed.

Lemma open_w_inv (p : Path) (fs fs' : filesystem) :
  Fs.open_w p fs = (Ok (), fs') → fs' = <[p := File ""]> fs.
Proof. unfold Fs.open_w. destruct (Fs.writable fs p); by intros [= <-]. Qed.

Lemma copy2_parent (src dst : Path) (fs fs' : filesystem) :
  Fs.copy2 src dst fs = (Ok (), fs') → fs !! dst = None →
  fs !! Pathlib.parent dst = Some Dir.
Proof.
  unfold Fs.copy2. intros H Hdst. rewrite Hdst in H. cbv zeta in H.
  case_decide; [done|].
  destruct (fs !! src) as [[content|]|]; try done.
  unfold Fs.writable in H. by destruct (fs !! Pathlib.parent dst) as [[c|]|].
Qed.

Lemma attachment_of_vacant (V1 V2 : Path → Prop) (fs' : filesystem) (text_path d : Path)
    (root : option Path) (media : bool) (row : Row) (made : option (Path * Path)) :
  (∀ q, V1 q → V2 q) →
  attachment_of V1 fs' text_path d root media row made →
  attachment_of V2 fs' text_path d root media row made.
Proof.
  intros HV. destruct made as [[source destination]|]; cbn [attachment_of].
  - intros (Hm & r & content & Hr & Hc & Hcase & Hv & Hrest). split; [done|].
    exists r, content. split; [done|]. split; [done|]. split; [done|]. split; [auto|done].
  - intros H r c Hm Hr Hc. apply HV. by eapply H.
Qed.

(** One entry per row, after what the file held when the rows were begun;
    what was done for the attachment of each row; no two copies at one
    path. *)
Lemma write_rows_trace (text_path d : Path) (h : string) (dir root : option Path)
    (media : bool) (rows : list Row) (fs fs' : filesystem) (content : string) :
  (media = true → dir = Some d) →
  fs !! text_path = Some (File content) →
  write_rows text_path rows h dir root media fs = (Ok (), fs') →
  ∃ made entries,
    Forall3 (entry_of h media) rows made entries
    ∧ fs' !! text_path = Some (File (content +:+ entries_text entries))
    ∧ Forall2 (attachment_of (λ q, fs !! q = None) fs' text_path d root media) rows made
    ∧ distinct_copies d rows made.
Proof.
  intros Hdir. revert fs content. induction rows as [|row rows IH]; intros fs content Hfile;
    cbn [write_rows].
  - intros [= <-]. exists [], []. split; [constructor|].
    split; [cbn [entries_text]; by rewrite app_empty_r|]. split; [constructor|].
    intros i j row1 row2 s1 d1 s2 d2 _ Hi. by rewrite lookup_nil in Hi.
  - unfold mbind at 1, io_bind at 1.
    destruct (format_message row h dir root media fs) as [[[line atts]|e] fs1] eqn:Hfm;
      [|done].
    assert (∀ q x, fs !! q = Some x → fs1 !! q = Some x) as Hkeep1.
    { intros q x Hq. eapply (keeps_format_message (λ _, False)); [exact Hfm|tauto|exact Hq]. }
    pose proof (Hkeep1 _ _ Hfile) as Hfile1.
    unfold mbind at 1, io_bind at 1. cbn [fst].
    rewrite (write_present _ _ _ _ Hfile1). intros Hrest.
    destruct (IH _ _ (lookup_insert_eq _ _ _) Hrest)
      as (made & entries & Hentries & Hcontent & Hatts & Hapart).
    assert (∀ q x, q ≠ text_path → fs1 !! q = Some x → fs' !! q = Some x) as Hkeepw.
    { intros q x Hq Hx. eapply (keeps_write_rows (λ q, q = text_path));
        [done|exact Hrest|done|]. by rewrite lookup_insert_ne. }
    assert (∀ q, is_Some (fs1 !! q) →
                 is_Some (<[text_path := File (content +:+ line +:+ LF)]> fs1 !! q)) as Hpres.
    { intros q Hq. destruct (decide (q = text_path)) as [->|Hne].
      - rewrite lookup_insert_eq. by eexists.
      - by rewrite lookup_insert_ne. }
    assert (∀ q, <[text_path := File (content +:+ line +:+ LF)]> fs1 !! q = None →
                 fs !! q = None) as Hmono.
    { intros q Hq. destruct (fs !! q) as [x|] eqn:E; [|done].
      destruct (Hpres q) as [y Hy]; [by exists x; apply Hkeep1|congruence]. }
    assert (Forall2 (attachment_of (λ q, fs !! q = None) fs' text_path d root media)
              rows made) as Hatts'.
    { eapply Forall2_impl; [exact Hatts|]. intros row' made'.
      apply attachment_of_vacant. exact Hmono. }
    assert (fs' !! text_path
            = Some (File (content +:+ entries_text (line :: entries)))) as Hcontent'.
    { rewrite Hcontent. cbn [entries_text]. by rewrite !app_assoc_text. }
    destruct (format_message_inv _ _ _ _ _ _ _ _ _ Hfm) as (timestamp & Hts & Hcase).
    destruct (attempted fs row dir root media) as [src|] eqn:Hatt.
    + destruct Hcase as (d0 & fs0 & destination & c & Hd0 & Hmk & Hfree & Hfresh & Hsrc
                         & Hfs1 & _ & Hline).
      destruct (attempted_recorded _ _ _ _ _ _ Hatt)
        as (Hrec & Hm & Hp & d' & r & _ & Hr & Hcand).
      subst media root. rewrite (Hdir eq_refl) in Hd0, Hatt, Hfm. injection Hd0 as <-.
      rewrite (format_message_copy _ _ _ _ _ _ _ _ _ Hts Hatt Hmk Hfree) in Hfm.
      destruct (Fs.copy2 src destination fs0) as [[[]|e] fs2] eqn:Hcopy; [|done].
      pose proof (copy2_parent _ _ _ _ Hcopy Hfresh) as Hparent.
      pose proof (mkdir_parents_keeps _ _ _ _ _ _ Hmk Hfile) as Hfile0.
      assert (destination ≠ text_path) as Hne1 by congruence.
      assert (Pathlib.parent destination ≠ text_path) as Hne2 by congruence.
      assert (Pathlib.parent destination ≠ destination) as Hne3 by congruence.
      assert (src ≠ destination) as Hne4 by congruence.
      assert (fs !! destination = None) as Hvacant.
      { destruct (fs !! destination) as [x|] eqn:E; [|done].
        rewrite (mkdir_parents_keeps _ _ _ _ _ _ Hmk E) in Hfresh. done. }
      apply free_destination_inv in Hfree as (_ & _ & Hnum).
      set (D := first_destination d row src) in *.
      assert (is_Some (<[text_path := File (content +:+ line +:+ LF)]> fs1 !! D)) as HD.
      { apply Hpres. rewrite Hfs1. destruct Hnum as [->|[HDp _]].
        - rewrite lookup_insert_eq. by eexists.
        - unfold Fs.present in HDp. destruct (fs0 !! D) as [x|] eqn:E; [|done].
          destruct (decide (D = destination)) as [->|Hne]; [congruence|].
          rewrite lookup_insert_ne by done. by eexists. }
      assert (is_Some (<[text_path := File (content +:+ line +:+ LF)]> fs1 !! destination))
        as Hdest.
      { apply Hpres. rewrite Hfs1, lookup_insert_eq. by eexists. }
      exists (Some (src, destination) :: made), (line :: entries).
      split; [constructor; [|done]; exists timestamp; by split|].
      split; [done|]. split.
      * constructor; [|done]. cbn [attachment_of]. split; [done|].
        exists r, c. split; [done|]. split; [done|].
        split; [destruct Hnum as [->|[_ (k & Hk & ->)]]; [by left|right; by exists k]|].
        split; [done|].
        split; [apply Hkeepw; [done|]; rewrite Hfs1; apply lookup_insert_eq|].
        split; [apply Hkeepw; [done|]; rewrite Hfs1; by rewrite lookup_insert_ne|].
        intros Hne5. apply Hkeepw; [done|]. rewrite Hfs1. by rewrite lookup_insert_ne.
      * intros i j row1 row2 s1 d1 s2 d2 Hij Hi Hj Hmi Hmj.
        destruct j as [|j]; [lia|]. destruct i as [|i].
        -- cbn in Hi, Hj, Hmi, Hmj. injection Hi as <-. injection Hmi as <- <-.
           pose proof (Forall2_lookup_lr _ _ _ _ _ _ Hatts Hj Hmj) as Hat2.
           cbn [attachment_of] in Hat2.
           destruct Hat2 as (_ & r2 & c2 & _ & _ & Hnum2 & Hvac2 & _).
           split.
           ++ intros <-. destruct Hdest as [x Hx]. congruence.
           ++ intros Hsame. destruct Hnum2 as [->|Hk]; [|done].
              exfalso. fold D in Hsame. rewrite <-Hsame in Hvac2.
              destruct HD as [x Hx]. congruence.
        -- cbn in Hi, Hj, Hmi, Hmj. apply (Hapart i j row1 row2 s1 d1 s2 d2); [lia|done..].
    + destruct Hcase as [-> Hcase].
      exists (None :: made), (line :: entries).
      split.
      { constructor; [|done]. exists timestamp. split; [done|]. cbn [note_of].
        destruct (Text.nonempty (filename row) && media); destruct Hcase as [_ ->];
          [done|by rewrite app_empty_r]. }
      split; [done|]. split.
      * constructor; [|done]. cbn [attachment_of]. intros r c0 Hm Hr Hc.
        subst media root. unfold attempted in Hatt. rewrite (Hdir eq_refl) in Hatt.
        apply list_elem_of_In in Hc.
        pose proof (List.find_none _ _ Hatt c0 Hc) as Hp. unfold Fs.present in Hp.
        by destruct (fs !! c0).
      * intros i j row1 row2 s1 d1 s2 d2 Hij Hi Hj Hmi Hmj.
        destruct j as [|j]; [lia|]. destruct i as [|i]; [done|].
        cbn in Hi, Hj, Hmi, Hmj. apply (Hapart i j row1 row2 s1 d1 s2 d2); [lia|done..].
Qed.

(** The steps of [export_for_contact] up to the rows. *)
Lemma export_for_contact_steps (connection : connection) (h : string) (output_dir : Path)
    (root : option Path) (media overwrite : bool) (fs fs' : filesystem) (p : Path) :
  export_for_contact connection h output_dir root media overwrite fs = (Ok p, fs') →
  p = output_dir // (sanitize_filename h +:+ ".txt")
  ∧ fetch_messages connection h ≠ []
  ∧ ∃ fs2 dir,
      (media = true → dir = Some (attachments_dir_of output_dir h))
      ∧ (∀ q, fs2 !! q = None → vacant fs overwrite (attachments_dir_of output_dir h) q)
      ∧ write_rows p (fetch_messages connection h) h dir root media (<[p := File ""]> fs2)
        = (Ok (), fs').
Proof.
  unfold export_for_contact. cbv zeta.
  set (text_path := output_dir // (sanitize_filename h +:+ ".txt")).
  fold (attachments_dir_of output_dir h).
  set (attachments_dir := attachments_dir_of output_dir h).
  unfold mbind at 1, io_bind at 1.
  destruct (ensure_output_path text_path overwrite fs) as [[[]|e] fs1] eqn:Hens; [|done].
  assert (∀ q, fs1 !! q = None → fs !! q = None) as Hmono1.
  { intros q Hq. destruct (fs !! q) as [x|] eqn:E; [|done].
    rewrite (keeps_ensure_output_path (λ _, False) _ _ _ _ _ _ _ Hens (λ H, H) E) in Hq.
    done. }
  unfold mbind at 1, io_bind at 1.
  match goal with
  | |- context [match ?c fs1 with _ => _ end] =>
      destruct (c fs1) as [[dir|e] fs2] eqn:Hblock
  end; [|done].
  assert ((media = true → dir = Some attachments_dir)
          ∧ ∀ q, fs2 !! q = None → vacant fs overwrite attachments_dir q) as [Hdir Hvac].
  { destruct media.
    - unfold mbind, io_bind, Fs.exists_ in Hblock.
      destruct (Fs.present fs1 attachments_dir) eqn:Hp, overwrite; cbn [andb negb] in Hblock;
        rewrite ?Hp in Hblock; cbn [andb negb] in Hblock.
      + destruct (Fs.rmtree attachments_dir fs1) as [[[]|e] fs3] eqn:Hrm; [|done].
        injection Hblock as <- <-. split; [done|]. intros q Hq.
        destruct (rmtree_removes _ q _ _ Hrm) as [_ Hq']. rewrite Hq' in Hq.
        destruct (decide (Fs.under attachments_dir q)); [by right|left; by apply Hmono1].
      + done.
      + injection Hblock as <- <-. split; [done|]. intros q Hq. left. by apply Hmono1.
      + injection Hblock as <- <-. split; [done|]. intros q Hq. left. by apply Hmono1.
    - injection Hblock as <- <-. split; [done|]. intros q Hq. left. by apply Hmono1. }
  destruct (fetch_messages connection h) as [|row rows] eqn:Hrows; [done|].
  unfold mbind at 1, io_bind at 1.
  destruct (Fs.open_w text_path fs2) as [[[]|e] fs3] eqn:Hopen; [|done].
  apply open_w_inv in Hopen as ->.
  unfold mbind at 1, io_bind at 1.
  destruct (write_rows text_path (row :: rows) h dir root media _) as [[[]|e] fs4] eqn:Hw;
    [|done].
  intros [= <- <-]. split; [done|]. split; [done|]. by exists fs2, dir.
Qed.

(** The export of a contact that returns, row by row. *)
Lemma export_for_contact_trace (connection : connection) (h : string) (output_dir : Path)
    (root : option Path) (media overwrite : bool) (fs fs' : filesystem) (p : Path) :
  export_for_contact connection h output_dir root media overwrite fs = (Ok p, fs') →
  p = output_dir // (sanitize_filename h +:+ ".txt")
  ∧ fetch_messages connection h ≠ []
  ∧ ∃ made entries,
      Forall3 (entry_of h media) (fetch_messages connection h) made entries
      ∧ fs' !! p = Some (File (entries_text entries))
      ∧ Forall2 (attachment_of (vacant fs overwrite (attachments_dir_of output_dir h)) fs' p
                   (attachments_dir_of output_dir h) root media)
          (fetch_messages connection h) made
      ∧ distinct_copies (attachments_dir_of output_dir h) (fetch_messages connection h) made.
Proof.
  intros (Hp & Hrows & fs2 & dir & Hdir & Hvac & Hw)%export_for_contact_steps.
  split; [done|]. split; [done|].
  apply (write_rows_trace _ (attachments_dir_of output_dir h) _ _ _ _ _ _ _ "") in Hw;
    [|done|apply lookup_insert_eq].
  destruct Hw as (made & entries & Hentries & Hcontent & Hatts & Hapart).
  exists made, entries. split; [done|]. split; [by rewrite app_empty in Hcontent|].
  split; [|done].
  eapply Forall2_impl; [exact Hatts|]. intros row made'. apply attachment_of_vacant.
  intros q Hq. apply Hvac. destruct (decide (q = p)) as [->|Hne].
  - by rewrite lookup_insert_eq in Hq.
  - by rewrite lookup_insert_ne in Hq.
Qed.

(** X14: when the export of a contact returns, it returns the path of the
    transcript, the contact has at least one row, and the transcript holds
    exactly one entry per fetched row, in the order of the rows, each ended
    by a line feed, and nothing else (whatever it held before is gone).  An
    entry is the text of its row followed by its note: the name of the copy
    made for the row, or, without a copy, the not-found note when the row
    records a file name and media export is on.  A copy is made only with
    media export on and an attachments root given: its source is a candidate
    of the row, its destination is the first destination of the row or a
    numbered variant of it in the attachments directory, nothing stood there
    when the rows were begun, and at the end it is a file in a directory,
    holding what its source holds.  Where no copy was made although
    resolution was attempted, no candidate of the row existed. *)
Theorem export_for_contact_transcript (connection : connection) (handle_identifier : string)
    (output_dir : Path) (attachments_root : option Path) (include_media overwrite : bool)
    (fs fs' : filesystem) (p : Path) :
  export_for_contact connection handle_identifier output_dir attachments_root
    include_media overwrite fs = (Ok p, fs') →
  p = output_dir // (sanitize_filename handle_identifier +:+ ".txt")
  ∧ fetch_messages connection handle_identifier ≠ []
  ∧ ∃ made entries,
      Forall3 (entry_of handle_identifier include_media)
        (fetch_messages connection handle_identifier) made entries
      ∧ fs' !! p = Some (File (entries_text entries))
      ∧ Forall2
          (attachment_of
             (vacant fs overwrite
                (output_dir // (sanitize_filename handle_identifier +:+ "_attachments")))
             fs' p
             (output_dir // (sanitize_filename handle_identifier +:+ "_attachments"))
             attachments_root include_media)
          (fetch_messages connection handle_identifier) made.
Proof.
  intros (Hp & Hrows & made & entries & Hentries & Hcontent & Hatts & _)%export_for_contact_trace.
  split; [done|]. split; [done|]. by exists made, entries.
Qed.

Lemma export_for_contact_transcript_witness :
  (∃ made entries,
     Forall3 (entry_of "+491701234567" true)
       (fetch_messages sample_connection "+491701234567") made entries
     ∧ (export_for_contact sample_connection "+491701234567" sample_output_dir
          (Some sample_root) true false sample_fs).2
       !! Pathlib.parse "/out/_491701234567.txt"
       = Some (File (entries_text entries))
     ∧ Forall2
         (attachment_of
            (vacant sample_fs false
               (sample_output_dir // (sanitize_filename "+491701234567" +:+ "_attachments")))
            (export_for_contact sample_connection "+491701234567" sample_output_dir
               (Some sample_root) true false sample_fs).2
            (Pathlib.parse "/out/_491701234567.txt")
            (sample_output_dir // (sanitize_filename "+491701234567" +:+ "_attachments"))
            (Some sample_root) true)
         (fetch_messages sample_connection "+491701234567") made)
  ∧ (export_for_contact sample_connection "+491701234567" sample_output_dir
       (Some sample_root) true false sample_fs).2
    !! Pathlib.parse "/out/_491701234567_attachments/photo_1.jpg"
    = Some (File "JPEG-2").
Proof.
  split; [|vm_compute; reflexivity].
  refine (proj2 (proj2 (export_for_contact_transcript sample_connection "+491701234567"
                          sample_output_dir (Some sample_root) true false sample_fs
                          (export_for_contact sample_connection "+491701234567"
                             sample_output_dir (Some sample_root) true false sample_fs).2
                          (Pathlib.parse "/out/_491701234567.txt") _))).
  apply outcome_with_state. vm_compute. reflexivity.
Defined.

(** ** Two attachments with one destination name *)




Lemma write_rows_plain (text_path : Path) (h : string) (dir root : option Path)
    (rows : list Row) (fs : filesystem) (content : string) :
  fs !! text_path = Some (File content) →
  write_rows text_path rows h dir root false fs
  = (match (plain_transcript h rows).2 with None => Ok () | Some e => Raise e end,
     <[text_path := File (content +:+ (plain_transcript h rows).1)]> fs).
Proof.
  revert fs content. induction rows as [|row rows IH]; intros fs content Hfile;
    cbn [write_rows plain_transcript].
  - cbn [fst snd]. by rewrite app_empty_r, insert_id.
  - unfold mbind at 1, io_bind at 1. rewrite format_message_plain.
    destruct (apple_timestamp_to_datetime (date row)) as [timestamp|e].
    + unfold mbind at 1, io_bind at 1. cbn [fst snd].
      rewrite (write_present _ _ _ _ Hfile).
      rewrite (IH _ _ (lookup_insert_eq _ _ _)).
      by rewrite insert_insert_eq, !app_assoc_text.
    + cbn [fst snd]. by rewrite app_empty_r, insert_id.
Qed.

(** The run without media export, from a prepared output directory. *)
Lemma export_for_contact_plain_run (connection : connection) (handle_identifier : string)
    (output_dir : Path) (attachments_root : option Path) (overwrite : bool)
    (fs : filesystem) :
  fs !! output_dir = Some Dir →
  fs !! (output_dir // (sanitize_filename handle_identifier +:+ ".txt")) ≠ Some Dir →
  overwrite = true
  ∨ fs !! (output_dir // (sanitize_filename handle_identifier +:+ ".txt")) = None →
  fetch_messages connection handle_identifier ≠ [] →
  export_for_contact connection handle_identifier output_dir attachments_root false
    overwrite fs
  = (match (plain_transcript handle_identifier
              (fetch_messages connection handle_identifier)).2 with
     | None => Ok (output_dir // (sanitize_filename handle_identifier +:+ ".txt"))
     | Some e => Raise e
     end,
     <[output_dir // (sanitize_filename handle_identifier +:+ ".txt")
       := File (plain_transcript handle_identifier
                  (fetch_messages connection handle_identifier)).1]> fs).
Proof.
  intros Hout Hfile Hfree Hrows. unfold export_for_contact. cbv zeta.
  set (text_path := output_dir // (sanitize_filename handle_identifier +:+ ".txt")) in *.
  assert (Pathlib.parent text_path = output_dir) as Hparent by apply text_path_parent.
  assert (ensure_output_path text_path overwrite fs = (Ok (), fs)) as Hens.
  { unfold ensure_output_path, mbind, io_bind, Fs.exists_, Fs.present.
    destruct Hfree as [->| ->]; rewrite ?andb_false_r; cbn [andb];
      rewrite Hparent; by apply mkdir_parents_existing. }
  unfold mbind at 1, io_bind at 1. rewrite Hens.
  unfold mbind at 1, io_bind at 1. cbn [mret io_ret].
  destruct (fetch_messages connection handle_identifier) as [|row rows]; [done|].
  assert (Fs.open_w text_path fs = (Ok (), <[text_path := File ""]> fs)) as Hopen.
  { unfold Fs.open_w, Fs.writable. rewrite Hparent, Hout.
    by destruct (fs !! text_path) as [[c|]|]. }
  unfold mbind at 1, io_bind at 1. rewrite Hopen.
  unfold mbind at 1, io_bind at 1.
  rewrite (write_rows_plain text_path handle_identifier None attachments_root
             (row :: rows) _ "" (lookup_insert_eq _ _ _)).
  rewrite insert_insert_eq, app_empty.
  by destruct (plain_transcript handle_identifier (row :: rows)).2.
Qed.




(** X16: with media export on, the attachments directory of the contact
    already there and no overwriting, the export of the contact raises
    [FileExistsError] before looking at any message; with the output
    directory in place nothing at all has changed. *)
Theorem existing_attachments_dir_untouched (connection : connection)
    (handle_identifier : string) (output_dir : Path) (attachments_root : option Path)
    (fs : filesystem) :
  fs !! output_dir = Some Dir →
  Fs.present fs (output_dir // (sanitize_filename handle_identifier +:+ "_attachments"))
  = true →
  export_for_contact connection handle_identifier output_dir attachments_root true false fs
  = (Raise FileExistsError, fs).
Proof.
  intros Hout Hatt. unfold export_for_contact. cbv zeta.
  set (text_path := output_dir // (sanitize_filename handle_identifier +:+ ".txt")).
  assert (Pathlib.parent text_path = output_dir) as Hparent by apply text_path_parent.
  unfold mbind at 1, io_bind at 1.
  destruct (Fs.present fs text_path) eqn:Htext.
  - by rewrite ensure_output_path_existing.
  - assert (ensure_output_path text_path false fs = (Ok (), fs)) as ->.
    { unfold ensure_output_path, mbind, io_bind, Fs.exists_. rewrite Htext. cbn [andb].
      rewrite Hparent. by apply mkdir_parents_existing. }
    unfold mbind, io_bind, Fs.exists_. by rewrite Hatt.
Qed.

Lemma existing_attachments_dir_untouched_witness :
  export_for_contact sample_connection "+491701234567" sample_output_dir (Some sample_root)
    true false
    (<[Pathlib.parse "/out/_491701234567_attachments" := Dir]> sample_fs)
  = (Raise FileExistsError,
     <[Pathlib.parse "/out/_491701234567_attachments" := Dir]> sample_fs).
Proof.
  apply (existing_attachments_dir_untouched sample_connection "+491701234567"
           sample_output_dir (Some sample_root)).
  - vm_compute. reflexivity.
  - vm_compute. reflexivity.
Defined.

(** ** A run over several contacts *)

Lemma export_chats_from_cons (exported : list Path) (connection : connection)
    (root : option Path) (h : string) (contacts : list string) (output_dir : Path)
    (media overwrite : bool) (fs : filesystem) :
  export_chats_from exported connection root (h :: contacts) output_dir media overwrite fs
  = match export_for_contact connection h output_dir root media overwrite fs with
    | (Ok p, fs1) =>
        export_chats_from (exported ++ [p]) connection root contacts output_dir media
          overwrite fs1
    | (Raise e, fs1) => (Raise e, fs1)
    end.
Proof. reflexivity. Qed.

Lemma export_chats_from_app (exported : list Path) (connection : connection)
    (root : option Path) (before after : list string) (output_dir : Path)
    (media overwrite : bool) (fs : filesystem) :
  export_chats_from exported connection root (before ++ after) output_dir media overwrite fs
  = match export_chats_from exported connection root before output_dir media overwrite fs with
    | (Ok exported, fs1) =>
        export_chats_from exported connection root after output_dir media overwrite fs1
    | (Raise e, fs1) => (Raise e, fs1)
    end.
Proof.
  revert exported fs. induction before as [|h before IH]; intros exported fs; [done|].
  rewrite <-app_comm_cons, !export_chats_from_cons.
  destruct (export_for_contact connection h output_dir root media overwrite fs)
    as [[p|e] fs1]; [apply IH|done].
Qed.

Lemma last_char_app (s t : string) : t ≠ "" → last_char (s +:+ t) = last_char t.
Proof.
  intros Ht. induction s as [|c s IH]; [done|].
  rewrite app_cons. cbn [last_char]. rewrite IH.
  destruct t as [|d t]; [done|]. cbn [last_char]. by destruct (last_char t).
Qed.

(** No transcript lies in an attachments directory, of whatever contact. *)
Lemma text_path_not_in_attachments (output_dir : Path) (h h' : string) :
  ¬ Fs.under (attachments_dir_of output_dir h') (text_path_of output_dir h).
Proof.
  unfold attachments_dir_of, text_path_of.
  rewrite text_path_parts, attachments_dir_parts. intros [_ Hpre]. cbn [parts] in Hpre.
  apply prefix_app_inv in Hpre. destruct Hpre as [k Hk]. injection Hk as Hk _.
  apply (f_equal last_char) in Hk. rewrite !last_char_app in Hk by done.
  discriminate Hk.
Qed.

Lemma export_for_contact_file (connection : connection) (h : string) (output_dir : Path)
    (root : option Path) (media overwrite : bool) (fs fs' : filesystem) (p : Path) :
  export_for_contact connection h output_dir root media overwrite fs = (Ok p, fs') →
  p = text_path_of output_dir h ∧ is_file fs' (text_path_of output_dir h).
Proof.
  intros (Hp & _ & made & entries & _ & Hcontent & _)%export_for_contact_trace.
  split; [done|]. unfold text_path_of. rewrite <-Hp. by eexists.
Qed.

(** A transcript that is there is still a file after another export. *)
Lemma export_for_contact_files_stay (connection : connection) (h h0 : string)
    (output_dir : Path) (root : option Path) (media overwrite : bool)
    (fs fs' : filesystem) (p : Path) :
  export_for_contact connection h output_dir root media overwrite fs = (Ok p, fs') →
  is_file fs (text_path_of output_dir h0) → is_file fs' (text_path_of output_dir h0).
Proof.
  intros Hrun [content Hfile].
  destruct (decide (text_path_of output_dir h0 = text_path_of output_dir h)) as [->|Hne].
  - by apply export_for_contact_file in Hrun as [_ ?].
  - exists content. eapply keeps_export_for_contact; [exact Hrun| |exact Hfile].
    intros [?|(_ & _ & Hu)]; [done|]. by apply text_path_not_in_attachments in Hu.
Qed.

Lemma export_chats_from_files (connection : connection) (root : option Path)
    (output_dir : Path) (media overwrite : bool) (contacts : list string)
    (exported ps : list Path) (fs fs' : filesystem) :
  export_chats_from exported connection root contacts output_dir media overwrite fs
  = (Ok ps, fs') →
  ps = exported ++ (text_path_of output_dir <$> contacts)
  ∧ (∀ h, is_file fs (text_path_of output_dir h) → is_file fs' (text_path_of output_dir h))
  ∧ (∀ h, h ∈ contacts → is_file fs' (text_path_of output_dir h)).
Proof.
  revert exported fs. induction contacts as [|h contacts IH]; intros exported fs.
  - intros [= <- <-]. rewrite app_nil_r. split; [done|]. split; [done|].
    by intros h ?%not_elem_of_nil.
  - rewrite export_chats_from_cons.
    destruct (export_for_contact connection h output_dir root media overwrite fs)
      as [[p|e] fs1] eqn:Hrun; [|done].
    intros (-> & Hstay & Hall)%IH.
    apply export_for_contact_file in Hrun as Hp. destruct Hp as [-> Hfile].
    split; [by rewrite <-app_assoc|]. split.
    + intros h0 Hh0. apply Hstay. by eapply export_for_contact_files_stay.
    + intros h0 [->|Hin]%elem_of_cons; [by apply Hstay|by apply Hall].
Qed.

(** X17: when a run returns, it returns the transcript paths of the contacts
    in the order they were given, one per contact (a contact given twice is
    listed twice), and at the end of the run a regular file stands at each of
    them. *)
Theorem export_chats_returns (connection : connection) (attachments_root : option Path)
    (contacts : list string) (output_dir : Path) (include_media overwrite : bool)
    (fs fs' : filesystem) (exported : list Path) :
  export_chats connection attachments_root contacts output_dir include_media overwrite fs
  = (Ok exported, fs') →
  exported
  = (λ handle_identifier, output_dir // (sanitize_filename handle_identifier +:+ ".txt"))
    <$> contacts
  ∧ ∀ p, p ∈ exported → ∃ content, fs' !! p = Some (File content).
Proof.
  intros (-> & _ & Hall)%export_chats_from_files. split; [done|].
  intros p (h & -> & Hh)%list_elem_of_fmap. by apply Hall.
Qed.

Lemma export_chats_returns_witness :
  [Pathlib.parse "/out/bob.txt"; Pathlib.parse "/out/_491701234567.txt"]
  = (λ handle_identifier, sample_output_dir // (sanitize_filename handle_identifier +:+ ".txt"))
    <$> ["bob"; "+491701234567"].
Proof.
  refine (proj1 (export_chats_returns sample_connection (Some sample_root)
                   ["bob"; "+491701234567"] sample_output_dir true false sample_fs
                   (export_chats sample_connection (Some sample_root)
                      ["bob"; "+491701234567"] sample_output_dir true false sample_fs).2
                   [Pathlib.parse "/out/bob.txt"; Pathlib.parse "/out/_491701234567.txt"]
                   _)).
  apply outcome_with_state. vm_compute. reflexivity.
Defined.

Lemma text_path_of_inj (output_dir : Path) (h h' : string) :
  text_path_of output_dir h = text_path_of output_dir h' →
  sanitize_filename h = sanitize_filename h'.
Proof.
  unfold text_path_of. rewrite !text_path_parts. intros [= H].
  apply app_inv_head in H. injection H as H. by apply app_inj_r in H.
Qed.

(** X18: a run stops at the first contact whose export raises: the run
    raises the same exception and ends in the file system that export left;
    the contacts after it are not looked at.  The transcripts of the contacts
    before it are as the run wrote them (unless overwriting is on and the
    failing contact has the same sanitized name). *)
Theorem export_chats_stops_at_failure (connection : connection)
    (attachments_root : option Path) (before after : list string)
    (handle_identifier : string) (output_dir : Path) (include_media overwrite : bool)
    (fs fs1 fs2 : filesystem) (exported : list Path) (e : exn) :
  export_chats connection attachments_root before output_dir include_media overwrite fs
  = (Ok exported, fs1) →
  export_for_contact connection handle_identifier output_dir attachments_root include_media
    overwrite fs1 = (Raise e, fs2) →
  export_chats connection attachments_root (before ++ handle_identifier :: after) output_dir
    include_media overwrite fs
  = (Raise e, fs2)
  ∧ ∀ h, h ∈ before →
         overwrite = false ∨ sanitize_filename h ≠ sanitize_filename handle_identifier →
         ∃ content,
           fs1 !! (output_dir // (sanitize_filename h +:+ ".txt")) = Some (File content)
           ∧ fs2 !! (output_dir // (sanitize_filename h +:+ ".txt")) = Some (File content).
Proof.
  intros Hbefore Hrun. split.
  - unfold export_chats in *. rewrite export_chats_from_app, Hbefore.
    by rewrite export_chats_from_cons, Hrun.
  - intros h Hh Hcase. apply export_chats_from_files in Hbefore as (_ & _ & Hall).
    destruct (Hall h Hh) as [content Hfile]. exists content. split; [exact Hfile|].
    destruct Hcase as [->|Hne].
    + eapply keeps_export_for_contact_all; [exact Hrun|tauto|exact Hfile].
    + eapply keeps_export_for_contact; [exact Hrun| |exact Hfile].
      intros [Heq|(_ & _ & Hu)].
      * by apply (text_path_of_inj output_dir h handle_identifier) in Heq.
      * by apply (text_path_not_in_attachments output_dir h handle_identifier) in Hu.
Qed.

Lemma export_chats_stops_at_failure_witness :
  export_chats sample_connection (Some sample_root) (["bob"] ++ "nobody" :: ["+491701234567"])
    sample_output_dir true false sample_fs
  = (Raise ValueError,
     (export_for_contact sample_connection "nobody" sample_output_dir (Some sample_root)
        true false
        (export_chats sample_connection (Some sample_root) ["bob"] sample_output_dir true
           false sample_fs).2).2).
Proof.
  refine (proj1 (export_chats_stops_at_failure sample_connection (Some sample_root)
                   ["bob"] ["+491701234567"] "nobody" sample_output_dir true false
                   sample_fs _ _ [Pathlib.parse "/out/bob.txt"] ValueError _ _)).
  - apply outcome_with_state. vm_compute. reflexivity.
  - apply outcome_with_state. vm_compute. reflexivity.
Defined.

Lemma export_chats_from_cons_Ok (exported ps : list Path) (connection : connection)
    (root : option Path) (h : string) (contacts : list string) (output_dir : Path)
    (media overwrite : bool) (fs fs' : filesystem) :
  export_chats_from exported connection root (h :: contacts) output_dir media overwrite fs
  = (Ok ps, fs') →
  ∃ p fs1,
    export_for_contact connection h output_dir root media overwrite fs = (Ok p, fs1)
    ∧ export_chats_from (exported ++ [p]) connection root contacts output_dir media
        overwrite fs1 = (Ok ps, fs').
Proof.
  rewrite export_chats_from_cons.
  destruct (export_for_contact connection h output_dir root media overwrite fs)
    as [[p|e] fs1]; [|done].
  intros H. by exists p, fs1.
Qed.

Lemma export_chats_from_app_Ok (exported ps : list Path) (connection : connection)
    (root : option Path) (before after : list string) (output_dir : Path)
    (media overwrite : bool) (fs fs' : filesystem) :
  export_chats_from exported connection root (before ++ after) output_dir media overwrite fs
  = (Ok ps, fs') →
  ∃ ps1 fs1,
    export_chats_from exported connection root before output_dir media overwrite fs
    = (Ok ps1, fs1)
    ∧ export_chats_from ps1 connection root after output_dir media overwrite fs1
      = (Ok ps, fs').
Proof.
  rewrite export_chats_from_app.
  destruct (export_chats_from exported connection root before output_dir media overwrite fs)
    as [[ps1|e] fs1]; [|done].
  intros H. by exists ps1, fs1.
Qed.

Lemma keeps_export_chats_from (touched : Path → Prop) (connection : connection)
    (root : option Path) (output_dir : Path) (media overwrite : bool)
    (contacts : list string) (exported : list Path) :
  (∀ h, h ∈ contacts →
        keeps_outside touched
          (export_for_contact connection h output_dir root media overwrite)) →
  keeps_outside touched
    (export_chats_from exported connection root contacts output_dir media overwrite).
Proof.
  revert exported. induction contacts as [|h contacts IH]; intros exported Hall;
    cbn [export_chats_from]; [apply keeps_ret|].
  apply keeps_bind; [apply Hall; by left|]. intros p. apply IH.
  intros h' Hh'. apply Hall. by right.
Qed.

(** X19: without overwriting, a run in which two contacts have the same
    sanitized name never returns.  If the run gets past the first of them and
    as far as the second, the transcript of the first is in the way: the
    export of the second raises [FileExistsError] without changing anything,
    and the run ends with that error in the file system the contacts before
    the second one left; otherwise the run has raised before.  (A contact
    given twice is the plainest case.) *)
Theorem export_chats_same_name_twice (connection : connection)
    (attachments_root : option Path) (first second : string)
    (before between after : list string) (output_dir : Path) (include_media : bool)
    (fs : filesystem) :
  sanitize_filename first = sanitize_filename second →
  (∃ e fs',
     export_chats connection attachments_root
       (before ++ first :: between ++ second :: after) output_dir include_media false fs
     = (Raise e, fs'))
  ∧ (∀ exported fs1,
       export_chats connection attachments_root (before ++ first :: between) output_dir
         include_media false fs
       = (Ok exported, fs1) →
       export_for_contact connection second output_dir attachments_root include_media false
         fs1
       = (Raise FileExistsError, fs1)
       ∧ export_chats connection attachments_root
           (before ++ first :: between ++ second :: after) output_dir include_media false fs
         = (Raise FileExistsError, fs1))
  ∧ (∀ e fs1,
       export_chats connection attachments_root (before ++ first :: between) output_dir
         include_media false fs
       = (Raise e, fs1) →
       export_chats connection attachments_root
         (before ++ first :: between ++ second :: after) output_dir include_media false fs
       = (Raise e, fs1)).
Proof.
  intros Hsame.
  assert (before ++ first :: between ++ second :: after
          = (before ++ first :: between) ++ second :: after) as Hsplit
    by by rewrite <-app_assoc.
  assert (∀ exported fs1,
            export_chats connection attachments_root (before ++ first :: between) output_dir
              include_media false fs
            = (Ok exported, fs1) →
            export_for_contact connection second output_dir attachments_root include_media
              false fs1
            = (Raise FileExistsError, fs1)) as Hsecond.
  { intros exported fs1 Hrun. unfold export_chats in Hrun.
    apply export_chats_from_app_Ok in Hrun as (ps1 & fs2 & _ & Hrun).
    apply export_chats_from_cons_Ok in Hrun as (p & fs3 & Hfirst & Hbetween).
    apply export_for_contact_file in Hfirst as [_ [content Hfile]].
    assert (fs1 !! text_path_of output_dir first = Some (File content)) as Hfile1.
    { eapply (keeps_export_chats_from (λ _, False)); [|exact Hbetween|tauto|exact Hfile].
      intros h _. apply keeps_export_for_contact_all. }
    apply export_for_contact_existing.
    unfold Fs.present. unfold text_path_of in Hfile1. by rewrite <-Hsame, Hfile1. }
  assert (∀ exported fs1,
            export_chats connection attachments_root (before ++ first :: between) output_dir
              include_media false fs
            = (Ok exported, fs1) →
            export_chats connection attachments_root
              (before ++ first :: between ++ second :: after) output_dir include_media false
              fs
            = (Raise FileExistsError, fs1)) as Hstop.
  { intros exported fs1 Hrun. rewrite Hsplit. unfold export_chats in *.
    rewrite export_chats_from_app, Hrun, export_chats_from_cons.
    by rewrite (Hsecond exported fs1 Hrun). }
  assert (∀ e fs1,
            export_chats connection attachments_root (before ++ first :: between) output_dir
              include_media false fs
            = (Raise e, fs1) →
            export_chats connection attachments_root
              (before ++ first :: between ++ second :: after) output_dir include_media false
              fs
            = (Raise e, fs1)) as Hearly.
  { intros e fs1 Hrun. rewrite Hsplit. unfold export_chats in *.
    by rewrite export_chats_from_app, Hrun. }
  split; [|split; [|exact Hearly]].
  - destruct (export_chats connection attachments_root (before ++ first :: between)
                output_dir include_media false fs) as [[exported|e] fs1] eqn:Hrun.
    + exists FileExistsError, fs1. by eapply Hstop.
    + exists e, fs1. by apply Hearly.
  - intros exported fs1 Hrun. split; [by eapply Hsecond | by eapply Hstop].
Qed.

Lemma export_chats_same_name_twice_witness :
  export_chats sample_connection None ([] ++ "bob" :: [] ++ " bob" :: ["+491701234567"])
    sample_output_dir false false sample_fs
  = (Raise FileExistsError,
     <[Pathlib.parse "/out/bob.txt" := File ("[2001-01-01 00:00:05] bob: other" +:+ LF)]>
       sample_fs).
Proof.
  refine (proj2 (proj1 (proj2 (export_chats_same_name_twice sample_connection None "bob"
                                 " bob" [] [] ["+491701234567"] sample_output_dir false
                                 sample_fs _))
                   [Pathlib.parse "/out/bob.txt"] _ _)).
  - vm_compute. reflexivity.
  - unfold export_chats. cbn [app export_chats_from]. unfold mbind at 1, io_bind at 1.
    rewrite (export_for_contact_plain_run sample_connection "bob" sample_output_dir None
               false sample_fs).
    + reflexivity.
    + vm_compute. reflexivity.
    + vm_compute. discriminate.
    + right. vm_compute. reflexivity.
    + vm_compute. discriminate.
Defined.



(** ** The name a copy gets *)






(** ** Running an export again *)

Lemma text_path_not_output_dir (output_dir : Path) (h : string) :
  output_dir // (sanitize_filename h +:+ ".txt") ≠ output_dir.
Proof.
  intros Heq. apply (text_path_not_above output_dir h). rewrite Heq. apply under_refl.
Qed.

(** X23: without media export and with overwriting on, exporting a contact
    again changes nothing: from a prepared output directory, the second run
    has the outcome of the first and leaves the file system the first run
    left. *)
Theorem export_for_contact_again (connection : connection) (handle_identifier : string)
    (output_dir : Path) (attachments_root : option Path) (fs : filesystem) :
  fs !! output_dir = Some Dir →
  fs !! (output_dir // (sanitize_filename handle_identifier +:+ ".txt")) ≠ Some Dir →
  fetch_messages connection handle_identifier ≠ [] →
  export_for_contact connection handle_identifier output_dir attachments_root false true
    (export_for_contact connection handle_identifier output_dir attachments_root false true
       fs).2
  = export_for_contact connection handle_identifier output_dir attachments_root false true fs.
Proof.
  intros Hout Hfile Hrows.
  rewrite (export_for_contact_plain_run connection handle_identifier output_dir
             attachments_root true fs) by auto.
  cbn [snd].
  rewrite export_for_contact_plain_run; [by rewrite insert_insert_eq| | |by left|done].
  - rewrite lookup_insert_ne; [done|]. apply text_path_not_output_dir.
  - by rewrite lookup_insert_eq.
Qed.

Lemma export_for_contact_again_witness :
  export_for_contact sample_connection "bob" sample_output_dir None false true
    (export_for_contact sample_connection "bob" sample_output_dir None false true
       sample_fs).2
  = export_for_contact sample_connection "bob" sample_output_dir None false true sample_fs.
Proof.
  apply (export_for_contact_again sample_connection "bob" sample_output_dir None sample_fs).
  - vm_compute. reflexivity.
  - vm_compute. discriminate.
  - vm_compute. discriminate.
Defined.

(** ** Nanosecond timestamps: the quotient in binary64 *)

Lemma Zdigits2_bounds (z : Z) :
  0 < z → 0 < Zdigits2 z ∧ 2 ^ (Zdigits2 z - 1) <= z < 2 ^ Zdigits2 z.
Proof.
  destruct z as [|p|p]; try lia. intros _. cbn [Zdigits2].
  induction p as [p IH|p IH|]; cbn [digits2_pos].
  - rewrite Pos2Z.inj_succ.
    replace (Z.succ (Z.pos (digits2_pos p)) - 1) with (Z.succ (Z.pos (digits2_pos p) - 1))
      by lia.
    rewrite !Z.pow_succ_r by lia. lia.
  - rewrite Pos2Z.inj_succ.
    replace (Z.succ (Z.pos (digits2_pos p)) - 1) with (Z.succ (Z.pos (digits2_pos p) - 1))
      by lia.
    rewrite !Z.pow_succ_r by lia. lia.
  - cbn. lia.
Qed.

Lemma Zdigits2_le (z k : Z) : 0 < z → z < 2 ^ k → Zdigits2 z <= k.
Proof.
  intros Hz Hk. destruct (Zdigits2_bounds z Hz) as [Hd [Hlo _]].
  destruct (Z.le_gt_cases (Zdigits2 z) k) as [|Hgt]; [done|].
  assert (2 ^ k <= 2 ^ (Zdigits2 z - 1)); [|lia].
  apply Z.pow_le_mono_r; lia.
Qed.

Lemma Zdigits2_ge (z k : Z) : 0 < z → 2 ^ (k - 1) <= z → k <= Zdigits2 z.
Proof.
  intros Hz Hk. destruct (Zdigits2_bounds z Hz) as [Hd [_ Hhi]].
  destruct (Z.le_gt_cases k (Zdigits2 z)) as [|Hgt]; [done|].
  assert (2 ^ Zdigits2 z <= 2 ^ (k - 1)); [|lia].
  apply Z.pow_le_mono_r; lia.
Qed.

Lemma shr_1_m (mrs : shr_record) : 0 <= shr_m mrs → shr_m (shr_1 mrs) = shr_m mrs / 2.
Proof.
  destruct mrs as [m r s]. cbn [shr_m]. intros Hm. rewrite <-Z.div2_div.
  destruct m as [|[p|p|]|]; try reflexivity. lia.
Qed.

Lemma iter_shr_1_m (p : positive) (mrs : shr_record) :
  0 <= shr_m mrs →
  shr_m (SpecFloat.iter_pos shr_1 p mrs) = shr_m mrs / 2 ^ Z.pos p.
Proof.
  revert mrs. induction p as [p IH|p IH|]; intros mrs Hm; cbn [SpecFloat.iter_pos].
  - assert (0 <= shr_m (shr_1 mrs)) as H1 by (rewrite shr_1_m by done; apply Z.div_pos; lia).
    assert (0 < 2 ^ Z.pos p) as Hp by (apply Z.pow_pos_nonneg; lia).
    assert (0 <= shr_m (SpecFloat.iter_pos shr_1 p (shr_1 mrs))) as H2
      by (rewrite IH by done; apply Z.div_pos; lia).
    assert (2 ^ Z.pos p~1 = 2 * (2 ^ Z.pos p * 2 ^ Z.pos p)) as ->.
    { rewrite <-Z.pow_add_r, <-Z.pow_succ_r by lia. f_equal. lia. }
    rewrite IH, IH, shr_1_m by done. rewrite !Z.div_div by lia. f_equal; lia.
  - assert (0 < 2 ^ Z.pos p) as Hp by (apply Z.pow_pos_nonneg; lia).
    assert (0 <= shr_m (SpecFloat.iter_pos shr_1 p mrs)) as H2
      by (rewrite IH by done; apply Z.div_pos; lia).
    assert (2 ^ Z.pos p~0 = 2 ^ Z.pos p * 2 ^ Z.pos p) as ->.
    { rewrite <-Z.pow_add_r by lia. f_equal. lia. }
    rewrite IH, IH by done. by rewrite !Z.div_div by lia.
  - by apply shr_1_m.
Qed.

Lemma shr_record_of_loc_m (m : Z) (l : location) : shr_m (shr_record_of_loc m l) = m.
Proof. by destruct l as [|[]]. Qed.

(** Shifting a mantissa of [d] digits to the 53 digits of binary64. *)
Lemma shr_fexp_m (m e : Z) (l : location) :
  0 < m → -1000 <= e →
  ∃ mrs,
    shr_fexp 53 1024 m e l = (mrs, e + Z.max (Zdigits2 m - 53) 0)
    ∧ shr_m mrs = m / 2 ^ Z.max (Zdigits2 m - 53) 0.
Proof.
  intros Hm He. destruct (Zdigits2_bounds m Hm) as [Hd _].
  unfold shr_fexp, fexp, emin.
  replace (Z.max (Zdigits2 m + e - 53) (3 - 1024 - 53) - e) with (Zdigits2 m - 53) by lia.
  unfold shr. destruct (Zdigits2 m - 53) as [|p|p] eqn:Hn.
  - eexists. split; [by rewrite Z.add_0_r|].
    rewrite shr_record_of_loc_m. cbn. by rewrite Z.div_1_r.
  - eexists. split; [reflexivity|].
    rewrite iter_shr_1_m by (rewrite shr_record_of_loc_m; lia).
    by rewrite shr_record_of_loc_m.
  - eexists. split; [by rewrite Z.add_0_r|].
    rewrite shr_record_of_loc_m. cbn. by rewrite Z.div_1_r.
Qed.

Lemma round_nearest_even_bounds (m : Z) (l : location) :
  m <= round_nearest_even m l <= m + 1.
Proof. destruct l as [|[]]; cbn [round_nearest_even]; try lia. destruct (Z.even m); lia. Qed.

(** Rounding a positive mantissa to binary64, well inside the exponent range:
    the result is a finite number whose mantissa has at most 53 digits, the
    exponent grows by the digits dropped, once more at most, and the value is
    less than one unit of the last digit away from the one rounded. *)
Lemma binary_round_aux_finite (s : bool) (mx ex : Z) (lx : location) :
  0 < mx → -1000 <= ex → ex + Zdigits2 mx <= 900 →
  ∃ m e,
    binary_round_aux 53 1024 s mx ex lx = S754_finite s m e
    ∧ Z.pos m <= 2 ^ 53
    ∧ (53 <= Zdigits2 mx → 2 ^ 52 <= Z.pos m)
    ∧ ex + Z.max (Zdigits2 mx - 53) 0 <= e <= ex + Z.max (Zdigits2 mx - 53) 0 + 1
    ∧ (Z.pos m - 1) * 2 ^ (e - ex) <= mx
    ∧ mx + 1 <= (Z.pos m + 1) * 2 ^ (e - ex).
Proof.
  intros Hm Hex Hhi. destruct (Zdigits2_bounds mx Hm) as [Hd [Hlo Hup]].
  unfold binary_round_aux.
  destruct (shr_fexp_m mx ex lx Hm Hex) as (mrs1 & -> & Hm1).
  set (n1 := Z.max (Zdigits2 mx - 53) 0) in *.
  assert (0 < 2 ^ n1) as Hn1 by (apply Z.pow_pos_nonneg; lia).
  assert (shr_m mrs1 * 2 ^ n1 <= mx < (shr_m mrs1 + 1) * 2 ^ n1) as Hfloor.
  { rewrite Hm1. pose proof (Z.mul_div_le mx (2 ^ n1) Hn1).
    pose proof (Z.mul_succ_div_gt mx (2 ^ n1) Hn1). lia. }
  assert (0 < shr_m mrs1 < 2 ^ 53
          ∧ (53 <= Zdigits2 mx → 2 ^ 52 <= shr_m mrs1)) as (Hm1b & Hm1lo).
  { rewrite Hm1. destruct (Z.le_gt_cases (Zdigits2 mx) 53) as [Hle|Hgt].
    - replace n1 with 0 by lia. rewrite Z.pow_0_r, Z.div_1_r. split.
      + split; [lia|]. eapply Z.lt_le_trans; [exact Hup|]. apply Z.pow_le_mono_r; lia.
      + intros ?. replace (Zdigits2 mx) with 53 in Hlo by lia. exact Hlo.
    - replace n1 with (Zdigits2 mx - 53) in * by lia.
      assert (2 ^ Zdigits2 mx = 2 ^ (Zdigits2 mx - 53) * 2 ^ 53) as E1
        by (rewrite <-Z.pow_add_r by lia; f_equal; lia).
      assert (2 ^ (Zdigits2 mx - 1) = 2 ^ (Zdigits2 mx - 53) * 2 ^ 52) as E2
        by (rewrite <-Z.pow_add_r by lia; f_equal; lia).
      assert (2 ^ 52 <= mx / 2 ^ (Zdigits2 mx - 53)) as Hq
        by (apply Z.div_le_lower_bound; lia).
      split; [|done]. split; [lia|].
      apply Z.div_lt_upper_bound; lia. }
  pose proof (round_nearest_even_bounds (shr_m mrs1) (loc_of_shr_record mrs1)) as Hr.
  set (m2 := round_nearest_even (shr_m mrs1) (loc_of_shr_record mrs1)) in *.
  assert (0 < m2) as Hm2 by lia.
  destruct (shr_fexp_m m2 (ex + n1) loc_Exact Hm2 ltac:(lia)) as (mrs2 & -> & Hm3).
  destruct (Zdigits2_bounds m2 Hm2) as [Hd2 [Hlo2 Hup2]].
  assert (Zdigits2 m2 <= 54) as Hd2le by (apply Zdigits2_le; [done|]; lia).
  set (n2 := Z.max (Zdigits2 m2 - 53) 0) in *.
  assert (0 < shr_m mrs2 <= 2 ^ 53
          ∧ (2 ^ 52 <= shr_m mrs1 → 2 ^ 52 <= shr_m mrs2)
          ∧ 0 <= n2 <= 1
          ∧ shr_m mrs2 * 2 ^ n2 = m2) as (Hm3b & Hm3lo & Hn2 & Hexact).
  { rewrite Hm3. destruct (Z.le_gt_cases (Zdigits2 m2) 53) as [Hle|Hgt].
    - replace n2 with 0 by lia. rewrite Z.pow_0_r, Z.div_1_r. lia.
    - replace n2 with 1 by lia. assert (Zdigits2 m2 = 54) as E by lia.
      rewrite E in Hlo2. change (2 ^ (54 - 1)) with (2 ^ 53) in Hlo2.
      assert (m2 = 2 ^ 53) as -> by lia.
      change (2 ^ 53 / 2 ^ 1) with (2 ^ 52). lia. }
  assert (1 <= 2 ^ n2) as Hpow2 by (assert (0 < 2 ^ n2) by (apply Z.pow_pos_nonneg; lia); lia).
  destruct (shr_m mrs2) as [|m|m] eqn:Em; try lia.
  destruct (Z.leb_spec (ex + n1 + n2) (1024 - 53)) as [_|Hbad]; [|lia].
  exists m, (ex + n1 + n2). split; [done|]. split; [lia|]. split.
  { intros H53. apply Hm3lo, Hm1lo, H53. }
  split; [lia|].
  replace (ex + n1 + n2 - ex) with (n1 + n2) by lia. rewrite Z.pow_add_r by lia.
  assert (Z.pos m * (2 ^ n1 * 2 ^ n2) = m2 * 2 ^ n1) as E by (rewrite <-Hexact; ring).
  assert (shr_m mrs1 * 2 ^ n1 <= m2 * 2 ^ n1 <= (shr_m mrs1 + 1) * 2 ^ n1) as Hm2b
    by (split; apply Z.mul_le_mono_nonneg_r; lia).
  assert (2 ^ n1 * 1 <= 2 ^ n1 * 2 ^ n2) as Hxy by (apply Z.mul_le_mono_nonneg_l; lia).
  split; lia.
Qed.

Lemma div_eucl_fst (a b : Z) : (Z.div_eucl a b).1 = a / b.
Proof. reflexivity. Qed.

(** A nanosecond count that fits a 64-bit integer, divided by 10^9: a finite
    float [m * 2^-k] of at least 2^9 seconds, less than one unit of its last
    digit away from the quotient. *)
Lemma truediv_nanoseconds (t : Z) :
  10 ^ 12 < t < 2 ^ 63 →
  ∃ m k,
    Py.truediv t 1000000000 = Ok (S754_finite false m (Z.neg k))
    ∧ 2 ^ 52 <= Z.pos m <= 2 ^ 53 ∧ 18 <= Z.pos k <= 43
    ∧ 1000000000 * (Z.pos m - 1) <= t * 2 ^ Z.pos k < 1000000000 * (Z.pos m + 1).
Proof.
  intros Ht. destruct t as [|p|p]; try lia.
  assert (0 < Z.pos p) as Hp by lia.
  destruct (Zdigits2_bounds (Z.pos p) Hp) as [_ [Hlo Hup]].
  assert (40 <= Zdigits2 (Z.pos p)) as Hd40.
  { apply Zdigits2_ge; [done|]. change (2 ^ (40 - 1)) with 549755813888. lia. }
  assert (Zdigits2 (Z.pos p) <= 63) as Hd63 by (apply Zdigits2_le; [done|lia]).
  unfold Py.truediv. change (1000000000 =? 0) with false. cbv iota.
  unfold Py.float_of_Z, SFdiv, SFdiv_core_binary.
  change (Zdigits2 1000000000) with 30.
  set (d1 := Zdigits2 (Z.pos p)) in *.
  assert (Z.min (fexp 53 1024 (d1 + 0 - (30 + 0))) (0 - 0) = d1 - 83) as ->
    by (unfold fexp, emin; lia).
  destruct (0 - 0 - (d1 - 83)) as [|s|s] eqn:Es; try lia.
  rewrite Z.shiftl_mul_pow2 by lia.
  assert (0 < 2 ^ Z.pos s) as Hs by (apply Z.pow_pos_nonneg; lia).
  assert (2 ^ 82 <= Z.pos p * 2 ^ Z.pos s < 2 ^ 83) as Hm'.
  { assert (2 ^ 83 = 2 ^ d1 * 2 ^ Z.pos s) as ->
      by (rewrite <-Z.pow_add_r by lia; f_equal; lia).
    assert (2 ^ 82 = 2 ^ (d1 - 1) * 2 ^ Z.pos s) as ->
      by (rewrite <-Z.pow_add_r by lia; f_equal; lia).
    split; [apply Z.mul_le_mono_nonneg_r; lia | apply Z.mul_lt_mono_pos_r; lia]. }
  pose proof (div_eucl_fst (Z.pos p * 2 ^ Z.pos s) 1000000000) as Hq.
  destruct (Z.div_eucl (Z.pos p * 2 ^ Z.pos s) 1000000000) as [q r]. cbn [fst] in Hq.
  assert (1000000000 * q <= Z.pos p * 2 ^ Z.pos s < 1000000000 * (q + 1)) as Hfloor.
  { rewrite Hq.
    pose proof (Z.mul_div_le (Z.pos p * 2 ^ Z.pos s) 1000000000 ltac:(lia)).
    pose proof (Z.mul_succ_div_gt (Z.pos p * 2 ^ Z.pos s) 1000000000 ltac:(lia)). lia. }
  assert (2 ^ 52 <= q < 2 ^ 54) as Hqb by lia.
  assert (0 < q) as Hq0 by lia.
  assert (53 <= Zdigits2 q <= 54) as Hdq.
  { split; [apply Zdigits2_ge; [done|]; change (2 ^ (53 - 1)) with (2 ^ 52); lia|].
    apply Zdigits2_le; [done|lia]. }
  destruct (binary_round_aux_finite (xorb false false) q (d1 - 83)
              (new_location 1000000000 r) Hq0 ltac:(lia) ltac:(lia))
    as (m & e & -> & Hm & Hmlo & He & Hbelow & Habove).
  destruct e as [|k|k]; try lia.
  exists m, k. split; [done|]. split; [split; [apply Hmlo; lia|done]|].
  split; [lia|].
  set (n := Z.neg k - (d1 - 83)) in *.
  assert (0 < 2 ^ n) as Hn by (apply Z.pow_pos_nonneg; lia).
  assert (2 ^ Z.pos s = 2 ^ Z.pos k * 2 ^ n) as Esplit
    by (rewrite <-Z.pow_add_r by lia; f_equal; lia).
  rewrite Esplit in Hfloor.
  assert (1000000000 * (Z.pos m - 1) * 2 ^ n <= Z.pos p * 2 ^ Z.pos k * 2 ^ n) as H1 by lia.
  assert (Z.pos p * 2 ^ Z.pos k * 2 ^ n < 1000000000 * (Z.pos m + 1) * 2 ^ n) as H2 by lia.
  apply Z.mul_le_mono_pos_r in H1; [|done]. apply Z.mul_lt_mono_pos_r in H2; [|done].
  done.
Qed.

Lemma round_half_even_near (m k : positive) :
  (Py.round_half_even (S754_finite false m (Z.neg k)) - 1) * 2 ^ Z.pos k <= Z.pos m
  ∧ Z.pos m + 1 <= (Py.round_half_even (S754_finite false m (Z.neg k)) + 1) * 2 ^ Z.pos k.
Proof.
  unfold Py.round_half_even.
  assert (0 < 2 ^ Z.pos k) as Hpow by (apply Z.pow_pos_nonneg; lia).
  rewrite Z.shiftr_div_pow2 by lia.
  pose proof (Z.mul_div_le (Z.pos m) (2 ^ Z.pos k) Hpow).
  pose proof (Z.mul_succ_div_gt (Z.pos m) (2 ^ Z.pos k) Hpow).
  destruct (_ ?= _); [destruct (Z.even _)|..]; lia.
Qed.

(** The microseconds of the fractional second [r * 2^-k]: less than two
    microseconds away from [10^6 * r * 2^-k]. *)
Lemma fraction_micros_near (m k : positive) :
  18 <= Z.pos k <= 43 →
  - (2 * 2 ^ Z.pos k)
  <= Py.round_half_even
       (SFmul 53 1024 (Py.float_of_Z 1000000) (Py.frac_finite false m (Z.neg k)))
     * 2 ^ Z.pos k
     - 1000000 * (Z.pos m mod 2 ^ Z.pos k)
  <= 2 * 2 ^ Z.pos k.
Proof.
  intros Hk. unfold Py.frac_finite, Py.float_of_Z.
  assert (0 < 2 ^ Z.pos k) as Hpow by (apply Z.pow_pos_nonneg; lia).
  rewrite (Z.land_ones (Z.pos m) (Z.pos k)) by lia.
  pose proof (Z.mod_pos_bound (Z.pos m) (2 ^ Z.pos k) Hpow) as Hmod.
  destruct (Z.pos m mod 2 ^ Z.pos k) as [|r|r]; try lia.
  - change (Py.round_half_even (SFmul 53 1024 (S754_finite false 1000000 0)
                                  (S754_zero false))) with 0. lia.
  - unfold SFmul.
    assert (0 < Z.pos (1000000 * r)) as Hpos by lia.
    assert (Zdigits2 (Z.pos (1000000 * r)) <= 20 + Z.pos k) as Hd.
    { apply Zdigits2_le; [done|]. rewrite Z.pow_add_r by lia.
      change (2 ^ 20) with 1048576. rewrite Pos2Z.inj_mul.
      assert (1000000 * Z.pos r <= 1000000 * 2 ^ Z.pos k) by lia. lia. }
    destruct (Zdigits2_bounds _ Hpos) as [Hd0 _].
    destruct (binary_round_aux_finite (xorb false false) (Z.pos (1000000 * r))
                (0 + Z.neg k) loc_Exact Hpos ltac:(lia) ltac:(lia))
      as (m3 & e3 & -> & Hm3 & _ & He3 & Hbelow & Habove).
    destruct e3 as [|k3|k3]; try lia. change (xorb false false) with false.
    destruct (round_half_even_near m3 k3) as [Hlo Hhi].
    set (us := Py.round_half_even (S754_finite false m3 (Z.neg k3))) in *.
    set (n := Z.neg k3 - (0 + Z.neg k)) in *.
    assert (0 < 2 ^ n) as Hn by (apply Z.pow_pos_nonneg; lia).
    assert (0 < 2 ^ Z.pos k3) as Hk3 by (apply Z.pow_pos_nonneg; lia).
    assert (2 ^ Z.pos k = 2 ^ Z.pos k3 * 2 ^ n) as ->
      by (rewrite <-Z.pow_add_r by lia; f_equal; lia).
    rewrite Pos2Z.inj_mul in *.
    assert ((us - 1) * 2 ^ Z.pos k3 * 2 ^ n <= Z.pos m3 * 2 ^ n) as H1
      by (apply Z.mul_le_mono_nonneg_r; lia).
    assert ((Z.pos m3 + 1) * 2 ^ n <= (us + 1) * 2 ^ Z.pos k3 * 2 ^ n) as H2
      by (apply Z.mul_le_mono_nonneg_r; lia).
    assert (2 ^ n * 1 <= 2 ^ n * 2 ^ Z.pos k3) as H3
      by (apply Z.mul_le_mono_nonneg_l; lia).
    lia.
Qed.

(** The nanosecond branch, for every count a 64-bit integer can hold. *)
Lemma apple_timestamp_nanoseconds_ok (t : Z) :
  10 ^ 12 < t < 2 ^ 63 →
  ∃ us,
    apple_timestamp_to_datetime (VInt t)
    = Ok (Some (mk_datetime (micros APPLE_EPOCH + us)))
    ∧ -6000 < 1000 * us - t < 6000.
Proof.
  intros Ht. rewrite apple_timestamp_nanoseconds by lia.
  destruct (truediv_nanoseconds t Ht) as (m & k & -> & Hm & Hk & Hquot).
  cbn [mbind outcome_bind]. unfold Datetime.of_float_seconds.
  pose proof (fraction_micros_near m k Hk) as Hus.
  set (us := Py.round_half_even _) in *.
  assert (2 ^ 18 <= 2 ^ Z.pos k) as Hpow by (apply Z.pow_le_mono_r; lia).
  change (2 ^ 18) with 262144 in Hpow.
  unfold Py.trunc_finite. rewrite Z.shiftr_div_pow2 by lia.
  pose proof (Z.div_mod (Z.pos m) (2 ^ Z.pos k) ltac:(lia)) as Hsplit.
  set (whole := Z.pos m / 2 ^ Z.pos k) in *.
  assert (-6000 * 2 ^ Z.pos k < (1000 * (whole * 1000000 + us) - t) * 2 ^ Z.pos k
          < 6000 * 2 ^ Z.pos k) as [Hlo Hhi] by lia.
  apply Z.mul_lt_mono_pos_r in Hlo; [|lia]. apply Z.mul_lt_mono_pos_r in Hhi; [|lia].
  unfold Datetime.normalized, Datetime.DAY.
  assert (0 <= (whole * 1000000 + us) / (86400 * 1000000) <= 999999999) as Hdays.
  { split; [apply Z.div_pos; lia|].
    apply Z.lt_succ_r, Z.div_lt_upper_bound; lia. }
  destruct (Z.gtb_spec (Z.abs ((whole * 1000000 + us) / (86400 * 1000000))) 999999999);
    [lia|].
  cbn [mbind outcome_bind]. rewrite add_epoch.
  destruct (Z.leb_spec (-63113904000000000) (whole * 1000000 + us)); [|lia].
  destruct (Z.ltb_spec (whole * 1000000 + us) 252423993600000000); [|lia].
  cbn [andb fmap outcome_fmap]. exists (whole * 1000000 + us). split; [reflexivity|]. lia.
Qed.

(** X24: every nanosecond timestamp that a 64-bit integer column can hold
    (above 10^12 and below 2^63) is converted without error, and to the
    right instant: the time returned lies less than six microseconds from
    the Apple epoch plus the given number of nanoseconds. *)
Theorem apple_timestamp_nanoseconds_close (t : Z) :
  10 ^ 12 < t < 2 ^ 63 →
  ∃ d, apple_timestamp_to_datetime (VInt t) = Ok (Some d)
       ∧ -6000 < 1000 * (micros d - micros APPLE_EPOCH) - t < 6000.
Proof.
  intros (us & Hrun & Hus)%apple_timestamp_nanoseconds_ok.
  exists (mk_datetime (micros APPLE_EPOCH + us)). split; [exact Hrun|].
  cbn [micros]. lia.
Qed.

Lemma apple_timestamp_nanoseconds_close_witness :
  ∃ d, apple_timestamp_to_datetime (VInt 700000000123456789) = Ok (Some d)
       ∧ -6000 < 1000 * (micros d - micros APPLE_EPOCH) - 700000000123456789 < 6000.
Proof. apply (apple_timestamp_nanoseconds_close 700000000123456789). lia. Defined.

(** ** Whole seconds, counted in nanoseconds *)

Lemma shr_1_exact (m : Z) :
  0 <= m → (2 | m) →
  shr_1 (Build_shr_record m false false) = Build_shr_record (m / 2) false false.
Proof.
  intros Hm [c Hc]. rewrite <-Z.div2_div.
  destruct m as [|[p|p|]|]; try reflexivity; lia.
Qed.

Lemma divide_pow_div (m a b : Z) :
  0 <= a → 0 <= b → (2 ^ (a + b) | m) → (2 ^ a | m) ∧ (2 ^ b | m / 2 ^ a).
Proof.
  intros Ha Hb [c Hc]. assert (0 < 2 ^ a) by (apply Z.pow_pos_nonneg; lia).
  rewrite Z.pow_add_r in Hc by lia. split.
  - exists (c * 2 ^ b). lia.
  - exists c. subst m. replace (c * (2 ^ a * 2 ^ b)) with (c * 2 ^ b * 2 ^ a) by lia.
    by rewrite Z.div_mul by lia.
Qed.

Lemma iter_shr_1_exact (p : positive) (m : Z) :
  0 <= m → (2 ^ Z.pos p | m) →
  SpecFloat.iter_pos shr_1 p (Build_shr_record m false false)
  = Build_shr_record (m / 2 ^ Z.pos p) false false.
Proof.
  revert m. induction p as [p IH|p IH|]; intros m Hm Hdiv; cbn [SpecFloat.iter_pos].
  - assert (0 < 2 ^ Z.pos p) as Hp by (apply Z.pow_pos_nonneg; lia).
    replace (Z.pos p~1) with (1 + (Z.pos p + Z.pos p)) in * by lia.
    apply divide_pow_div in Hdiv as [H2 Hdiv]; [|lia..].
    change (2 ^ 1) with 2 in *.
    apply divide_pow_div in Hdiv as [H3 H4]; [|lia..].
    assert (0 <= m / 2) by (apply Z.div_pos; lia).
    assert (0 <= m / 2 / 2 ^ Z.pos p) by (apply Z.div_pos; lia).
    rewrite shr_1_exact, IH, IH by done. f_equal.
    rewrite !Z.pow_add_r by lia. change (2 ^ 1) with 2. by rewrite !Z.div_div by lia.
  - assert (0 < 2 ^ Z.pos p) as Hp by (apply Z.pow_pos_nonneg; lia).
    replace (Z.pos p~0) with (Z.pos p + Z.pos p) in * by lia.
    apply divide_pow_div in Hdiv as [H3 H4]; [|lia..].
    assert (0 <= m / 2 ^ Z.pos p) by (apply Z.div_pos; lia).
    rewrite IH, IH by done. f_equal.
    rewrite !Z.pow_add_r by lia. by rewrite !Z.div_div by lia.
  - by apply shr_1_exact.
Qed.

Lemma shr_fexp_exact (m e : Z) :
  0 < m → -1000 <= e → (2 ^ Z.max (Zdigits2 m - 53) 0 | m) →
  shr_fexp 53 1024 m e loc_Exact
  = (Build_shr_record (m / 2 ^ Z.max (Zdigits2 m - 53) 0) false false,
     e + Z.max (Zdigits2 m - 53) 0).
Proof.
  intros Hm He Hdiv. destruct (Zdigits2_bounds m Hm) as [Hd _].
  unfold shr_fexp, fexp, emin.
  replace (Z.max (Zdigits2 m + e - 53) (3 - 1024 - 53) - e) with (Zdigits2 m - 53) by lia.
  unfold shr, shr_record_of_loc. destruct (Zdigits2 m - 53) as [|p|p] eqn:Hn.
  - cbn. by rewrite Z.div_1_r, Z.add_0_r.
  - rewrite iter_shr_1_exact; [done|lia|done].
  - cbn. by rewrite Z.div_1_r, Z.add_0_r.
Qed.

(** Rounding an exact mantissa whose dropped digits are all zero changes
    nothing of the value. *)
Lemma binary_round_aux_exact (s : bool) (mx ex : Z) :
  0 < mx → -1000 <= ex → ex + Zdigits2 mx <= 900 →
  (2 ^ Z.max (Zdigits2 mx - 53) 0 | mx) →
  ∃ m,
    binary_round_aux 53 1024 s mx ex loc_Exact
    = S754_finite s m (ex + Z.max (Zdigits2 mx - 53) 0)
    ∧ Z.pos m = mx / 2 ^ Z.max (Zdigits2 mx - 53) 0.
Proof.
  intros Hm Hex Hhi Hdiv. destruct (Zdigits2_bounds mx Hm) as [Hd [Hlo Hup]].
  unfold binary_round_aux. rewrite shr_fexp_exact by done.
  set (n1 := Z.max (Zdigits2 mx - 53) 0) in *.
  assert (0 < 2 ^ n1) as Hn1 by (apply Z.pow_pos_nonneg; lia).
  cbn [shr_m loc_of_shr_record round_nearest_even].
  assert (0 < mx / 2 ^ n1 < 2 ^ 53) as Hm1.
  { destruct (Z.le_gt_cases (Zdigits2 mx) 53) as [Hle|Hgt].
    - replace n1 with 0 by lia. rewrite Z.pow_0_r, Z.div_1_r.
      split; [lia|]. eapply Z.lt_le_trans; [exact Hup|]. apply Z.pow_le_mono_r; lia.
    - replace n1 with (Zdigits2 mx - 53) in * by lia.
      assert (2 ^ Zdigits2 mx = 2 ^ (Zdigits2 mx - 53) * 2 ^ 53) as E1
        by (rewrite <-Z.pow_add_r by lia; f_equal; lia).
      assert (2 ^ (Zdigits2 mx - 1) = 2 ^ (Zdigits2 mx - 53) * 2 ^ 52) as E2
        by (rewrite <-Z.pow_add_r by lia; f_equal; lia).
      assert (2 ^ 52 <= mx / 2 ^ (Zdigits2 mx - 53)) as Hq
        by (apply Z.div_le_lower_bound; lia).
      split; [lia|]. apply Z.div_lt_upper_bound; lia. }
  assert (Zdigits2 (mx / 2 ^ n1) <= 53) as Hd1 by (apply Zdigits2_le; lia).
  assert (Z.max (Zdigits2 (mx / 2 ^ n1) - 53) 0 = 0) as E0 by lia.
  rewrite shr_fexp_exact; [|lia|lia|rewrite E0; apply Z.divide_1_l].
  rewrite E0, Z.pow_0_r, Z.div_1_r, Z.add_0_r. cbn [shr_m].
  destruct (mx / 2 ^ n1) as [|m|m] eqn:Em; try lia.
  destruct (Z.leb_spec (ex + n1) (1024 - 53)) as [_|Hbad]; [|lia].
  by exists m.
Qed.

Lemma div_eucl_snd (a b : Z) : (Z.div_eucl a b).2 = a mod b.
Proof. reflexivity. Qed.

(** [n * 10^9 / 10^9] in binary64 is the float [n], exactly. *)
Lemma truediv_whole_seconds (n : Z) :
  1000 < n → n * 10 ^ 9 < 2 ^ 63 →
  ∃ m k,
    Py.truediv (n * 10 ^ 9) 1000000000 = Ok (S754_finite false m (Z.neg k))
    ∧ Z.pos m = n * 2 ^ Z.pos k.
Proof.
  intros Hn Hmax. destruct (n * 10 ^ 9) as [|p|p] eqn:Ep; try lia.
  assert (0 < Z.pos p) as Hp by lia.
  destruct (Zdigits2_bounds (Z.pos p) Hp) as [_ [Hlo Hup]].
  assert (40 <= Zdigits2 (Z.pos p)) as Hd40.
  { apply Zdigits2_ge; [done|]. change (2 ^ (40 - 1)) with 549755813888. lia. }
  assert (Zdigits2 (Z.pos p) <= 63) as Hd63 by (apply Zdigits2_le; [done|lia]).
  unfold Py.truediv. change (1000000000 =? 0) with false. cbv iota.
  unfold Py.float_of_Z, SFdiv, SFdiv_core_binary.
  change (Zdigits2 1000000000) with 30.
  set (d1 := Zdigits2 (Z.pos p)) in *.
  assert (Z.min (fexp 53 1024 (d1 + 0 - (30 + 0))) (0 - 0) = d1 - 83) as ->
    by (unfold fexp, emin; lia).
  destruct (0 - 0 - (d1 - 83)) as [|s|s] eqn:Es; try lia.
  rewrite Z.shiftl_mul_pow2 by lia.
  assert (0 < 2 ^ Z.pos s) as Hs by (apply Z.pow_pos_nonneg; lia).
  assert (2 ^ 82 <= Z.pos p * 2 ^ Z.pos s < 2 ^ 83) as Hm'.
  { assert (2 ^ 83 = 2 ^ d1 * 2 ^ Z.pos s) as ->
      by (rewrite <-Z.pow_add_r by lia; f_equal; lia).
    assert (2 ^ 82 = 2 ^ (d1 - 1) * 2 ^ Z.pos s) as ->
      by (rewrite <-Z.pow_add_r by lia; f_equal; lia).
    nia. }
  assert (Z.pos p * 2 ^ Z.pos s = n * 2 ^ Z.pos s * 1000000000) as Ediv
    by (rewrite <-Ep; change (10 ^ 9) with 1000000000; ring).
  pose proof (div_eucl_fst (Z.pos p * 2 ^ Z.pos s) 1000000000) as Hq.
  pose proof (div_eucl_snd (Z.pos p * 2 ^ Z.pos s) 1000000000) as Hr.
  destruct (Z.div_eucl (Z.pos p * 2 ^ Z.pos s) 1000000000) as [q r]. cbn [fst snd] in Hq, Hr.
  rewrite Ediv, Z.div_mul in Hq by lia. rewrite Ediv, Z.mod_mul in Hr by lia. subst q r.
  change (new_location 1000000000 0) with loc_Exact.
  set (q := n * 2 ^ Z.pos s) in *.
  assert (2 ^ 52 <= q < 2 ^ 54) as Hqb by lia.
  assert (0 < q) as Hq0 by lia.
  assert (53 <= Zdigits2 q <= 54) as Hdq.
  { split; [apply Zdigits2_ge; [done|]; change (2 ^ (53 - 1)) with (2 ^ 52); lia|].
    apply Zdigits2_le; [done|lia]. }
  set (n1 := Z.max (Zdigits2 q - 53) 0).
  assert (0 <= n1 <= 1) as Hn1 by lia.
  assert (2 ^ Z.pos s = 2 ^ (Z.pos s - n1) * 2 ^ n1) as Esplit
    by (rewrite <-Z.pow_add_r by lia; f_equal; lia).
  assert (0 < 2 ^ n1) as Hpow1 by (apply Z.pow_pos_nonneg; lia).
  destruct (binary_round_aux_exact (xorb false false) q (d1 - 83) Hq0 ltac:(lia) ltac:(lia))
    as (m & -> & Hm).
  { exists (n * 2 ^ (Z.pos s - n1)). fold n1. unfold q. rewrite Esplit. lia. }
  fold n1 in Hm |- *.
  destruct (d1 - 83 + n1) as [|k|k] eqn:Ek; try lia.
  exists m, k. split; [done|]. rewrite Hm. unfold q. rewrite Esplit.
  replace (n * (2 ^ (Z.pos s - n1) * 2 ^ n1)) with (n * 2 ^ (Z.pos s - n1) * 2 ^ n1) by lia.
  rewrite Z.div_mul by lia. do 2 f_equal. lia.
Qed.

Lemma apple_timestamp_whole_seconds_ok (n : Z) :
  1000 < n → n * 10 ^ 9 < 2 ^ 63 →
  apple_timestamp_to_datetime (VInt (n * 10 ^ 9))
  = Ok (Some (mk_datetime (micros APPLE_EPOCH + n * 1000000))).
Proof.
  intros Hn Hmax. rewrite apple_timestamp_nanoseconds by lia.
  destruct (truediv_whole_seconds n Hn Hmax) as (m & k & -> & Hm).
  cbn [mbind outcome_bind]. unfold Datetime.of_float_seconds.
  assert (0 < 2 ^ Z.pos k) as Hpow by (apply Z.pow_pos_nonneg; lia).
  assert (Py.trunc_finite false m (Z.neg k) = n) as ->.
  { unfold Py.trunc_finite. rewrite Z.shiftr_div_pow2, Hm by lia.
    by rewrite Z.div_mul by lia. }
  assert (Py.frac_finite false m (Z.neg k) = S754_zero false) as ->.
  { unfold Py.frac_finite. rewrite Z.land_ones, Hm, Z.mod_mul by lia. done. }
  change (Py.round_half_even (SFmul 53 1024 (Py.float_of_Z 1000000) (S754_zero false)))
    with 0.
  rewrite Z.add_0_r. fold (Datetime.of_seconds n).
  rewrite of_seconds_in_range by lia. cbn [mbind outcome_bind]. rewrite add_epoch.
  destruct (Z.leb_spec (-63113904000000000) (n * 1000000)); [|lia].
  destruct (Z.ltb_spec (n * 1000000) 252423993600000000); [|lia]. reflexivity.
Qed.

(** X25: the two ways of writing an instant agree.  A timestamp of [n]
    whole seconds written in nanoseconds, [n * 10^9], within the range of a
    64-bit integer, is converted to exactly the Apple epoch plus [n] seconds,
    the very time the timestamp [n] in seconds is converted to. *)
Theorem apple_timestamp_whole_seconds (n : Z) :
  1000 < n → n * 10 ^ 9 < 2 ^ 63 →
  apple_timestamp_to_datetime (VInt (n * 10 ^ 9))
  = Ok (Some (mk_datetime (micros APPLE_EPOCH + n * 1000000)))
  ∧ apple_timestamp_to_datetime (VInt (n * 10 ^ 9)) = apple_timestamp_to_datetime (VInt n).
Proof.
  intros Hn Hmax.
  pose proof (apple_timestamp_whole_seconds_ok n Hn Hmax) as Hns.
  split; [exact Hns|]. rewrite Hns. symmetry. apply apple_timestamp_seconds_ok; lia.
Qed.

Lemma apple_timestamp_whole_seconds_witness :
  apple_timestamp_to_datetime (VInt (700000000 * 10 ^ 9))
  = Ok (Some (mk_datetime (micros APPLE_EPOCH + 700000000 * 1000000))).
Proof. apply (apple_timestamp_whole_seconds 700000000); lia. Defined.

(** ** Which stored integers stop an export *)

(** X26: for an integer timestamp below 2^63, the conversion raises, always
    [OverflowError], exactly in two ranges: below -63113904000 (a sum before
    the year 1) and from 252423993600 up to 10^12 (read as seconds, a sum
    after the year 9999).  It gives the unknown marker exactly at zero, and
    a time everywhere else. *)
Theorem apple_timestamp_integer_outcomes (t : Z) :
  t < 2 ^ 63 →
  (apple_timestamp_to_datetime (VInt t) = Raise OverflowError
   ↔ t < -63113904000 ∨ 252423993599 < t <= 10 ^ 12)
  ∧ (apple_timestamp_to_datetime (VInt t) = Ok None ↔ t = 0)
  ∧ ((∃ d, apple_timestamp_to_datetime (VInt t) = Ok (Some d))
     ↔ -63113904000 <= t < 0 ∨ 0 < t <= 252423993599 ∨ 10 ^ 12 < t).
Proof.
  intros Ht.
  destruct (Z.lt_ge_cases t (-63113904000)) as [Hlow|Hlow].
  { rewrite apple_timestamp_seconds_overflow by lia.
    split; [split; [lia|done]|]. split; [split; [done|lia]|].
    split; [by intros [d ?]|lia]. }
  destruct (decide (t = 0)) as [->|H0].
  { change (apple_timestamp_to_datetime (VInt 0)) with (Ok (@None datetime)).
    split; [split; [done|lia]|]. split; [done|].
    split; [by intros [d ?]|lia]. }
  destruct (Z.le_gt_cases t 252423993599) as [Hsec|Hsec].
  { rewrite apple_timestamp_seconds_ok by lia.
    split; [split; [done|lia]|]. split; [split; [done|lia]|].
    split; [lia|]. intros _. by eexists. }
  destruct (Z.le_gt_cases t (10 ^ 12)) as [Hbig|Hns].
  { rewrite apple_timestamp_seconds_overflow by lia.
    split; [split; [lia|done]|]. split; [split; [done|lia]|].
    split; [by intros [d ?]|lia]. }
  destruct (apple_timestamp_nanoseconds_ok t ltac:(lia)) as (us & -> & _).
  split; [split; [done|lia]|]. split; [split; [done|lia]|].
  split; [lia|]. intros _. by eexists.
Qed.

Lemma apple_timestamp_integer_outcomes_witness :
  apple_timestamp_to_datetime (VInt 300000000000) = Raise OverflowError.
Proof.
  apply (apple_timestamp_integer_outcomes 300000000000); lia.
Defined.

(** ** The timestamp normalizer, case by case *)

(** C1, as the code has it.  [None], an input that [int] takes to zero and an
    input on which [int] raises [TypeError] or [ValueError] give the unknown
    marker.  An integer [t] above 10^12, up to what a 64-bit integer column
    holds, is read as nanoseconds: the result is a time, the Apple epoch plus
    [t / 10^9] seconds rounded to a whole number [us] of microseconds, less
    than six microseconds from the exact instant, and the exact instant
    itself when [t] is a whole number of seconds.  An integer [t] from 1 to
    252423993599 is read as seconds and gives the epoch plus [t] seconds;
    from there up to 10^12 the sum lies after the year 9999 and
    [OverflowError] is raised. *)
Theorem apple_timestamp_cases :
  apple_timestamp_to_datetime VNone = Ok None
  ∧ (∀ v, Py.int v = Ok 0 → apple_timestamp_to_datetime v = Ok None)
  ∧ (∀ v, Py.int v = Raise TypeError ∨ Py.int v = Raise ValueError →
          apple_timestamp_to_datetime v = Ok None)
  ∧ (∀ t, 10 ^ 12 < t < 2 ^ 63 →
          ∃ us,
            apple_timestamp_to_datetime (VInt t)
            = Ok (Some (mk_datetime (micros APPLE_EPOCH + us)))
            ∧ -6000 < 1000 * us - t < 6000)
  ∧ (∀ n, 1000 < n → n * 10 ^ 9 < 2 ^ 63 →
          apple_timestamp_to_datetime (VInt (n * 10 ^ 9))
          = Ok (Some (mk_datetime (micros APPLE_EPOCH + n * 1000000))))
  ∧ (∀ t, 0 < t <= 252423993599 →
          apple_timestamp_to_datetime (VInt t)
          = Ok (Some (mk_datetime (micros APPLE_EPOCH + t * 1000000))))
  ∧ (∀ t, 252423993599 < t <= 10 ^ 12 →
          apple_timestamp_to_datetime (VInt t) = Raise OverflowError).
Proof.
  split; [reflexivity|].
  split; [apply apple_timestamp_zero|].
  split; [apply apple_timestamp_malformed|].
  split; [apply apple_timestamp_nanoseconds_ok|].
  split; [apply apple_timestamp_whole_seconds_ok|].
  split.
  - intros t Ht. apply apple_timestamp_seconds_ok; lia.
  - intros t Ht. apply apple_timestamp_seconds_overflow. lia.
Qed.

Lemma apple_timestamp_cases_witness :
  apple_timestamp_to_datetime (VInt 1000)
  = Ok (Some (mk_datetime (micros APPLE_EPOCH + 1000 * 1000000)))
  ∧ apple_timestamp_to_datetime (VStr "yesterday") = Ok None
  ∧ (∃ us,
       apple_timestamp_to_datetime (VInt 700000000123456789)
       = Ok (Some (mk_datetime (micros APPLE_EPOCH + us)))
       ∧ -6000 < 1000 * us - 700000000123456789 < 6000)
  ∧ apple_timestamp_to_datetime (VInt (700000000 * 10 ^ 9))
    = Ok (Some (mk_datetime (micros APPLE_EPOCH + 700000000 * 1000000))).
Proof.
  split; [|split; [|split]].
  - apply (proj1 (proj2 (proj2 (proj2 (proj2 (proj2 apple_timestamp_cases))))) 1000). lia.
  - apply (proj1 (proj2 (proj2 apple_timestamp_cases)) (VStr "yesterday")).
    right. reflexivity.
  - apply (proj1 (proj2 (proj2 (proj2 apple_timestamp_cases))) 700000000123456789). lia.
  - apply (proj1 (proj2 (proj2 (proj2 (proj2 apple_timestamp_cases)))) 700000000); lia.
Defined.
